(** * Mason task compiler, provider registry, selector and execution engine

    A shallow embedding of the scheduling core of the Mason daemon
    (bin/task_compiler.py, bin/lib/provider_registry.py,
    bin/provider_selector.py, bin/mason_daemon.py, bin/lib/config.py) and the
    properties of it that the specification states.

    Conventions of the embedding:
    - a Python [int] is a [Z]; a Python [float] is a primitive IEEE-754
      binary64 [float]; a list index or a length is a [nat];
    - a Python [str] holding free text (titles, criteria) is the list of its
      Unicode code points ([pystr]); identifiers that are only ever compared
      or used as dictionary keys (provider names, status words, keys of the
      configuration) are [string]s;
    - a method that can raise returns a [result]; a method that reads or
      changes the daemon's objects, or talks to the outside world, runs in
      the state-and-exception monad [M];
    - the outside world (clock, QA service, provider adapters, uuid source)
      is a record of oracles indexed by the number of external calls made so
      far, so every theorem that quantifies over the record holds for every
      behaviour of the outside world. *)

From Stdlib Require Import ZArith List Bool Lia Floats Ascii String DecimalString.
From stdpp Require Import gmap strings list sorting.

Local Open Scope Z_scope.

(** ** Exceptions *)

Inductive exn : Type :=
  | IndexError
  | KeyError
  | AttributeError
  | TypeError
  | ZeroDivisionError
  | OverflowError
  | HTTPError.

Inductive result (A : Type) : Type :=
  | Ok (a : A)
  | Raise (e : exn).
Arguments Ok {A} a.
Arguments Raise {A} e.

#[global] Instance result_ret : MRet result := fun A a => Ok a.
#[global] Instance result_bind : MBind result := fun A B f m =>
  match m with
  | Ok a => f a
  | Raise e => Raise e
  end.

Definition returns {A} (r : result A) : Prop := exists a, r = Ok a.

(** ** Python strings *)

Definition codepoint := N.
Definition pystr := list codepoint.

(** A literal of the source (ASCII only) as a [pystr]. *)
Definition lit (s : string) : pystr :=
  map (fun a => N_of_ascii a) (String.list_ascii_of_string s).

(** [str(n)] for an int. *)
Definition str_of_int (z : Z) : pystr :=
  lit (NilZero.string_of_int (Z.to_int z)).

Definition LF : codepoint := 10%N.
Definition FULL_STOP : codepoint := 46%N.
Definition HYPHEN_MINUS : codepoint := 45%N.
Definition ASTERISK : codepoint := 42%N.
Definition BULLET : codepoint := 8226%N.       (* U+2022 *)
Definition CHECK_MARK : codepoint := 10003%N.  (* U+2713 *)

Module PyStr.
Section Unicode.

(** Python decides [str.isspace] (and [str.isdigit], used by the task
    compiler below) from its copy of the Unicode character database; the
    tables are parameters of the model. *)
Variable isspace : codepoint -> bool.

Fixpoint lstrip (s : pystr) : pystr :=
  match s with
  | [] => []
  | c :: s' => if isspace c then lstrip s' else s
  end.

Definition rstrip (s : pystr) : pystr := rev (lstrip (rev s)).

(** [s.strip()] *)
Definition strip (s : pystr) : pystr := rstrip (lstrip s).

(** [s.split(sep)] for a one-character separator: never empty. *)
Fixpoint split (sep : codepoint) (s : pystr) : list pystr :=
  match s with
  | [] => [[]]
  | c :: s' =>
      if N.eqb c sep then [] :: split sep s'
      else match split sep s' with
           | w :: ws => (c :: w) :: ws
           | [] => [[c]]
           end
  end.

(** [s.split(sep, 1)]: at most one cut, at the first separator. *)
Fixpoint split1 (sep : codepoint) (s : pystr) : list pystr :=
  match s with
  | [] => [[]]
  | c :: s' =>
      if N.eqb c sep then [[]; s']
      else match split1 sep s' with
           | w :: ws => (c :: w) :: ws
           | [] => [[c]]
           end
  end.

(** [s.startswith((p1, ..., pn))] for one-character prefixes. *)
Definition startswith_any (s : pystr) (prefixes : list codepoint) : bool :=
  match s with
  | [] => false
  | c :: _ => existsb (N.eqb c) prefixes
  end.

(** [c in s] *)
Definition contains (c : codepoint) (s : pystr) : bool := existsb (N.eqb c) s.

(** [l[i]], raising [IndexError] out of range. *)
Definition index {A} (l : list A) (i : nat) : result A :=
  match l !! i with
  | Some x => Ok x
  | None => Raise IndexError
  end.

End Unicode.
End PyStr.

(** The two tables restricted to ASCII, for running the model on ASCII text. *)
Definition ascii_isspace (c : codepoint) : bool :=
  ((9 <=? c) && (c <=? 13) || (28 <=? c) && (c <=? 32))%N.
Definition ascii_isdigit (c : codepoint) : bool :=
  ((48 <=? c) && (c <=? 57))%N.

(** ** Configuration (bin/lib/config.py) *)

(** [Config._config] is the [mason] section of the YAML document; the engine
    reads integer settings only, each by a dotted path, so the document is
    kept as the finite map from dotted path to value. A missing key is a
    missing entry. *)
Record ProviderJson : Type := {
  pj_name : string;
  pj_priority : option Z;
  pj_type : option string;
  pj_adapter : option string;
  pj_rate_limit_strategy : option string;
  pj_confidence_weight : option float;
  pj_enabled : option bool;
}.

Record Config : Type := {
  _config : gmap string Z;
  _providers : list ProviderJson;
}.

Module Config.
Definition get (c : Config) (key : string) (default : Z) : Z :=
  match _config c !! key with
  | Some v => v
  | None => default
  end.

Definition poll_interval c := get c "devbacklog.poll_interval_seconds" 60.
Definition max_tasks_per_story c := get c "decomposition.max_tasks_per_story" 10.
Definition default_max_attempts c := get c "decomposition.default_max_attempts" 3.
Definition rate_limit_cooldown c := get c "provider_selection.rate_limit_cooldown" 300.
Definition high_load_threshold c := get c "provider_selection.high_load_threshold" 50.
Definition providers c := _providers c.
End Config.

(** ** Stories and task packets *)

Record Story : Type := {
  story_id : Z;
  story_title : pystr;
  narrative : pystr;
  acceptance_criteria : pystr;
  story_epic_id : option Z;
  story_priority : Z;
  story_est_points : option Z;
}.

Record Identity : Type := {
  task_id : pystr;
  id_story_id : Z;
  epic_id : option Z;
}.

Record Goal : Type := {
  title : pystr;
  description : pystr;
  success_criteria : list pystr;
}.

Record Constraints : Type := {
  file_scope : list pystr;
  style_rules : list pystr;
  forbidden : list pystr;
}.

Record Inputs : Type := {
  context_files : list pystr;
  dependencies : list pystr;
  retry_guidance : list pystr;
}.

Record Execution : Type := {
  max_attempts : Z;
  current_attempt : Z;
  timeout_seconds : Z;
}.

Record ProviderContext : Type := {
  preferred_model : option pystr;
  complexity_hint : string;
}.

Record Metadata : Type := {
  created_at : pystr;
  source_domain : string;
  md_priority : Z;
  est_points : option Z;
}.

Record TaskPacket : Type := {
  identity : Identity;
  goal : Goal;
  constraints : Constraints;
  inputs : Inputs;
  execution : Execution;
  provider_context : ProviderContext;
  metadata : Metadata;
}.

(** The sources of fresh values [_create_task_packet] draws on: the [k]-th
    packet created receives [uuid4 k] and the clock reading [utcnow_iso k]. *)
Record PacketSource : Type := {
  uuid4 : nat -> pystr;
  utcnow_iso : nat -> pystr;
}.

(** ** TaskCompiler (bin/task_compiler.py) *)

Module TaskCompiler.
Section Compiler.

Variable isspace : codepoint -> bool.
Variable isdigit : codepoint -> bool.
Variable config : Config.
Variable src : PacketSource.

Abbreviation strip := (PyStr.strip isspace).

Definition max_tasks : Z := Config.max_tasks_per_story config.
Definition default_max_attempts : Z := Config.default_max_attempts config.

Definition bullets : list codepoint :=
  [HYPHEN_MINUS; ASTERISK; BULLET; CHECK_MARK].

(** The body of the [for line in lines] loop: the cleaned line. *)
Definition clean_line (line : pystr) : result pystr :=
  let line := strip line in
  let line :=
    if PyStr.startswith_any line bullets then strip (drop 1 line) else line in
  match line with
  | c :: _ =>
      if isdigit c && PyStr.contains FULL_STOP (take 3 line) then
        rest ← PyStr.index (PyStr.split1 FULL_STOP line) 1;
        Ok (strip rest)
      else Ok line
  | [] => Ok line
  end.

Fixpoint parse_lines (lines : list pystr) (criteria : list pystr)
  : result (list pystr) :=
  match lines with
  | [] => Ok criteria
  | line :: lines' =>
      line ← clean_line line;
      match line with
      | [] => parse_lines lines' criteria
      | _ :: _ => parse_lines lines' (criteria ++ [line])
      end
  end.

Definition _parse_acceptance_criteria (criteria_text : pystr)
  : result (list pystr) :=
  match criteria_text with
  | [] => Ok []
  | _ :: _ => parse_lines (PyStr.split LF (strip criteria_text)) []
  end.

Definition _infer_file_scope (story : Story) : list pystr := [].

Definition _estimate_complexity (story : Story) : string :=
  match story_est_points story with
  | None => "medium"
  | Some pts =>
      if pts <=? 2 then "low"
      else if pts <=? 5 then "medium"
      else "high"
  end.

(** [k] counts the packets created before this one. *)
Definition _create_task_packet (k : nat) (story : Story)
    (criteria : list pystr) (task_index : nat) : TaskPacket :=
  let title :=
    if (0 <? task_index)%nat
    then story_title story ++ lit " (Part "
           ++ str_of_int (Z.of_nat task_index + 1) ++ lit ")"
    else story_title story in
  {| identity := {| task_id := uuid4 src k;
                    id_story_id := story_id story;
                    epic_id := story_epic_id story |};
     goal := {| title := title;
                description := narrative story;
                success_criteria := criteria |};
     constraints := {| file_scope := _infer_file_scope story;
                       style_rules := [];
                       forbidden := [] |};
     inputs := {| context_files := [];
                  dependencies := [];
                  retry_guidance := [] |};
     execution := {| max_attempts := default_max_attempts;
                     current_attempt := 0;
                     timeout_seconds := 300 |};
     provider_context := {| preferred_model := None;
                            complexity_hint := _estimate_complexity story |};
     metadata := {| created_at := utcnow_iso src k ++ lit "Z";
                    source_domain := "devbacklog";
                    md_priority := story_priority story;
                    est_points := story_est_points story |} |}.

(** [range(0, n, 3)] *)
Definition range3 (n : nat) : list nat :=
  map (fun j => (3 * j)%nat) (seq 0 ((n + 2) / 3)).

(** One turn of the decomposition loop; [tasks] is the list built so far. *)
Definition compile_step (k : nat) (story : Story) (criteria : list pystr)
    (tasks : list TaskPacket) (i : nat) : list TaskPacket :=
  let group := take 3 (drop i criteria) in
  if Z.of_nat (length tasks) <? max_tasks
  then tasks ++ [_create_task_packet (k + length tasks) story group (i / 3)]
  else tasks.

Definition compile (k : nat) (story : Story) : result (list TaskPacket) :=
  criteria ← _parse_acceptance_criteria (acceptance_criteria story);
  if (length criteria <=? 3)%nat then
    Ok [_create_task_packet k story criteria 0]
  else
    Ok (fold_left (compile_step k story criteria)
                  (range3 (length criteria)) []).

End Compiler.
End TaskCompiler.

(** ** Task packets as Python dictionaries *)

(** [enrich_for_retry] works on the packet as a dictionary of dictionaries:
    it copies objects and assigns to keys. The store below holds the
    dictionary objects; a value refers to a dictionary by its location, so
    that two values can share one. Lists are never updated in place by the
    code modelled here and are kept as values. *)
Module PyDict.

Definition loc := positive.

#[local] Set Warnings "-register-all".
Inductive value : Type :=
  | VNone
  | VBool (b : bool)
  | VInt (z : Z)
  | VStr (s : pystr)
  | VList (l : list value)
  | VDict (l : loc).

Abbreviation dict := (gmap string value).
Abbreviation heap := (gmap loc (gmap string value)).

(** A new object holding [d]. *)
Definition alloc (d : dict) (h : heap) : loc * heap :=
  let l := fresh (dom h) in (l, <[l := d]> h).

(** [obj[key] = v] *)
Definition setitem (obj : loc) (key : string) (v : value) (h : heap) : heap :=
  match h !! obj with
  | Some d => <[obj := <[key := v]> d]> h
  | None => h
  end.

(** The entries of [obj.get(key, {}).copy()]. A list has a [copy] method
    too, but the assignment by key that follows fails on it. *)
Definition get_copy (h : heap) (obj : loc) (key : string) : result dict :=
  match h !! obj with
  | None => Raise AttributeError
  | Some d =>
      match d !! key with
      | None => Ok ∅
      | Some (VDict l) =>
          match h !! l with
          | Some d' => Ok d'
          | None => Raise AttributeError
          end
      | Some (VList _) => Raise TypeError
      | Some _ => Raise AttributeError
      end
  end.

(** [TaskCompiler.enrich_for_retry] *)
Definition enrich_for_retry (task_packet : loc) (guidance : value)
    (attempt : Z) (h : heap) : result loc * heap :=
  match h !! task_packet with
  | None => (Raise AttributeError, h)
  | Some d =>
      let '(enriched, h) := alloc d h in
      match get_copy h task_packet "inputs" with
      | Raise e => (Raise e, h)
      | Ok inputs =>
          let '(li, h) := alloc inputs h in
          let h := setitem enriched "inputs" (VDict li) h in
          let h := setitem li "retry_guidance" guidance h in
          match get_copy h task_packet "execution" with
          | Raise e => (Raise e, h)
          | Ok execution =>
              let '(le, h) := alloc execution h in
              let h := setitem enriched "execution" (VDict le) h in
              let h := setitem le "current_attempt" (VInt attempt) h in
              (Ok enriched, h)
          end
      end
  end.

(** [obj[group][key]], when [obj[group]] is a dictionary. *)
Definition field (h : heap) (obj : loc) (group key : string) : option value :=
  d ← h !! obj;
  v ← d !! group;
  match v with
  | VDict l => g ← h !! l; g !! key
  | _ => None
  end.

(** A value that refers to a dictionary refers to one of the store. *)
Definition value_ok (h : heap) (v : value) : bool :=
  match v with
  | VDict l => bool_decide (is_Some (h !! l))
  | _ => true
  end.

(** The entry [key] of the dictionary [d] is missing or a dictionary. *)
Definition group_ok (d : dict) (key : string) : bool :=
  match d !! key with
  | None | Some (VDict _) => true
  | Some _ => false
  end.

(** [obj] is a packet of the store: a dictionary whose values refer to
    dictionaries of the store only, and whose groups [inputs] and
    [execution], when present, are dictionaries. *)
Definition packet_ok (h : heap) (obj : loc) : bool :=
  match h !! obj with
  | None => false
  | Some d =>
      bool_decide (map_Forall (fun _ v => value_ok h v = true) d)
      && group_ok d "inputs" && group_ok d "execution"
  end.

Definition VOpt {A} (f : A -> value) (o : option A) : value :=
  match o with
  | Some a => f a
  | None => VNone
  end.
Definition VStrs (l : list pystr) : value := VList (map VStr l).

(** The dictionary literal that [_create_task_packet] returns, built in
    the store from the packet's record. *)
Definition store_packet (p : TaskPacket) (h : heap) : loc * heap :=
  let '(l1, h) := alloc (list_to_map
    [("task_id"%string, VStr (task_id (identity p)));
     ("story_id"%string, VInt (id_story_id (identity p)));
     ("epic_id"%string, VOpt VInt (epic_id (identity p)))]) h in
  let '(l2, h) := alloc (list_to_map
    [("title"%string, VStr (title (goal p)));
     ("description"%string, VStr (description (goal p)));
     ("success_criteria"%string, VStrs (success_criteria (goal p)))]) h in
  let '(l3, h) := alloc (list_to_map
    [("file_scope"%string, VStrs (file_scope (constraints p)));
     ("style_rules"%string, VStrs (style_rules (constraints p)));
     ("forbidden"%string, VStrs (forbidden (constraints p)))]) h in
  let '(l4, h) := alloc (list_to_map
    [("context_files"%string, VStrs (context_files (inputs p)));
     ("dependencies"%string, VStrs (dependencies (inputs p)));
     ("retry_guidance"%string, VStrs (retry_guidance (inputs p)))]) h in
  let '(l5, h) := alloc (list_to_map
    [("max_attempts"%string, VInt (max_attempts (execution p)));
     ("current_attempt"%string, VInt (current_attempt (execution p)));
     ("timeout_seconds"%string, VInt (timeout_seconds (execution p)))]) h in
  let '(l6, h) := alloc (list_to_map
    [("preferred_model"%string, VOpt VStr (preferred_model (provider_context p)));
     ("complexity_hint"%string, VStr (lit (complexity_hint (provider_context p))))]) h in
  let '(l7, h) := alloc (list_to_map
    [("created_at"%string, VStr (created_at (metadata p)));
     ("source_domain"%string, VStr (lit (source_domain (metadata p))));
     ("priority"%string, VInt (md_priority (metadata p)));
     ("est_points"%string, VOpt VInt (est_points (metadata p)))]) h in
  alloc (list_to_map
    [("identity"%string, VDict l1); ("goal"%string, VDict l2);
     ("constraints"%string, VDict l3); ("inputs"%string, VDict l4);
     ("execution"%string, VDict l5); ("provider_context"%string, VDict l6);
     ("metadata"%string, VDict l7)]) h.

End PyDict.

(** ** Python helpers *)

(** [sorted(l, key=...)] and [l.sort(key=...)]: a stable sort. [lt y x] says
    that [y], already placed, stays ahead of the later-inserted [x]; an
    element is inserted before the first element it is not behind, so equal
    keys keep the order of the input. With [lt] a strict total order on the
    keys this is the result of Python's sort, also under [reverse=True]
    (which keeps the input order of equal keys as well). Keys that are not
    totally ordered (a NaN score) leave Python's result a permutation of the
    input, as here, but not necessarily this one. *)
Fixpoint insert_by {A} (lt : A -> A -> bool) (x : A) (l : list A) : list A :=
  match l with
  | [] => [x]
  | y :: l' => if lt y x then y :: insert_by lt x l' else x :: l
  end.

Definition sort_by {A} (lt : A -> A -> bool) (l : list A) : list A :=
  foldr (insert_by lt) [] l.

(** [float(n)] for an int: correctly rounded, [OverflowError] beyond the
    range of a double. *)
Definition float_of_int (z : Z) : result float :=
  let f := SF2Prim (binary_normalize 53 1024 z 0 false) in
  if is_infinity f then Raise OverflowError else Ok f.

(** [x / n] for a float [x] and an int [n]. *)
Definition float_div_int (x : float) (n : Z) : result float :=
  d ← float_of_int n;
  if is_zero d then Raise ZeroDivisionError else Ok (x / d)%float.

(** A [datetime] is a count of microseconds, from [datetime.min] on; the
    values Python can hold are those from 0 to [datetime_max], the last
    microsecond of the year 9999. *)
Definition datetime := Z.
Definition timedelta (seconds : Z) : Z := seconds * 1000000.
Definition datetime_max : datetime := 315537897599999999.

(** [now + timedelta(seconds=n)]: [OverflowError] when the result is not a
    date of the years 1 to 9999. (A number of seconds beyond the range of
    [timedelta] itself, which raises [OverflowError] too, is beyond this
    range from every date.) *)
Definition datetime_add (now : datetime) (seconds : Z) : result datetime :=
  let t := now + timedelta seconds in
  if (0 <=? t) && (t <=? datetime_max) then Ok t else Raise OverflowError.

(** ** Provider registry data (bin/lib/provider_registry.py) *)

Record ProviderState : Type := {
  ps_name : string;
  available : bool;
  rate_limited_until : option datetime;
  consecutive_failures : Z;
  last_success : option datetime;
  last_failure : option datetime;
}.

(** The adapter-specific [config] dictionary of a definition is opaque to
    the engine and left out. *)
Record ProviderDefinition : Type := {
  name : string;
  priority : Z;
  type : string;
  adapter : string;
  rate_limit_strategy : string;
  confidence_weight : float;
  enabled : bool;
}.

(** ** QA service records (bin/lib/qaqueue_client.py), provider results
    (bin/lib/providers/base.py): the fields the engine reads. *)

Record QueueStats : Type := { total_active : Z }.

Record ProviderStats : Type := {
  total_runs : Z;
  success_rate : float;
}.

Record ArtifactBundle : Type := {
  execution_status : string;
  is_rate_limit : bool;
}.

Record SelectionContext : Type := {
  ctx_task_id : pystr;
  attempt : Z;
  ctx_max_attempts : Z;
  providers_tried : list string;
  last_failure_reason : option pystr;
  is_retry : bool;
}.

(** ** The outside world *)

(** Every call that leaves the process is answered by an oracle applied to
    the number of such calls made before it. *)
Record World : Type := {
  datetime_now : nat -> datetime;
  get_stats : nat -> result QueueStats;
  get_provider_stats : nat -> result (gmap string ProviderStats);
  start_run : nat -> result (option pystr);
  complete_run : nat -> result unit;
  generate : string -> TaskPacket -> nat -> ArtifactBundle;
}.

(** ** Log events: one constructor per event name of the source *)

Inductive event : Type :=
  | all_providers_exhausted (providers_tried : list string)
  | no_providers_available
  | high_load_local_preferred
  | load_check_failed
  | stats_refresh_failed
  | provider_selected (provider : string) (score : float) (candidates : nat)
  | no_provider_available
  | provider_not_initialized (provider : string)
  | start_run_failed
  | executing_task (provider : string) (attempt : Z)
  | no_task_packet_for_retry
  | complete_run_failed
  | task_succeeded (provider : string)
  | provider_failure_failover (provider : string) (is_rate_limit : bool)
  | task_failed (provider : string) (attempt : Z)
  | task_exhausted (attempts : Z) (providers_tried : list string).

(** ** The daemon's mutable state *)

Record Daemon : Type := {
  _states : gmap string ProviderState;         (* registry._states *)
  _cached_stats : gmap string ProviderStats;   (* selector._cached_stats *)
  context : SelectionContext;                  (* the context being driven *)
  invocations : list (string * ArtifactBundle);(* provider.generate calls made *)
  log : list event;
  tick : nat;                                  (* external calls made *)
}.

Definition M (A : Type) : Type := Daemon -> result A * Daemon.

#[global] Instance M_ret : MRet M := fun A a s => (Ok a, s).
#[global] Instance M_bind : MBind M := fun A B f m s =>
  match m s with
  | (Ok a, s') => f a s'
  | (Raise e, s') => (Raise e, s')
  end.

Definition raise {A} (e : exn) : M A := fun s => (Raise e, s).
Definition lift {A} (r : result A) : M A := fun s => (r, s).

(** [try: m except Exception: handler] *)
Definition try_except {A} (m : M A) (handler : M A) : M A := fun s =>
  match m s with
  | (Ok a, s') => (Ok a, s')
  | (Raise _, s') => handler s'
  end.

Definition get_state : M Daemon := fun s => (Ok s, s).

(** The state after one more log record, and after one more external call. *)
Definition logged (e : event) (s : Daemon) : Daemon :=
  {| _states := _states s; _cached_stats := _cached_stats s;
     context := context s; invocations := invocations s;
     log := log s ++ [e]; tick := tick s |}.

Definition advance (s : Daemon) : Daemon :=
  {| _states := _states s; _cached_stats := _cached_stats s;
     context := context s; invocations := invocations s;
     log := log s; tick := S (tick s) |}.

Definition logger (e : event) : M unit := fun s => (Ok tt, logged e s).

(** An external call: the oracle's answer at the current tick. *)
Definition external {A} (oracle : nat -> A) : M A := fun s =>
  (Ok (oracle (tick s)), advance s).

Definition set_states (st : gmap string ProviderState) : M unit := fun s =>
  (Ok tt, {| _states := st; _cached_stats := _cached_stats s;
             context := context s; invocations := invocations s;
             log := log s; tick := tick s |}).

Definition set_cached_stats (cs : gmap string ProviderStats) : M unit := fun s =>
  (Ok tt, {| _states := _states s; _cached_stats := cs;
             context := context s; invocations := invocations s;
             log := log s; tick := tick s |}).

Definition set_context (c : SelectionContext) : M unit := fun s =>
  (Ok tt, {| _states := _states s; _cached_stats := _cached_stats s;
             context := c; invocations := invocations s;
             log := log s; tick := tick s |}).

Definition record_invocation (p : string) (b : ArtifactBundle) : M unit := fun s =>
  (Ok tt, {| _states := _states s; _cached_stats := _cached_stats s;
             context := context s; invocations := invocations s ++ [(p, b)];
             log := log s; tick := tick s |}).

(** ** ProviderRegistry *)

Module ProviderRegistry.

(** [d[defn.name] = defn] on the insertion-ordered dictionary
    [_definitions], kept as the list of its values: an existing key keeps
    its position. *)
Fixpoint dict_set (defn : ProviderDefinition) (d : list ProviderDefinition)
  : list ProviderDefinition :=
  match d with
  | [] => [defn]
  | q :: d' => if String.eqb (name q) (name defn) then defn :: d'
               else q :: dict_set defn d'
  end.

Definition definition_of (p : ProviderJson) : ProviderDefinition :=
  {| name := pj_name p;
     priority := default 99 (pj_priority p);
     type := default "cli"%string (pj_type p);
     adapter := default (pj_name p) (pj_adapter p);
     rate_limit_strategy := default "none"%string (pj_rate_limit_strategy p);
     confidence_weight := default 1%float (pj_confidence_weight p);
     enabled := default true (pj_enabled p) |}.

Definition initial_state (n : string) : ProviderState :=
  {| ps_name := n; available := true; rate_limited_until := None;
     consecutive_failures := 0; last_success := None; last_failure := None |}.

(** [_load_providers]: the two dictionaries after the loop. *)
Definition _load_providers (config : Config)
  : list ProviderDefinition * gmap string ProviderState :=
  fold_left
    (fun '(defs, states) p =>
       let defn := definition_of p in
       (dict_set defn defs, <[name defn := initial_state (name defn)]> states))
    (Config.providers config) ([], ∅).

Section Registry.

Variable config : Config.
Variable _definitions : list ProviderDefinition.
Variable world : World.

Definition get_definition (n : string) : option ProviderDefinition :=
  List.find (fun d => String.eqb (name d) n) _definitions.

Definition get_enabled_providers : list ProviderDefinition :=
  sort_by (fun p q => priority p <? priority q)
          (List.filter enabled _definitions).

(** The loop of [get_available_providers], at clock reading [now]. *)
Fixpoint available_among (states : gmap string ProviderState) (now : datetime)
    (defns : list ProviderDefinition) : result (list ProviderDefinition) :=
  match defns with
  | [] => Ok []
  | defn :: defns' =>
      match states !! name defn with
      | None => Raise KeyError
      | Some state =>
          rest ← available_among states now defns';
          match rate_limited_until state with
          | Some t => if now <? t then Ok rest
                      else if available state then Ok (defn :: rest) else Ok rest
          | None => if available state then Ok (defn :: rest) else Ok rest
          end
      end
  end.

Definition available_at (states : gmap string ProviderState) (now : datetime)
  : result (list ProviderDefinition) :=
  available_among states now get_enabled_providers.

Definition get_available_providers : M (list ProviderDefinition) :=
  now ← external (datetime_now world);
  s ← get_state;
  lift (available_at (_states s) now).

Definition mark_rate_limited (n : string) (cooldown_seconds : option Z) : M unit :=
  s ← get_state;
  match _states s !! n with
  | None => mret tt
  | Some state =>
      let cooldown :=
        match cooldown_seconds with
        | Some c => if c =? 0 then Config.rate_limit_cooldown config else c
        | None => Config.rate_limit_cooldown config
        end in
      now ← external (datetime_now world);
      until ← lift (datetime_add now cooldown);
      set_states (<[n :=
        {| ps_name := ps_name state; available := available state;
           rate_limited_until := Some until;
           consecutive_failures := consecutive_failures state + 1;
           last_success := last_success state;
           last_failure := last_failure state |}]> (_states s))
  end.

Definition mark_success (n : string) : M unit :=
  s ← get_state;
  match _states s !! n with
  | None => mret tt
  | Some state =>
      now ← external (datetime_now world);
      set_states (<[n :=
        {| ps_name := ps_name state; available := available state;
           rate_limited_until := None;
           consecutive_failures := 0;
           last_success := Some now;
           last_failure := last_failure state |}]> (_states s))
  end.

Definition mark_failure (n : string) (is_rate_limit : bool) : M unit :=
  s ← get_state;
  match _states s !! n with
  | None => mret tt
  | Some state =>
      now ← external (datetime_now world);
      set_states (<[n :=
        {| ps_name := ps_name state; available := available state;
           rate_limited_until := rate_limited_until state;
           consecutive_failures := consecutive_failures state + 1;
           last_success := last_success state;
           last_failure := Some now |}]> (_states s));;
      if is_rate_limit then mark_rate_limited n None else mret tt
  end.

Definition get_local_providers : M (list ProviderDefinition) :=
  available ← get_available_providers;
  mret (List.filter (fun p => String.eqb (type p) "local") available).

End Registry.
End ProviderRegistry.

(** ** ProviderSelector (bin/provider_selector.py) *)

Module ProviderSelector.
Section Selector.

Variable config : Config.
Variable _definitions : list ProviderDefinition.
Variable world : World.

Abbreviation get_available_providers :=
  (ProviderRegistry.get_available_providers _definitions world).
Abbreviation get_local_providers :=
  (ProviderRegistry.get_local_providers _definitions world).

(** [QAQueueClient.is_high_load] *)
Definition is_high_load (threshold : Z) : M bool :=
  r ← external (get_stats world);
  stats ← lift r;
  mret (threshold <? total_active stats).

Definition _refresh_stats : M unit :=
  try_except
    (r ← external (get_provider_stats world);
     stats ← lift r;
     set_cached_stats stats)
    (logger stats_refresh_failed).

(** The loop of [_score_providers] over the refreshed cache. *)
Fixpoint score_loop (cached : gmap string ProviderStats)
    (providers : list ProviderDefinition)
  : result (list (ProviderDefinition * float)) :=
  match providers with
  | [] => Ok []
  | p :: providers' =>
      priority_score ← float_div_int 1%float (priority p);
      let success_rate :=
        match cached !! name p with
        | Some stats => if 0 <? total_runs stats then success_rate stats
                        else 0.5%float
        | None => 0.5%float
        end in
      let score := (priority_score * success_rate * confidence_weight p)%float in
      rest ← score_loop cached providers';
      Ok ((p, score) :: rest)
  end.

Definition _score_providers (providers : list ProviderDefinition)
  : M (list (ProviderDefinition * float)) :=
  _refresh_stats;;
  s ← get_state;
  lift (score_loop (_cached_stats s) providers).

(** [p in local]: both lists hold values of the dictionary
    [_definitions], where an object is identified by its key. *)
Definition defn_in (p : ProviderDefinition) (l : list ProviderDefinition) : bool :=
  existsb (fun q => String.eqb (name q) (name p)) l.

(** [a or b] on lists *)
Definition list_or {A} (a b : list A) : list A :=
  match a with
  | [] => b
  | _ :: _ => a
  end.

(** The [try] block of [select]: the candidates after the load check. *)
Definition prefer_local (candidates : list ProviderDefinition)
  : M (list ProviderDefinition) :=
  high ← is_high_load (Config.high_load_threshold config);
  if high : bool then
    local ← get_local_providers;
    match local with
    | [] => mret candidates
    | _ :: _ =>
        logger high_load_local_preferred;;
        mret (list_or (List.filter (fun p => defn_in p local) candidates)
                      candidates)
    end
  else mret candidates.

(** The candidates that were not tried yet. *)
Definition untried (context : SelectionContext)
    (available : list ProviderDefinition) : list ProviderDefinition :=
  List.filter (fun p => negb (bool_decide (name p ∈ providers_tried context)))
              available.

(** The end of [select]: score the candidates, sort by falling score,
    return the first. *)
Definition choose (candidates : list ProviderDefinition)
  : M (option ProviderDefinition) :=
  scored ← _score_providers candidates;
  let scored := sort_by (fun y x => (snd x <? snd y)%float) scored in
  match scored with
  | [] => raise IndexError
  | (selected, score) :: _ =>
      logger (provider_selected (name selected) score (length candidates));;
      mret (Some selected)
  end.

(** [select] from its second [if not candidates] on. *)
Definition select_among (candidates : list ProviderDefinition)
  : M (option ProviderDefinition) :=
  match candidates with
  | [] => logger no_providers_available;; mret None
  | _ :: _ =>
      candidates ← try_except (prefer_local candidates)
                              (logger load_check_failed;; mret candidates);
      choose candidates
  end.

Definition select (context : SelectionContext) : M (option ProviderDefinition) :=
  available ← get_available_providers;
  candidates ←
    match untried context available with
    | [] => logger (all_providers_exhausted (providers_tried context));;
            mret available
    | c :: cs => mret (c :: cs)
    end;
  select_among candidates.

Definition report_result (provider_name : string) (success : bool)
    (is_rate_limit : bool) : M unit :=
  if success then ProviderRegistry.mark_success world provider_name
  else ProviderRegistry.mark_failure config world provider_name is_rate_limit.

End Selector.
End ProviderSelector.

(** ** MasonDaemon (bin/mason_daemon.py) *)

Inductive control : Type := Continue | Break | Return.

(** How a run of [_execute_task] ended: by [return] after a success, by
    reaching the [task_exhausted] statement below the loop, or not within
    the number of iterations allowed to the model. *)
Inductive outcome : Type := Succeeded | Exhausted | OutOfFuel.

Module MasonDaemon.

Definition provider_classes : list string := ["goose"; "claude_cli"; "ollama"]%string.

(** [_init_providers]: the names that received an adapter, with the
    adapter's class. *)
Definition _init_providers (_definitions : list ProviderDefinition)
  : gmap string string :=
  fold_left
    (fun providers defn =>
       if bool_decide (adapter defn ∈ provider_classes)
       then <[name defn := adapter defn]> providers
       else providers)
    (ProviderRegistry.get_enabled_providers _definitions) ∅.

Section Engine.

Variable config : Config.
Variable _definitions : list ProviderDefinition.
Variable _providers : gmap string string.
Variable world : World.

Abbreviation select := (ProviderSelector.select config _definitions world).
Abbreviation report_result := (ProviderSelector.report_result config world).

Definition get_context : M SelectionContext := fun s => (Ok (context s), s).

(** [context.providers_tried.append(n)] *)
Definition tried_append (n : string) : M unit :=
  c ← get_context;
  set_context {| ctx_task_id := ctx_task_id c; attempt := attempt c;
                 ctx_max_attempts := ctx_max_attempts c;
                 providers_tried := providers_tried c ++ [n];
                 last_failure_reason := last_failure_reason c;
                 is_retry := is_retry c |}.

(** [context.attempt += 1] *)
Definition incr_attempt : M unit :=
  c ← get_context;
  set_context {| ctx_task_id := ctx_task_id c; attempt := attempt c + 1;
                 ctx_max_attempts := ctx_max_attempts c;
                 providers_tried := providers_tried c;
                 last_failure_reason := last_failure_reason c;
                 is_retry := is_retry c |}.

(** What follows [provider.generate]: reporting and the dispatch on the
    status of the bundle. *)
Definition handle_result (n : string) (bundle : ArtifactBundle) : M control :=
  c ← external (complete_run world);
  match c with
  | Raise _ => logger complete_run_failed
  | Ok _ => mret tt
  end;;
  if String.eqb (execution_status bundle) "success" then
    report_result n true false;;
    logger (task_succeeded n);;
    mret Return
  else if String.eqb (execution_status bundle) "provider_failure" then
    report_result n false (is_rate_limit bundle);;
    tried_append n;;
    logger (provider_failure_failover n (is_rate_limit bundle));;
    mret Continue
  else
    report_result n false false;;
    tried_append n;;
    incr_attempt;;
    c ← get_context;
    logger (task_failed n (attempt c));;
    mret Continue.

(** One turn of the [while] loop. *)
Definition iteration (task_packet : option TaskPacket) : M control :=
  c ← get_context;
  provider_defn ← select c;
  match provider_defn with
  | None => logger no_provider_available;; mret Break
  | Some defn =>
      match _providers !! name defn with
      | None =>
          logger (provider_not_initialized (name defn));;
          tried_append (name defn);;
          mret Continue
      | Some _ =>
          r ← external (start_run world);
          match r with
          | Raise _ => logger start_run_failed;; mret Break
          | Ok run_id =>
              c ← get_context;
              logger (executing_task (name defn) (attempt c));;
              match task_packet with
              | None => logger no_task_packet_for_retry;; mret Break
              | Some packet =>
                  bundle ← external (generate world (name defn) packet);
                  record_invocation (name defn) bundle;;
                  handle_result (name defn) bundle
              end
          end
      end
  end.

Definition exhausted : M outcome :=
  c ← get_context;
  logger (task_exhausted (attempt c) (providers_tried c));;
  mret Exhausted.

(** The [while] loop and the statement below it; [fuel] bounds the number
    of iterations. *)
Fixpoint loop (fuel : nat) (task_packet : option TaskPacket) : M outcome :=
  c ← get_context;
  if attempt c <? ctx_max_attempts c then
    match fuel with
    | O => mret OutOfFuel
    | S fuel' =>
        ctl ← iteration task_packet;
        match ctl with
        | Continue => loop fuel' task_packet
        | Break => exhausted
        | Return => mret Succeeded
        end
    end
  else exhausted.

Definition _execute_task (fuel : nat) (context : SelectionContext)
    (task_packet : option TaskPacket) (is_retry : bool) : M outcome :=
  set_context context;;
  loop fuel task_packet.

End Engine.
End MasonDaemon.

(** * Vocabulary of the statements *)


(** The packet the decomposition loop emits in position [j], when [k]
    packets were created before the loop. *)
Definition nth_packet (config : Config) (src : PacketSource) (k : nat)
    (story : Story) (criteria : list pystr) (j : nat) : TaskPacket :=
  TaskCompiler._create_task_packet config src (k + j)%nat story
    (take 3 (drop (3 * j) criteria)) j.

(** The cooldown [mark_rate_limited] applies for its optional argument. *)
Definition cooldown_used (config : Config) (cooldown_seconds : option Z) : Z :=
  match cooldown_seconds with
  | Some c => if c =? 0 then Config.rate_limit_cooldown config else c
  | None => Config.rate_limit_cooldown config
  end.

Definition is_local (p : ProviderDefinition) : bool := String.eqb (type p) "local".

(** An operation that leaves the registry states, the context and the
    history of invocations as they are. *)
Definition quiet {A} (m : M A) : Prop :=
  forall s, _states (m s).2 = _states s /\
            context (m s).2 = context s /\
            invocations (m s).2 = invocations s.

(** The attempts one provider result consumes. *)
Definition consumed (b : ArtifactBundle) : Z :=
  if String.eqb (execution_status b) "success" then 0
  else if String.eqb (execution_status b) "provider_failure" then 0
  else 1.

Fixpoint attempts_consumed (l : list (string * ArtifactBundle)) : Z :=
  match l with
  | [] => 0
  | x :: l' => consumed x.2 + attempts_consumed l'
  end.

Definition count_status (st : string) (l : list (string * ArtifactBundle)) : nat :=
  length (List.filter (fun x => String.eqb (execution_status x.2) st) l).

(** Results whose status is none of the three documented ones. *)
Definition count_undocumented (l : list (string * ArtifactBundle)) : nat :=
  length (List.filter
            (fun x => negb (String.eqb (execution_status x.2) "success")
                      && negb (String.eqb (execution_status x.2) "provider_failure")
                      && negb (String.eqb (execution_status x.2) "failure")) l).

(** The provider [n] is known, available and not cooling down. *)
Definition ready (n : string) (s : Daemon) : Prop :=
  exists st, _states s !! n = Some st /\ available st = true /\
             rate_limited_until st = None.

(** ** Concrete configurations and worlds *)

Module Scenario.

(** An entry of providers.json. *)
Definition provider (n : string) (ty : string) (a : option string) (p : Z)
  : ProviderJson :=
  {| pj_name := n; pj_priority := Some p; pj_type := Some ty;
     pj_adapter := a; pj_rate_limit_strategy := None;
     pj_confidence_weight := None; pj_enabled := None |}.

Definition config_of (ps : list ProviderJson) : Config :=
  {| _config := ∅; _providers := ps |}.

Definition definitions (c : Config) : list ProviderDefinition :=
  (ProviderRegistry._load_providers c).1.

Definition adapters (c : Config) : gmap string string :=
  MasonDaemon._init_providers (definitions c).

Definition fresh_context (max : Z) (tried : list string) : SelectionContext :=
  {| ctx_task_id := lit "task"; attempt := 0; ctx_max_attempts := max;
     providers_tried := tried; last_failure_reason := None;
     is_retry := false |}.

(** The daemon right after construction. *)
Definition boot (c : Config) : Daemon :=
  {| _states := (ProviderRegistry._load_providers c).2;
     _cached_stats := ∅;
     context := fresh_context 0 [];
     invocations := []; log := []; tick := 0 |}.

Definition bundle (status : string) (rate_limit : bool) : ArtifactBundle :=
  {| execution_status := status; is_rate_limit := rate_limit |}.

(** One second per external call. *)
Definition steady_clock (t : nat) : datetime := Z.of_nat t * 1000000.

(** A world with a quiet QA service (load [active], no statistics, every
    call accepted) and adapters answering by [answer]. *)
Definition world_of (clock : nat -> datetime) (active : Z)
    (answer : string -> nat -> ArtifactBundle) : World :=
  {| datetime_now := clock;
     get_stats := fun _ => Ok {| total_active := active |};
     get_provider_stats := fun _ => Ok ∅;
     start_run := fun _ => Ok (Some (lit "run"));
     complete_run := fun _ => Ok tt;
     generate := fun n _ t => answer n t |}.

(** Every adapter answers [status]. *)
Definition always (status : string) (n : string) (t : nat) : ArtifactBundle :=
  bundle status false.

(** Provider A is rate limited, every other adapter answers [status]. *)
Definition a_rate_limited (status : string) (n : string) (t : nat)
  : ArtifactBundle :=
  if String.eqb n "A" then bundle "provider_failure" true else bundle status false.

(** A world in which runs can be started and every adapter answers
    [provider_failure] without a rate limit: the answer of the Ollama
    adapter when its client package is missing. *)
Definition world_provider_failure (clock : nat -> datetime)
    (stats : nat -> result QueueStats)
    (provider_stats : nat -> result (gmap string ProviderStats))
    (run_ids : nat -> option pystr) (completions : nat -> result unit) : World :=
  {| datetime_now := clock;
     get_stats := stats;
     get_provider_stats := provider_stats;
     start_run := fun t => Ok (run_ids t);
     complete_run := completions;
     generate := fun _ _ _ => bundle "provider_failure" false |}.

Definition packet_source : PacketSource :=
  {| uuid4 := fun k => lit "uuid-" ++ str_of_int (Z.of_nat k);
     utcnow_iso := fun _ => lit "2024-01-01T00:00:00.000000" |}.

Definition story (criteria : string) : Story :=
  {| story_id := 7; story_title := lit "T"; narrative := lit "As a user";
     acceptance_criteria := lit criteria; story_epic_id := None;
     story_priority := 0; story_est_points := Some 3 |}.

Definition packet : TaskPacket :=
  TaskCompiler._create_task_packet (config_of []) packet_source 0
    (story "works") [lit "works"] 0.

(** Two providers of the same kind, A ahead of B by priority. *)
Definition two_providers : Config :=
  config_of [provider "A" "cli" (Some "goose"%string) 1;
             provider "B" "cli" (Some "claude_cli"%string) 2].

(** An API provider ahead of a local one. *)
Definition api_and_local : Config :=
  config_of [provider "A" "api" (Some "claude_cli"%string) 1;
             provider "L" "local" (Some "ollama"%string) 2].

(** One enabled provider whose adapter name is none of the three classes
    [_init_providers] knows. *)
Definition unknown_adapter : Config :=
  config_of [provider "codex" "cli" None 1].

Definition only_ollama : Config :=
  config_of [provider "ollama" "local" None 1].

(** The definitions [_load_providers] makes of these entries. *)
Definition definition (n ty a : string) (p : Z) : ProviderDefinition :=
  {| name := n; priority := p; type := ty; adapter := a;
     rate_limit_strategy := "none"; confidence_weight := 1; enabled := true |}.

Definition provider_A : ProviderDefinition := definition "A" "cli" "goose" 1.
Definition provider_B : ProviderDefinition := definition "B" "cli" "claude_cli" 2.
Definition api_A : ProviderDefinition := definition "A" "api" "claude_cli" 1.
Definition local_L : ProviderDefinition := definition "L" "local" "ollama" 2.
Definition codex : ProviderDefinition := definition "codex" "cli" "codex" 1.
Definition ollama : ProviderDefinition := definition "ollama" "local" "ollama" 1.

(** A story without acceptance criteria. *)
Definition blank_story : Story := story "".

(** The packet of [packet], as the dictionary it is, in an empty store. *)
Definition stored : PyDict.loc * gmap PyDict.loc (gmap string PyDict.value) :=
  PyDict.store_packet packet ∅.

End Scenario.

(** * Further code of the registry, the selector and the engine *)

Module RegistryOps.

(** [ProviderRegistry.reset_cooldowns] *)
Definition reset_state (state : ProviderState) : ProviderState :=
  {| ps_name := ps_name state; available := available state;
     rate_limited_until := None;
     consecutive_failures := 0;
     last_success := last_success state;
     last_failure := last_failure state |}.

Definition reset_cooldowns : M unit :=
  s ← get_state;
  set_states (reset_state <$> _states s).

End RegistryOps.

(** The test [get_available_providers] makes on one definition, given a
    state for it: not cooling down at [now], and flagged available. *)
Definition eligible (states : gmap string ProviderState) (now : datetime)
    (d : ProviderDefinition) : bool :=
  match states !! name d with
  | None => false
  | Some st =>
      match rate_limited_until st with
      | Some t => negb (now <? t) && available st
      | None => available st
      end
  end.

(** Every definition has a state: what [_load_providers] establishes. *)
Definition states_cover (defs : list ProviderDefinition)
    (states : gmap string ProviderState) : Prop :=
  forall d, d ∈ defs -> is_Some (states !! name d).

(** The states [states'] hold the same providers as [states], each with the
    name and the [available] flag it had. *)
Definition same_providers (states states' : gmap string ProviderState) : Prop :=
  forall n,
    match states !! n, states' !! n with
    | Some st, Some st' => available st' = available st /\ ps_name st' = ps_name st
    | None, None => True
    | _, _ => False
    end.

(** The context after the loop consumed the results [new] and appended the
    names [added] to [providers_tried]. *)
Definition context_after (c : SelectionContext)
    (new : list (string * ArtifactBundle)) (added : list string)
  : SelectionContext :=
  {| ctx_task_id := ctx_task_id c;
     attempt := attempt c + attempts_consumed new;
     ctx_max_attempts := ctx_max_attempts c;
     providers_tried := providers_tried c ++ added;
     last_failure_reason := last_failure_reason c;
     is_retry := is_retry c |}.

(** An invocation that did not answer [success]. *)
Definition unsuccessful (x : string * ArtifactBundle) : bool :=
  negb (String.eqb (execution_status x.2) "success").

(** The entry of the providers document that decides about the name [n]:
    the last one with that name. *)
Definition entry_named (config : Config) (n : string) : option ProviderJson :=
  last (List.filter (fun p => String.eqb (pj_name p) n) (Config.providers config)).

(** ** Provider adapters (bin/lib/providers) *)

Definition SPACE : codepoint := 32%N.

(** [sep.join(l)] *)
Fixpoint join (sep : pystr) (l : list pystr) : pystr :=
  match l with
  | [] => []
  | x :: l' =>
      match l' with
      | [] => x
      | _ :: _ => x ++ sep ++ join sep l'
      end
  end.

(** [s.startswith(pre)] *)
Fixpoint startswith (pre s : pystr) : bool :=
  match pre, s with
  | [], _ => true
  | _ :: _, [] => false
  | a :: pre', b :: s' => N.eqb a b && startswith pre' s'
  end.

(** [pat in s] on strings *)
Fixpoint occurs_in (pat s : pystr) : bool :=
  startswith pat s ||
  match s with
  | [] => false
  | _ :: s' => occurs_in pat s'
  end.

(** The lines the three adapters write for the success criteria of a
    packet: [chr(10).join('- ' + c for c in success_criteria)]. *)
Definition bullet_list (criteria : list pystr) : pystr :=
  join [LF] (map (fun c => lit "- " ++ c) criteria).

(** What [_detect_modified_files] did. *)
Inductive listing : Type :=
  | Listed
  | ListingFailed (message : pystr).

(** What the [try] block of a command-line adapter's [generate] met: the
    command ran to its end (with the outcome the listing of the working
    directory has), it ran out of time, or something raised another
    exception, [message] being its [str]. *)
Inductive run_result : Type :=
  | Completed (returncode : Z) (stdout stderr : pystr) (files : listing)
  | TimeoutExpired
  | Failed (message : pystr).

Definition bundle_of (status : string) (rate_limit : bool) : ArtifactBundle :=
  {| execution_status := status; is_rate_limit := rate_limit |}.

Module GooseProvider.

Definition detect_rate_limit (error : pystr) : bool := false.

(** The [except Exception] branch of [generate]. *)
Definition on_exception (message : pystr) : ArtifactBundle :=
  if detect_rate_limit message then bundle_of "provider_failure" true
  else bundle_of "failure" false.

Definition generate (r : run_result) : ArtifactBundle :=
  match r with
  | Completed returncode stdout stderr files =>
      if returncode =? 0 then
        match files with
        | Listed => bundle_of "success" false
        | ListingFailed message => on_exception message
        end
      else bundle_of "failure" false
  | TimeoutExpired => bundle_of "failure" false
  | Failed message => on_exception message
  end.

End GooseProvider.

Module ClaudeCLIProvider.

Definition RATE_LIMIT_PATTERNS : list pystr :=
  [lit "rate limit"; lit "too many requests"; lit "quota exceeded";
   lit "429"; lit "overloaded"].

Section Adapter.

(** [str.lower], from Python's copy of the Unicode character database. *)
Variable lower : pystr -> pystr.
(** [self.patterns] *)
Variable patterns : list pystr.

Definition detect_rate_limit (error : pystr) : bool :=
  existsb (fun pattern => occurs_in pattern (lower error)) patterns.

Definition _is_rate_limited (output : pystr) : bool :=
  existsb (fun pattern => occurs_in pattern (lower output)) patterns.

(** The [except Exception] branch of [generate]. *)
Definition on_exception (message : pystr) : ArtifactBundle :=
  if detect_rate_limit message then bundle_of "provider_failure" true
  else bundle_of "failure" false.

Definition generate (r : run_result) : ArtifactBundle :=
  match r with
  | Completed returncode stdout stderr files =>
      if _is_rate_limited (stdout ++ stderr) then
        bundle_of "provider_failure" true
      else if returncode =? 0 then
        match files with
        | Listed => bundle_of "success" false
        | ListingFailed message => on_exception message
        end
      else bundle_of "failure" false
  | TimeoutExpired => bundle_of "failure" false
  | Failed message => on_exception message
  end.

End Adapter.

Definition _build_prompt (task_packet : TaskPacket) : pystr :=
  [LF] ++ lit "Task: " ++ title (goal task_packet) ++ [LF; LF]
  ++ description (goal task_packet) ++ [LF; LF]
  ++ lit "Success Criteria:" ++ [LF]
  ++ bullet_list (success_criteria (goal task_packet)) ++ [LF].

End ClaudeCLIProvider.

Module OllamaProvider.

(** What [client.generate] did. *)
Inductive call_result : Type :=
  | Answered
  | Raised (message : pystr).

Definition detect_rate_limit (error : pystr) : bool := false.

Definition generate (HAS_OLLAMA : bool) (r : call_result) : ArtifactBundle :=
  if negb HAS_OLLAMA then bundle_of "provider_failure" false
  else match r with
       | Answered => bundle_of "success" false
       | Raised message => bundle_of "failure" false
       end.

End OllamaProvider.

(** [str.lower] on ASCII text. *)
Definition ascii_lower (s : pystr) : pystr :=
  map (fun c => if ((65 <=? c) && (c <=? 90))%N then (c + 32)%N else c) s.

(** ** The daemon's cycle (bin/mason_daemon.py) *)

(** The context [_process_new_stories] makes for a packet it submitted. *)
Definition new_task_context (task_packet : TaskPacket) : SelectionContext :=
  {| ctx_task_id := task_id (identity task_packet);
     attempt := 0;
     ctx_max_attempts := max_attempts (execution task_packet);
     providers_tried := [];
     last_failure_reason := None;
     is_retry := false |}.

(** A criterion that begins like a numbered marker: a digit first and a
    full stop among the first three characters. *)
Definition numbered (isdigit : codepoint -> bool) (c : pystr) : bool :=
  match c with
  | [] => false
  | ch :: _ => isdigit ch && PyStr.contains FULL_STOP (take 3 c)
  end.

(** No white space at the first position of a string; none at the last. *)
Definition tight_head (isspace : codepoint -> bool) (s : pystr) : Prop :=
  forall c, head s = Some c -> isspace c = false.
Definition tight_last (isspace : codepoint -> bool) (s : pystr) : Prop :=
  forall c, last s = Some c -> isspace c = false.

(** ** Further configurations *)

Module Cases.

(** The two providers A and B, with a default cooldown of 10^12 seconds
    (some 31,700 years). *)
Definition long_cooldown : Config :=
  {| _config := {[ "provider_selection.rate_limit_cooldown"%string
                   := 1000000000000 ]};
     _providers := _providers Scenario.two_providers |}.

(** A clock that stands at the first of January 2026. *)
Definition frozen_clock (t : nat) : datetime := 63902822400000000.

(** One second per external call, from the first of January 2026 on. *)
Definition clock_2026 (t : nat) : datetime :=
  63902822400000000 + Z.of_nat t * 1000000.

(** One provider whose priority is 0. *)
Definition zero_priority : Config :=
  Scenario.config_of [Scenario.provider "Z" "cli" (Some "goose"%string) 0].

(** Two Goose providers. *)
Definition goose_pair : Config :=
  Scenario.config_of [Scenario.provider "A" "cli" (Some "goose"%string) 1;
                      Scenario.provider "B" "cli" (Some "goose"%string) 2].

(** A Goose command that ends with exit code 1, at every call. *)
Definition goose_exit_1 (n : string) (t : nat) : ArtifactBundle :=
  GooseProvider.generate (Completed 1 [] [] Listed).

(** The packet of the story "works" under the two-provider configuration. *)
Definition works_packet : TaskPacket :=
  TaskCompiler._create_task_packet Scenario.two_providers
    Scenario.packet_source 0 (Scenario.story "works") [lit "works"] 0.

End Cases.

(** * Properties *)

Ltac unfold_M :=
  unfold mbind, M_bind, mret, M_ret, get_state, external, set_states,
    set_cached_stats, set_context, record_invocation, logger, lift, raise,
    try_except in *.

(** ** TaskCompiler *)

Section CompilerFacts.

Variable isspace : codepoint -> bool.
Variable isdigit : codepoint -> bool.
Variable config : Config.
Variable src : PacketSource.

Abbreviation parse := (TaskCompiler._parse_acceptance_criteria isspace isdigit).
Abbreviation compile := (TaskCompiler.compile isspace isdigit config src).
Abbreviation packet := (TaskCompiler._create_task_packet config src).
Abbreviation cap := (Z.to_nat (TaskCompiler.max_tasks config)).

(** A separator among the first [n] characters makes [split(sep, 1)]
    return two parts, so that part [1] exists. *)
Lemma split1_two_parts sep (n : nat) (s : pystr) :
  PyStr.contains sep (take n s) = true ->
  exists w rest, PyStr.split1 sep s = [w; rest].
Proof.
  revert n. induction s as [|c s IH]; intros n H.
  - destruct n; discriminate.
  - destruct n as [|n]; [discriminate|].
    cbn [take PyStr.contains existsb] in H. cbn [PyStr.split1].
    rewrite N.eqb_sym in H.
    destruct (N.eqb c sep) eqn:E.
    + eauto.
    + cbn in H. destruct (IH n H) as (w & rest & ->). eauto.
Qed.

Lemma clean_line_returns line :
  returns (TaskCompiler.clean_line isspace isdigit line).
Proof.
  unfold TaskCompiler.clean_line.
  set (l1 := PyStr.strip isspace line).
  set (l2 := if PyStr.startswith_any l1 TaskCompiler.bullets
             then PyStr.strip isspace (drop 1 l1) else l1).
  destruct l2 as [|c l2'] eqn:E2; [by eexists|].
  destruct (isdigit c && PyStr.contains FULL_STOP (take 3 (c :: l2'))) eqn:E.
  - apply andb_true_iff in E as [_ E].
    destruct (split1_two_parts _ _ _ E) as (w & rest & ->).
    by eexists.
  - by eexists.
Qed.

Lemma parse_lines_returns lines acc :
  returns (TaskCompiler.parse_lines isspace isdigit lines acc).
Proof.
  revert acc. induction lines as [|l lines IH]; intros acc; cbn.
  - by eexists.
  - destruct (clean_line_returns l) as [l' ->]. cbn.
    destruct l'; apply IH.
Qed.

(** Parsing never raises. *)
Lemma parse_returns text : returns (parse text).
Proof.
  unfold TaskCompiler._parse_acceptance_criteria.
  destruct text; [by eexists | apply parse_lines_returns].
Qed.

  (** *** The decomposition loop in closed form *)

Lemma compile_loop_from k story criteria (d m : nat) :
  fold_left (TaskCompiler.compile_step config src k story criteria)
    (map (fun j => (3 * j)%nat) (seq m d))
    (map (nth_packet config src k story criteria) (seq 0 (m `min` cap)))
  = map (nth_packet config src k story criteria) (seq 0 ((m + d) `min` cap)).
Proof.
  revert m. induction d as [|d IH]; intros m.
  - cbn. by rewrite Nat.add_0_r.
  - cbn [seq map fold_left].
    replace (m + S d)%nat with (S m + d)%nat by lia.
    rewrite <- IH. f_equal.
    unfold TaskCompiler.compile_step.
    rewrite length_map, length_seq.
    destruct (Z.ltb_spec (Z.of_nat (m `min` cap)) (TaskCompiler.max_tasks config))
      as [Hlt|Hge].
    + assert (m < cap)%nat by lia.
      rewrite (Nat.min_l m) by lia. rewrite (Nat.min_l (S m)) by lia.
      rewrite seq_S, map_app. cbn [map Nat.add].
      unfold nth_packet at 3.
      replace (3 * m / 3)%nat with m
        by (symmetry; rewrite Nat.mul_comm; apply Nat.div_mul; lia).
      reflexivity.
    + assert (cap <= m)%nat by lia.
      rewrite (Nat.min_r m) by lia. rewrite (Nat.min_r (S m)) by lia.
      reflexivity.
Qed.

Lemma compile_loop_closed k story criteria :
  fold_left (TaskCompiler.compile_step config src k story criteria)
    (TaskCompiler.range3 (length criteria)) []
  = map (nth_packet config src k story criteria)
      (seq 0 (((length criteria + 2) / 3) `min` cap)).
Proof.
  unfold TaskCompiler.range3.
  exact (compile_loop_from k story criteria ((length criteria + 2) / 3) 0).
Qed.

  (** *** Groups of three *)




End CompilerFacts.

Section CompilerClaims.

Variable isspace : codepoint -> bool.
Variable isdigit : codepoint -> bool.
Variable config : Config.
Variable src : PacketSource.

Abbreviation parse := (TaskCompiler._parse_acceptance_criteria isspace isdigit).
Abbreviation compile := (TaskCompiler.compile isspace isdigit config src).
Abbreviation cap := (Z.to_nat (TaskCompiler.max_tasks config)).

(** What [compile] returns, in both branches. *)
Lemma compile_unfold k story criteria :
  parse (acceptance_criteria story) = Ok criteria ->
  compile k story =
    Ok (if (length criteria <=? 3)%nat
        then [TaskCompiler._create_task_packet config src k story criteria 0]
        else map (nth_packet config src k story criteria)
               (seq 0 (((length criteria + 2) / 3) `min` cap))).
Proof.
  intros Hp. unfold TaskCompiler.compile. rewrite Hp. cbn.
  destruct (length criteria <=? 3)%nat; [reflexivity|].
  by rewrite compile_loop_closed.
Qed.

(** C2 (as amended): parsing never raises, whatever the text; and a story
    whose acceptance criteria parse to no criterion at all compiles to
    exactly one packet, whose list of success criteria is empty and whose
    title is the story's. *)
Theorem parse_total_and_empty_criteria_one_packet (k : nat) (story : Story) :
  (forall text, returns (parse text)) /\
  (parse (acceptance_criteria story) = Ok [] ->
   exists p, compile k story = Ok [p] /\
             success_criteria (goal p) = [] /\
             title (goal p) = story_title story).
Proof.
  split; [apply parse_returns|].
  intros Hp. rewrite (compile_unfold k story [] Hp). cbn.
  eexists. split; [reflexivity|]. by split.
Qed.


End CompilerClaims.

(** ** enrich_for_retry *)

Section EnrichFacts.
Import PyDict.

Lemma fresh_loc_None (h : heap) : h !! fresh (dom h) = None.
Proof. apply not_elem_of_dom, is_fresh. Qed.

Lemma setitem_Some h obj d key v :
  h !! obj = Some d -> setitem obj key v h = <[obj := <[key := v]> d]> h.
Proof. intros H. unfold setitem. by rewrite H. Qed.

(** What [get_copy] returns on a packet, and that it only depends on the
    objects the packet refers to. *)
Lemma get_copy_packet h h' p d key :
  h !! p = Some d ->
  map_Forall (fun _ v => value_ok h v = true) d ->
  group_ok d key = true ->
  (forall l, is_Some (h !! l) -> h' !! l = h !! l) ->
  exists c, get_copy h' p key = Ok c /\
            forall k, field h p key k = c !! k.
Proof.
  intros Hp Hrefs Hg Hframe.
  unfold get_copy, field. rewrite (Hframe p) by (rewrite Hp; eauto).
  rewrite Hp. cbn. unfold group_ok in Hg.
  destruct (d !! key) as [v|] eqn:Hk; cbn.
  - destruct v; try discriminate.
    specialize (Hrefs key (VDict l) Hk). cbn in Hrefs.
    apply bool_decide_eq_true in Hrefs as [dl Hl].
    rewrite (Hframe l) by (rewrite Hl; eauto). rewrite Hl.
    eexists. split; [reflexivity|]. by intros k.
  - exists ∅. split; [reflexivity|]. intros k. by rewrite lookup_empty.
Qed.

(** C9: on a packet of the store, [enrich_for_retry(p, g, n)] returns a new
    object [e]; nothing that was in the store before the call has changed,
    so [p] and the groups it refers to keep their values, the old
    [retry_guidance] and [current_attempt] included; every group of [e]
    other than [inputs] and [execution] is the very entry of [p], with
    equal fields; the [inputs] of [e] equal those of [p] except that
    [retry_guidance] is [g]; the [execution] of [e] equals that of [p]
    except that [current_attempt] is [n]. *)
Theorem enrich_for_retry_copy (h : heap) (p : loc) (g : value) (n : Z) :
  packet_ok h p = true ->
  exists e h',
    enrich_for_retry p g n h = (Ok e, h') /\
    h !! e = None /\
    (forall l, is_Some (h !! l) -> h' !! l = h !! l) /\
    (forall grp, grp <> "inputs"%string -> grp <> "execution"%string ->
       (h' !! e ≫= (.!! grp)) = (h !! p ≫= (.!! grp)) /\
       forall k, field h' e grp k = field h p grp k) /\
    field h' e "inputs" "retry_guidance" = Some g /\
    (forall k, k <> "retry_guidance"%string ->
       field h' e "inputs" k = field h p "inputs" k) /\
    field h' e "execution" "current_attempt" = Some (VInt n) /\
    (forall k, k <> "current_attempt"%string ->
       field h' e "execution" k = field h p "execution" k).
Proof.
  unfold packet_ok. intros Hok.
  destruct (h !! p) as [d|] eqn:Hp; [|discriminate].
  apply andb_true_iff in Hok as [Hok Hge].
  apply andb_true_iff in Hok as [Hrefs Hgi].
  apply bool_decide_eq_true in Hrefs.
  unfold enrich_for_retry. rewrite Hp. cbn [alloc].
  set (e := fresh (dom h)).
  set (h1 := <[e := d]> h).
  assert (He : h !! e = None) by apply fresh_loc_None.
  assert (F1 : forall l, is_Some (h !! l) -> h1 !! l = h !! l).
  { intros l [x Hl]. subst h1. rewrite lookup_insert_ne; [done|]. congruence. }
  destruct (get_copy_packet h h1 p d "inputs" Hp Hrefs Hgi F1) as (ci & -> & Hci).
  set (li := fresh (dom h1)).
  assert (Hli1 : h1 !! li = None) by apply fresh_loc_None.
  assert (Hlie : li <> e).
  { intros E. rewrite E in Hli1. subst h1. by rewrite lookup_insert_eq in Hli1. }
  assert (Hli : h !! li = None).
  { subst h1. by rewrite lookup_insert_ne in Hli1. }
  set (h2 := <[li := ci]> h1).
  rewrite (setitem_Some h2 e d)
    by (subst h2 h1; rewrite lookup_insert_ne by done; apply lookup_insert_eq).
  set (h3 := <[e := <["inputs" := VDict li]> d]> h2).
  rewrite (setitem_Some h3 li ci)
    by (subst h3 h2; rewrite lookup_insert_ne by done; apply lookup_insert_eq).
  set (h4 := <[li := <["retry_guidance" := g]> ci]> h3).
  assert (F4 : forall l, is_Some (h !! l) -> h4 !! l = h !! l).
  { intros l [x Hl]. subst h4 h3 h2.
    rewrite !lookup_insert_ne by congruence. apply F1. eauto. }
  destruct (get_copy_packet h h4 p d "execution" Hp Hrefs Hge F4) as (ce & -> & Hce).
  set (le := fresh (dom h4)).
  assert (Hle4 : h4 !! le = None) by apply fresh_loc_None.
  assert (Hleli : le <> li).
  { intros E. rewrite E in Hle4. subst h4. by rewrite lookup_insert_eq in Hle4. }
  assert (Hlee : le <> e).
  { intros E. rewrite E in Hle4. subst h4 h3.
    rewrite lookup_insert_ne, lookup_insert_eq in Hle4 by done. done. }
  assert (Hle : h !! le = None).
  { subst h4 h3 h2 h1. by rewrite !lookup_insert_ne in Hle4 by done. }
  set (h5 := <[le := ce]> h4).
  rewrite (setitem_Some h5 e (<["inputs" := VDict li]> d))
    by (subst h5 h4 h3; rewrite !lookup_insert_ne by done; apply lookup_insert_eq).
  set (h6 := <[e := <["execution" := VDict le]> (<["inputs" := VDict li]> d)]> h5).
  rewrite (setitem_Some h6 le ce)
    by (subst h6 h5; rewrite lookup_insert_ne by done; apply lookup_insert_eq).
  set (h7 := <[le := <["current_attempt" := VInt n]> ce]> h6).
  assert (F7 : forall l, is_Some (h !! l) -> h7 !! l = h !! l).
  { intros l [x Hl]. subst h7 h6 h5.
    rewrite !lookup_insert_ne by congruence. apply F4. eauto. }
  assert (E7 : h7 !! e = Some (<["execution" := VDict le]> (<["inputs" := VDict li]> d))).
  { subst h7 h6. rewrite lookup_insert_ne by done. apply lookup_insert_eq. }
  assert (I7 : h7 !! li = Some (<["retry_guidance" := g]> ci)).
  { subst h7 h6 h5 h4. rewrite !lookup_insert_ne by done. apply lookup_insert_eq. }
  assert (X7 : h7 !! le = Some (<["current_attempt" := VInt n]> ce)).
  { subst h7. apply lookup_insert_eq. }
  exists e, h7. split; [reflexivity|]. split; [exact He|]. split; [exact F7|].
  split; [|split; [|split; [|split]]].
  - intros grp Hi Hx.
    assert (Top : (h7 !! e ≫= (.!! grp)) = d !! grp).
    { rewrite E7. cbn. by rewrite !lookup_insert_ne. }
    split; [exact Top|]. intros k. unfold field.
    rewrite Hp. rewrite E7 in *. cbn in *. rewrite Top.
    destruct (d !! grp) as [v|] eqn:Hv; [|done]. cbn.
    destruct v; try done.
    specialize (Hrefs grp (VDict l) Hv). cbn in Hrefs.
    apply bool_decide_eq_true in Hrefs. by rewrite F7.
  - unfold field. rewrite E7. cbn.
    rewrite lookup_insert_ne, lookup_insert_eq by done. cbn.
    rewrite I7. cbn. apply lookup_insert_eq.
  - intros k Hk. unfold field at 1. rewrite E7. cbn.
    rewrite lookup_insert_ne, lookup_insert_eq by done. cbn.
    rewrite I7. cbn. rewrite lookup_insert_ne by done. by rewrite Hci.
  - unfold field. rewrite E7. cbn.
    rewrite lookup_insert_eq. cbn.
    rewrite X7. cbn. apply lookup_insert_eq.
  - intros k Hk. unfold field at 1. rewrite E7. cbn.
    rewrite lookup_insert_eq. cbn.
    rewrite X7. cbn. rewrite lookup_insert_ne by done. by rewrite Hce.
Qed.
End EnrichFacts.

(** ** ProviderRegistry *)

Section RegistryFacts.

Variable config : Config.
Variable world : World.

Abbreviation mark_rate_limited := (ProviderRegistry.mark_rate_limited config world).
Abbreviation mark_failure := (ProviderRegistry.mark_failure config world).
Abbreviation mark_success := (ProviderRegistry.mark_success world).

Lemma mark_rate_limited_known n cooldown s st :
  _states s !! n = Some st ->
  mark_rate_limited n cooldown s =
    match datetime_add (datetime_now world (tick s))
                       (cooldown_used config cooldown) with
    | Ok until =>
        (Ok tt,
         {| _states := <[n :=
              {| ps_name := ps_name st; available := available st;
                 rate_limited_until := Some until;
                 consecutive_failures := consecutive_failures st + 1;
                 last_success := last_success st;
                 last_failure := last_failure st |}]> (_states s);
            _cached_stats := _cached_stats s; context := context s;
            invocations := invocations s; log := log s; tick := S (tick s) |})
    | Raise e => (Raise e, advance s)
    end.
Proof.
  intros H. unfold ProviderRegistry.mark_rate_limited. unfold_M. cbn.
  rewrite H. unfold cooldown_used.
  by destruct (datetime_add _ _).
Qed.

(** When the end of the cooldown is a date, it is the clock reading plus
    the cooldown. *)
Lemma datetime_add_Ok now seconds until :
  datetime_add now seconds = Ok until <->
  until = now + timedelta seconds /\ 0 <= until <= datetime_max.
Proof.
  unfold datetime_add. cbv zeta.
  destruct (Z.leb_spec 0 (now + timedelta seconds));
    destruct (Z.leb_spec (now + timedelta seconds) datetime_max); cbn;
    split; try (intros [= <-]; split; [done | lia]);
    try discriminate; intros [-> ?]; try done; lia.
Qed.

Lemma datetime_add_Raise now seconds e :
  datetime_add now seconds = Raise e ->
  e = OverflowError /\
  ~ (0 <= now + timedelta seconds <= datetime_max).
Proof.
  unfold datetime_add. cbv zeta.
  destruct (Z.leb_spec 0 (now + timedelta seconds));
    destruct (Z.leb_spec (now + timedelta seconds) datetime_max); cbn;
    try discriminate; intros [= <-]; split; try done; lia.
Qed.

Lemma mark_unknown n s :
  _states s !! n = None ->
  (forall c, mark_rate_limited n c s = (Ok tt, s)) /\
  (forall b, mark_failure n b s = (Ok tt, s)) /\
  mark_success n s = (Ok tt, s).
Proof.
  intros H. repeat split; intros;
    unfold ProviderRegistry.mark_rate_limited, ProviderRegistry.mark_failure,
      ProviderRegistry.mark_success; unfold_M; cbn; by rewrite H.
Qed.

(** [mark_failure] without a rate limit. *)
Lemma mark_failure_plain n s st :
  _states s !! n = Some st ->
  mark_failure n false s =
    (Ok tt,
     {| _states := <[n :=
          {| ps_name := ps_name st; available := available st;
             rate_limited_until := rate_limited_until st;
             consecutive_failures := consecutive_failures st + 1;
             last_success := last_success st;
             last_failure := Some (datetime_now world (tick s)) |}]> (_states s);
        _cached_stats := _cached_stats s; context := context s;
        invocations := invocations s; log := log s; tick := S (tick s) |}).
Proof.
  intros H. unfold ProviderRegistry.mark_failure. unfold_M. cbn.
  by rewrite H.
Qed.

(** [mark_failure] with a rate limit: the failure is recorded, then the
    cooldown is applied from a second reading of the clock; when its end is
    not a date, the error leaves the recorded failure behind. *)
Lemma mark_failure_rate_limited n s st :
  _states s !! n = Some st ->
  mark_failure n true s =
    match datetime_add (datetime_now world (S (tick s)))
                       (Config.rate_limit_cooldown config) with
    | Ok until =>
        (Ok tt,
         {| _states := <[n :=
              {| ps_name := ps_name st; available := available st;
                 rate_limited_until := Some until;
                 consecutive_failures := consecutive_failures st + 1 + 1;
                 last_success := last_success st;
                 last_failure := Some (datetime_now world (tick s)) |}]>
              (_states s);
            _cached_stats := _cached_stats s; context := context s;
            invocations := invocations s; log := log s;
            tick := S (S (tick s)) |})
    | Raise e =>
        (Raise e,
         {| _states := <[n :=
              {| ps_name := ps_name st; available := available st;
                 rate_limited_until := rate_limited_until st;
                 consecutive_failures := consecutive_failures st + 1;
                 last_success := last_success st;
                 last_failure := Some (datetime_now world (tick s)) |}]>
              (_states s);
            _cached_stats := _cached_stats s; context := context s;
            invocations := invocations s; log := log s;
            tick := S (S (tick s)) |})
    end.
Proof.
  intros H. unfold ProviderRegistry.mark_failure. unfold_M. cbn.
  rewrite H.
  rewrite (mark_rate_limited_known n None _ _ (lookup_insert_eq _ _ _)). cbn.
  destruct (datetime_add _ _); cbn; [by rewrite insert_insert_eq | reflexivity].
Qed.

(** The marking operations never drop the state of a provider, so the
    availability scan of a registry built by [_load_providers] keeps finding
    a state for every definition. *)
Lemma marks_keep_names n m (b : bool) (c : option Z) s :
  is_Some (_states s !! m) ->
  is_Some (_states (mark_success n s).2 !! m) /\
  is_Some (_states (mark_failure n b s).2 !! m) /\
  is_Some (_states (mark_rate_limited n c s).2 !! m).
Proof.
  intros Hm. destruct (_states s !! n) as [st|] eqn:E.
  - rewrite (mark_rate_limited_known n c s st E).
    assert (Hf : is_Some (_states (mark_failure n b s).2 !! m)).
    { destruct b.
      - rewrite (mark_failure_rate_limited n s st E).
        destruct (datetime_add _ _); cbn;
          (destruct (decide (n = m)) as [->|Hne];
           [rewrite lookup_insert_eq; eauto | by rewrite lookup_insert_ne]).
      - rewrite (mark_failure_plain n s st E). cbn.
        destruct (decide (n = m)) as [->|Hne];
          [rewrite lookup_insert_eq; eauto | by rewrite lookup_insert_ne]. }
    unfold ProviderRegistry.mark_success. unfold_M. cbn. rewrite E. cbn.
    destruct (datetime_add _ _); cbn;
      (destruct (decide (n = m)) as [->|Hne];
       [rewrite ?lookup_insert_eq; eauto | by rewrite ?lookup_insert_ne]).
  - destruct (mark_unknown n s E) as (Hr & Hf & Hs).
    by rewrite Hr, Hf, Hs.
Qed.

(** C10 (as amended): for a known name,
    [mark_rate_limited(name, cooldown_seconds=0)] is the call without a
    cooldown, the 0 being taken for an absent argument. When the clock
    reading plus the configured default cooldown is a date (of the years 1
    to 9999), the call sets [rate_limited_until] to it, which differs from
    the reading plus zero seconds unless the default is itself zero. When it
    is not, the call raises [OverflowError] and leaves every provider state
    as it was. *)
Theorem mark_rate_limited_zero_is_default n s st :
  _states s !! n = Some st ->
  mark_rate_limited n (Some 0) s = mark_rate_limited n None s /\
  (forall until,
     datetime_add (datetime_now world (tick s))
                  (Config.rate_limit_cooldown config) = Ok until ->
     exists s',
       mark_rate_limited n (Some 0) s = (Ok tt, s') /\
       (_states s' !! n ≫= rate_limited_until) =
         Some (datetime_now world (tick s)
               + timedelta (Config.rate_limit_cooldown config)) /\
       (Config.rate_limit_cooldown config <> 0 ->
        (_states s' !! n ≫= rate_limited_until) <>
          Some (datetime_now world (tick s) + timedelta 0))) /\
  (forall e,
     datetime_add (datetime_now world (tick s))
                  (Config.rate_limit_cooldown config) = Raise e ->
     exists s',
       mark_rate_limited n (Some 0) s = (Raise OverflowError, s') /\
       _states s' = _states s).
Proof.
  intros H. rewrite !(mark_rate_limited_known n _ s st H). cbn [cooldown_used].
  change (0 =? 0) with true. cbv iota.
  split; [reflexivity|]. split.
  - intros t Hu. rewrite Hu. apply datetime_add_Ok in Hu as [-> _].
    eexists. split; [reflexivity|]. cbn. rewrite lookup_insert_eq. cbn.
    split; [reflexivity|].
    intros Hc E. injection E as E. unfold timedelta in E. lia.
  - intros e He. rewrite He. apply datetime_add_Raise in He as [-> _].
    eexists. split; reflexivity.
Qed.

End RegistryFacts.

(** ** Sorting *)

Lemma insert_by_perm {A} (lt : A -> A -> bool) x l : insert_by lt x l ≡ₚ x :: l.
Proof.
  induction l as [|y l IH]; cbn; [done|].
  destruct (lt y x); [|done].
  rewrite IH. apply Permutation_swap.
Qed.

Lemma sort_by_perm {A} (lt : A -> A -> bool) l : sort_by lt l ≡ₚ l.
Proof.
  induction l as [|x l IH]; cbn; [done|].
  unfold sort_by in *. cbn. by rewrite insert_by_perm, IH.
Qed.

Lemma elem_of_sort_by {A} (lt : A -> A -> bool) l x : x ∈ sort_by lt l <-> x ∈ l.
Proof. by rewrite sort_by_perm. Qed.

Lemma sort_by_singleton {A} (lt : A -> A -> bool) x : sort_by lt [x] = [x].
Proof. reflexivity. Qed.

(** ** Availability *)

Section AvailableFacts.
Variable _definitions : list ProviderDefinition.

Lemma elem_of_enabled p :
  p ∈ ProviderRegistry.get_enabled_providers _definitions ->
  p ∈ _definitions /\ enabled p = true.
Proof.
  unfold ProviderRegistry.get_enabled_providers.
  rewrite elem_of_sort_by. rewrite list_elem_of_In, filter_In, <- list_elem_of_In.
  done.
Qed.

Lemma available_among_sub states now defns avail p :
  ProviderRegistry.available_among states now defns = Ok avail ->
  p ∈ avail -> p ∈ defns.
Proof.
  revert avail. induction defns as [|d defns IH]; intros avail; cbn.
  - intros [= <-]. by intros ?%elem_of_nil.
  - destruct (states !! name d) as [st|]; [|discriminate].
    destruct (ProviderRegistry.available_among states now defns) as [rest|e];
      [|discriminate]. cbn.
    intros H Hp.
    assert (Hc : avail = rest \/ avail = d :: rest).
    { destruct (rate_limited_until st) as [t|];
        [destruct (now <? t)|]; try destruct (available st);
        injection H as <-; auto. }
    destruct Hc as [->| ->].
    + right. by apply (IH rest).
    + apply elem_of_cons in Hp as [->|Hp]; [left | right; by apply (IH rest)].
Qed.

Lemma available_at_sub states now avail p :
  ProviderRegistry.available_at _definitions states now = Ok avail ->
  p ∈ avail -> p ∈ _definitions.
Proof.
  intros H Hp. eapply available_among_sub in H; [|exact Hp].
  by apply elem_of_enabled in H as [? _].
Qed.

Lemma available_among_returns states now defns :
  (forall d, d ∈ defns -> is_Some (states !! name d)) ->
  returns (ProviderRegistry.available_among states now defns).
Proof.
  induction defns as [|d defns IH]; intros H; cbn; [by eexists|].
  destruct (H d) as [st ->]; [left|].
  destruct IH as [rest ->]; [intros; apply H; by right|]. cbn.
  destruct (rate_limited_until st) as [t|];
    [destruct (now <? t)|]; try destruct (available st); by eexists.
Qed.

(** With a state for every definition the availability scan cannot raise. *)
Lemma available_at_returns states now :
  (forall d, d ∈ _definitions -> is_Some (states !! name d)) ->
  returns (ProviderRegistry.available_at _definitions states now).
Proof.
  intros H. apply available_among_returns.
  intros d Hd. apply H. by apply elem_of_enabled in Hd as [? _].
Qed.

Lemma same_name_same_definition p q :
  NoDup (map name _definitions) ->
  p ∈ _definitions -> q ∈ _definitions -> name p = name q -> p = q.
Proof.
  induction _definitions as [|d l IH]; cbn; intros Hnd Hp Hq E.
  - by apply elem_of_nil in Hp.
  - apply NoDup_cons in Hnd as [Hd Hnd].
    apply elem_of_cons in Hp as [->|Hp]; apply elem_of_cons in Hq as [->|Hq].
    + done.
    + exfalso. apply Hd. rewrite E. by apply list_elem_of_fmap_2.
    + exfalso. apply Hd. rewrite <- E. by apply list_elem_of_fmap_2.
    + by apply IH.
Qed.
End AvailableFacts.

(** [_load_providers] leaves distinct names, each with a state. *)
Lemma dict_set_names defn d :
  NoDup (map name d) ->
  NoDup (map name (ProviderRegistry.dict_set defn d)) /\
  (forall n, n ∈ map name (ProviderRegistry.dict_set defn d) <->
             n = name defn \/ n ∈ map name d).
Proof.
  induction d as [|q d IH]; cbn; intros Hnd.
  - split; [apply NoDup_singleton|]. intros n. rewrite list_elem_of_singleton.
    rewrite elem_of_nil. tauto.
  - apply NoDup_cons in Hnd as [Hq Hnd].
    destruct (String.eqb_spec (name q) (name defn)) as [E|E]; cbn.
    + rewrite <- E. split; [by apply NoDup_cons|].
      intros n. rewrite !elem_of_cons. tauto.
    + destruct (IH Hnd) as [IH1 IH2]. split.
      * apply NoDup_cons. split; [|done]. rewrite IH2. intros [?|?]; congruence.
      * intros n. rewrite !elem_of_cons, IH2. tauto.
Qed.

Lemma _load_providers_wf config :
  let '(defs, states) := ProviderRegistry._load_providers config in
  NoDup (map name defs) /\
  (forall d, d ∈ defs -> is_Some (states !! name d)).
Proof.
  unfold ProviderRegistry._load_providers.
  assert (G : forall l defs (states : gmap string ProviderState),
    NoDup (map name defs) ->
    (forall n, n ∈ map name defs -> is_Some (states !! n)) ->
    let '(defs', states') :=
      fold_left
        (fun '(defs, states) p =>
           let defn := ProviderRegistry.definition_of p in
           (ProviderRegistry.dict_set defn defs,
            <[name defn := ProviderRegistry.initial_state (name defn)]> states))
        l (defs, states) in
    NoDup (map name defs') /\
    (forall n, n ∈ map name defs' -> is_Some (states' !! n))).
  { induction l as [|p l IH]; intros defs states Hnd Hst; cbn; [done|].
    apply IH.
    - by apply dict_set_names.
    - intros n Hn. apply (dict_set_names _ _ Hnd) in Hn.
      destruct (decide (n = pj_name p)) as [->|Hne].
      + cbn. rewrite lookup_insert_eq. eauto.
      + cbn. rewrite lookup_insert_ne by done. destruct Hn as [?|?]; [done|]. auto. }
  specialize (G (Config.providers config) [] ∅).
  destruct (fold_left _ _ _) as [defs states].
  destruct G as [G1 G2]; [constructor | by intros n ?%elem_of_nil |].
  split; [done|]. intros d Hd. apply G2. by apply list_elem_of_fmap_2.
Qed.

(** ** Operations that leave the registry states, the context and the
    invocation history alone *)

Lemma quiet_ret {A} (a : A) : quiet (mret a).
Proof. by intros s. Qed.

Lemma quiet_bind {A B} (m : M A) (f : A -> M B) :
  quiet m -> (forall a, quiet (f a)) -> quiet (m ≫= f).
Proof.
  intros Hm Hf s. unfold mbind, M_bind.
  specialize (Hm s). destruct (m s) as [[a|e] s1]; cbn in *.
  - specialize (Hf a s1). destruct Hf as (-> & -> & ->). done.
  - done.
Qed.

Lemma quiet_try_except {A} (m h : M A) : quiet m -> quiet h -> quiet (try_except m h).
Proof.
  intros Hm Hh s. unfold try_except.
  specialize (Hm s). destruct (m s) as [[a|e] s1]; cbn in *; [done|].
  specialize (Hh s1). destruct Hh as (-> & -> & ->). done.
Qed.

Lemma quiet_logger e : quiet (logger e).
Proof. by intros s. Qed.
Lemma quiet_external {A} (o : nat -> A) : quiet (external o).
Proof. by intros s. Qed.
Lemma quiet_lift {A} (r : result A) : quiet (lift r).
Proof. by intros s. Qed.
Lemma quiet_raise {A} e : quiet (@raise A e).
Proof. by intros s. Qed.
Lemma quiet_get_state : quiet get_state.
Proof. by intros s. Qed.
Lemma quiet_set_cached_stats cs : quiet (set_cached_stats cs).
Proof. by intros s. Qed.

Create HintDb quietdb.
#[global] Hint Resolve quiet_ret quiet_logger quiet_external quiet_lift
  quiet_raise quiet_get_state quiet_set_cached_stats : quietdb.

Ltac quiet_step :=
  first
    [ solve [auto 1 with quietdb]
    | simple apply @quiet_bind; [|intros ?]
    | simple apply @quiet_try_except
    | progress cbv zeta
    | match goal with
      | |- quiet (match ?x with _ => _ end) => destruct x
      end ].
Ltac quiet := repeat quiet_step.

Section SelectorFacts.

Variable config : Config.
Variable _definitions : list ProviderDefinition.
Variable world : World.

Abbreviation available_at := (ProviderRegistry.available_at _definitions).
Abbreviation get_available_providers :=
  (ProviderRegistry.get_available_providers _definitions world).
Abbreviation get_local_providers :=
  (ProviderRegistry.get_local_providers _definitions world).
Abbreviation prefer_local := (ProviderSelector.prefer_local config _definitions world).
Abbreviation choose := (ProviderSelector.choose world).
Abbreviation select_among := (ProviderSelector.select_among config _definitions world).
Abbreviation select := (ProviderSelector.select config _definitions world).
Abbreviation untried := ProviderSelector.untried.
Abbreviation defn_in := ProviderSelector.defn_in.
Abbreviation list_or := ProviderSelector.list_or.

Lemma quiet_get_available_providers : quiet get_available_providers.
Proof. unfold ProviderRegistry.get_available_providers. quiet. Qed.

Lemma quiet_prefer_local C : quiet (prefer_local C).
Proof.
  unfold ProviderSelector.prefer_local, ProviderSelector.is_high_load,
    ProviderRegistry.get_local_providers, ProviderRegistry.get_available_providers.
  quiet.
Qed.

Lemma quiet_choose C : quiet (choose C).
Proof.
  unfold ProviderSelector.choose, ProviderSelector._score_providers,
    ProviderSelector._refresh_stats.
  quiet.
Qed.

#[local] Hint Resolve quiet_get_available_providers quiet_prefer_local
  quiet_choose : quietdb.

Lemma quiet_select_among C : quiet (select_among C).
Proof. unfold ProviderSelector.select_among. quiet. Qed.

#[local] Hint Resolve quiet_select_among : quietdb.

Lemma quiet_select ctx : quiet (select ctx).
Proof. unfold ProviderSelector.select. quiet. Qed.

Lemma get_available_providers_eq s :
  get_available_providers s =
    (available_at (_states s) (datetime_now world (tick s)), advance s).
Proof. reflexivity. Qed.

  (** *** Scoring and choosing *)

Lemma score_loop_fst cached ps scored :
  ProviderSelector.score_loop cached ps = Ok scored -> map fst scored = ps.
Proof.
  revert scored. induction ps as [|p ps IH]; intros scored; cbn.
  - by intros [= <-].
  - destruct (float_div_int 1 (priority p)); [|discriminate]. cbn.
    destruct (ProviderSelector.score_loop cached ps); [|discriminate]. cbn.
    intros [= <-]. cbn. f_equal. by apply IH.
Qed.

Lemma score_loop_returns cached ps :
  (forall p, p ∈ ps -> returns (float_div_int 1 (priority p))) ->
  returns (ProviderSelector.score_loop cached ps).
Proof.
  induction ps as [|p ps IH]; intros H; cbn; [by eexists|].
  destruct (H p) as [f ->]; [left|]. cbn.
  destruct IH as [rest ->]; [intros; apply H; by right|]. by eexists.
Qed.

Lemma choose_member C s r s' :
  choose C s = (r, s') ->
  r <> Ok None /\ (forall p, r = Ok (Some p) -> p ∈ C).
Proof.
  unfold ProviderSelector.choose, mbind, M_bind.
  destruct (ProviderSelector._score_providers world C s) as [[scored|e] s1] eqn:E.
  - assert (Hfst : map fst scored = C).
    { revert E. unfold ProviderSelector._score_providers. unfold_M.
      destruct (ProviderSelector._refresh_stats world s) as [[[]|?] ?];
        [|discriminate].
      intros [= E _]. by apply score_loop_fst in E. }
    cbv zeta.
    destruct (sort_by _ scored) as [|[sel sc] rest] eqn:Es.
    + intros [= <- _]. split; [done|]. intros p. discriminate.
    + unfold_M. intros [= <- _]. split; [done|]. intros p [= <-].
      rewrite <- Hfst.
      apply (list_elem_of_fmap_2' fst _ (sel, sc)); [|done].
      rewrite <- (elem_of_sort_by (fun y x => (snd x <? snd y)%float)).
      rewrite Es. left.
  - intros [= <- _]. split; [done|]. intros p. discriminate.
Qed.

(** [choose] returns a provider whenever every score can be computed. *)
Lemma choose_returns C s :
  C <> [] ->
  (forall p, p ∈ C -> returns (float_div_int 1 (priority p))) ->
  exists p s', choose C s = (Ok (Some p), s').
Proof.
  intros Hne Hsc.
  unfold ProviderSelector.choose, ProviderSelector._score_providers. unfold_M.
  destruct (ProviderSelector._refresh_stats world s) as [[[]|?] s1] eqn:Er.
  - destruct (score_loop_returns (_cached_stats s1) C Hsc) as [scored Hs].
    rewrite Hs.
    destruct (sort_by _ scored) as [|[sel sc] rest] eqn:Es.
    + exfalso. apply Hne. apply score_loop_fst in Hs. rewrite <- Hs.
      assert (scored = []) as ->; [|done].
      apply Permutation_nil_r. rewrite <- Es. symmetry. apply sort_by_perm.
    + eauto.
  - exfalso. revert Er. unfold ProviderSelector._refresh_stats. unfold_M.
    destruct (get_provider_stats world (tick s)); discriminate.
Qed.

  (** *** The load check *)

Lemma list_or_filter_sub (f : ProviderDefinition -> bool) C :
  (forall p, p ∈ list_or (List.filter f C) C -> p ∈ C) /\
  (C <> [] -> list_or (List.filter f C) C <> []).
Proof.
  unfold ProviderSelector.list_or.
  destruct (List.filter f C) as [|x l] eqn:E; [done|].
  split; [|done]. intros p Hp. rewrite <- E in Hp.
  apply list_elem_of_In, filter_In in Hp as [Hp _]. by apply list_elem_of_In.
Qed.

(** Whatever the load check answers, the candidates that leave the [try]
    block are candidates that entered it, and some are left. *)
Lemma prefer_local_sub C s r s' :
  try_except (prefer_local C) (logger load_check_failed;; mret C) s = (r, s') ->
  exists C', r = Ok C' /\ (forall p, p ∈ C' -> p ∈ C) /\ (C <> [] -> C' <> []).
Proof.
  unfold ProviderSelector.prefer_local, ProviderSelector.is_high_load,
    ProviderRegistry.get_local_providers, ProviderRegistry.get_available_providers.
  unfold_M. cbn.
  destruct (get_stats world (tick s)) as [stats|e]; cbn;
    [|intros [= <- _]; by exists C].
  destruct (Config.high_load_threshold config <? total_active stats); cbn;
    [|intros [= <- _]; by exists C].
  destruct (ProviderRegistry.available_at _ _ _) as [avail2|e]; cbn;
    [|intros [= <- _]; by exists C].
  destruct (List.filter _ avail2) as [|l0 local]; cbn;
    [intros [= <- _]; by exists C|].
  intros [= <- _]. eexists. split; [reflexivity|]. apply list_or_filter_sub.
Qed.

Lemma filter_defn_in_nil C : List.filter (fun p => defn_in p []) C = [].
Proof. by induction C. Qed.

(** Under high load the candidates are cut down to the available local
    providers, unless none of them is local. *)
Lemma prefer_local_high C s stats avail2 :
  get_stats world (tick s) = Ok stats ->
  Config.high_load_threshold config < total_active stats ->
  available_at (_states s) (datetime_now world (S (tick s))) = Ok avail2 ->
  exists s2,
    try_except (prefer_local C) (logger load_check_failed;; mret C) s =
      (Ok (list_or (List.filter (fun p => defn_in p (List.filter is_local avail2)) C) C),
       s2).
Proof.
  intros Hs Hhigh Ha.
  unfold ProviderSelector.prefer_local, ProviderSelector.is_high_load,
    ProviderRegistry.get_local_providers, ProviderRegistry.get_available_providers.
  unfold_M. cbn. rewrite Hs. cbn.
  apply Z.ltb_lt in Hhigh. rewrite Hhigh. cbn. rewrite Ha. cbn.
  fold is_local.
  destruct (List.filter is_local avail2) as [|l0 local] eqn:El.
  - rewrite filter_defn_in_nil. cbn. eauto.
  - cbn. eauto.
Qed.

Lemma select_among_high C s stats avail2 :
  C <> [] ->
  get_stats world (tick s) = Ok stats ->
  Config.high_load_threshold config < total_active stats ->
  available_at (_states s) (datetime_now world (S (tick s))) = Ok avail2 ->
  exists s2,
    select_among C s =
      choose (list_or (List.filter (fun p => defn_in p (List.filter is_local avail2)) C) C)
        s2.
Proof.
  intros HC Hs Hhigh Ha.
  destruct (prefer_local_high C s stats avail2 Hs Hhigh Ha) as [s2 E].
  exists s2. unfold ProviderSelector.select_among.
  destruct C as [|c C']; [done|].
  unfold mbind, M_bind in *. by rewrite E.
Qed.

Lemma select_eq ctx s available :
  available_at (_states s) (datetime_now world (tick s)) = Ok available ->
  select ctx s =
    select_among (list_or (untried ctx available) available)
      (match untried ctx available with
       | [] => logged (all_providers_exhausted (providers_tried ctx)) (advance s)
       | _ :: _ => advance s
       end).
Proof.
  intros H. unfold ProviderSelector.select. unfold_M.
  fold get_available_providers. rewrite get_available_providers_eq, H.
  by destruct (untried ctx available).
Qed.

Lemma select_among_member C s r s' :
  select_among C s = (r, s') ->
  (r = Ok None <-> C = []) /\ (forall p, r = Ok (Some p) -> p ∈ C).
Proof.
  unfold ProviderSelector.select_among. destruct C as [|c C].
  - unfold_M. intros [= <- _]. split; [done|]. intros p. discriminate.
  - unfold mbind, M_bind.
    destruct (try_except _ _ s) as [r1 s1] eqn:E1.
    apply prefer_local_sub in E1 as (C' & -> & Hsub & Hne).
    intros Hc. apply choose_member in Hc as [Hnone Hin].
    split; [split; [done | discriminate]|].
    intros p Hp. apply Hsub, Hin, Hp.
Qed.

Lemma select_among_returns C s :
  C <> [] ->
  (forall p, p ∈ C -> returns (float_div_int 1 (priority p))) ->
  exists p s', select_among C s = (Ok (Some p), s').
Proof.
  intros Hne Hsc. unfold ProviderSelector.select_among.
  destruct C as [|c C]; [done|]. unfold mbind, M_bind.
  destruct (try_except _ _ s) as [r1 s1] eqn:E1.
  apply prefer_local_sub in E1 as (C' & -> & Hsub & Hne').
  apply choose_returns; [by apply Hne'|]. intros p Hp. apply Hsc, Hsub, Hp.
Qed.

Lemma untried_spec ctx available p :
  p ∈ untried ctx available <-> p ∈ available /\ name p ∉ providers_tried ctx.
Proof.
  unfold ProviderSelector.untried.
  rewrite list_elem_of_In, filter_In, <- list_elem_of_In, negb_true_iff,
    bool_decide_eq_false. tauto.
Qed.

Lemma untried_nil ctx available :
  untried ctx available = [] <->
  forall q, q ∈ available -> name q ∈ providers_tried ctx.
Proof.
  split.
  - intros E q Hq. destruct (decide (name q ∈ providers_tried ctx)); [done|].
    assert (Hin : q ∈ untried ctx available) by (by apply untried_spec).
    rewrite E in Hin. by apply elem_of_nil in Hin.
  - intros H. apply elem_of_nil_inv. intros p Hp%untried_spec.
    destruct Hp as [Hp Hn]. by apply Hn, H.
Qed.

Lemma select_member ctx s available p s' :
  available_at (_states s) (datetime_now world (tick s)) = Ok available ->
  select ctx s = (Ok (Some p), s') ->
  p ∈ available.
Proof.
  intros Ha Hs. rewrite (select_eq ctx s available Ha) in Hs.
  apply select_among_member in Hs as [_ Hs]. specialize (Hs p eq_refl).
  unfold ProviderSelector.list_or in Hs.
  destruct (untried ctx available) as [|c cs] eqn:E; [done|].
  rewrite <- E in Hs. by apply untried_spec in Hs as [? _].
Qed.

(** [select] returns a provider whenever one is available and every score
    can be computed. *)
Lemma select_returns ctx s available :
  available_at (_states s) (datetime_now world (tick s)) = Ok available ->
  available <> [] ->
  (forall p, p ∈ available -> returns (float_div_int 1 (priority p))) ->
  exists p s', select ctx s = (Ok (Some p), s').
Proof.
  intros Ha Hne Hsc. rewrite (select_eq ctx s available Ha).
  apply select_among_returns.
  - destruct (untried ctx available); [done | discriminate].
  - intros p Hp. apply Hsc.
    destruct (untried ctx available) as [|c cs] eqn:E; cbn in Hp; [done|].
    rewrite <- E in Hp. by apply untried_spec in Hp as [? _].
Qed.

(** C5: let [available] be the providers available when [select] reads the
    clock. If one of them is not in [providers_tried], [select] chooses
    among the untried ones only, and the provider it returns is untried and
    available, whatever the load check does to the candidates. If all of
    them were tried, [select] logs it and chooses among the full list. It
    returns [None] exactly when no provider is available, and it does
    return a provider when one is available and the scores can be computed
    (no priority is zero or beyond the range of a float). *)
Theorem select_excludes_tried ctx s available :
  available_at (_states s) (datetime_now world (tick s)) = Ok available ->
  ((exists q, q ∈ available /\ name q ∉ providers_tried ctx) ->
     select ctx s = select_among (untried ctx available) (advance s) /\
     forall p s', select ctx s = (Ok (Some p), s') ->
                  (name p ∉ providers_tried ctx) /\ p ∈ available) /\
  ((forall q, q ∈ available -> name q ∈ providers_tried ctx) ->
     select ctx s =
       select_among available
         (logged (all_providers_exhausted (providers_tried ctx)) (advance s)) /\
     forall p s', select ctx s = (Ok (Some p), s') -> p ∈ available) /\
  (forall r s', select ctx s = (r, s') -> (r = Ok None <-> available = [])) /\
  (available <> [] ->
   (forall p, p ∈ available -> returns (float_div_int 1 (priority p))) ->
   exists p s', select ctx s = (Ok (Some p), s')).
Proof.
  intros Ha. rewrite (select_eq ctx s available Ha).
  split; [|split; [|split]].
  - intros (q & Hq & Hn).
    assert (Hin : q ∈ untried ctx available) by (by apply untried_spec).
    destruct (untried ctx available) as [|c cs] eqn:E;
      [by apply elem_of_nil in Hin|].
    split; [reflexivity|]. intros p s' Hsel.
    apply select_among_member in Hsel as [_ Hsel].
    specialize (Hsel p eq_refl). cbn in Hsel. rewrite <- E in Hsel.
    apply untried_spec in Hsel. tauto.
  - intros Hall. apply untried_nil in Hall. rewrite Hall.
    split; [reflexivity|]. intros p s' Hsel.
    apply select_among_member in Hsel as [_ Hsel]. by apply Hsel.
  - intros r s' Hsel. apply select_among_member in Hsel as [-> _].
    destruct (untried ctx available) as [|c cs] eqn:E; cbn; [done|].
    split; [discriminate|]. intros ->. discriminate.
  - intros Hne Hsc. rewrite <- (select_eq ctx s available Ha).
    by apply (select_returns ctx s available).
Qed.

(** C7: let [C] be the candidates before the load check, and let the load
    check succeed with [total_active] above the threshold. Then [select]
    chooses among [C] cut down to the available local providers, or among
    [C] itself when none of [C] is local (or available, at the second
    reading of the clock). In the first case the provider returned is one of
    the local ones, whatever the scores: [choose] only sees local
    candidates; and a provider is returned, as soon as the scores of the
    local candidates can be computed. Provider objects are identified by
    name, so names are required to be distinct, as [_load_providers] makes
    them. *)
Theorem high_load_prefers_local ctx s available stats avail2 :
  NoDup (map name _definitions) ->
  available_at (_states s) (datetime_now world (tick s)) = Ok available ->
  get_stats world (S (tick s)) = Ok stats ->
  Config.high_load_threshold config < total_active stats ->
  available_at (_states s) (datetime_now world (S (S (tick s)))) = Ok avail2 ->
  let C := list_or (untried ctx available) available in
  let I := List.filter (fun p => defn_in p (List.filter is_local avail2)) C in
  (C <> [] -> exists s2, select ctx s = choose (list_or I C) s2) /\
  (I <> [] ->
   forall p s', select ctx s = (Ok (Some p), s') ->
                p ∈ I /\ type p = "local"%string) /\
  (I = [] -> C <> [] -> exists s2, select ctx s = choose C s2) /\
  (I <> [] ->
   (forall p, p ∈ I -> returns (float_div_int 1 (priority p))) ->
   exists p s', select ctx s = (Ok (Some p), s') /\
                p ∈ I /\ type p = "local"%string).
Proof.
  intros Hnd Ha Hs Hhigh Ha2 C I.
  assert (Hsel : C <> [] -> exists s2, select ctx s = choose (list_or I C) s2).
  { intros HC. rewrite (select_eq ctx s available Ha). fold C.
    set (s1 := match untried ctx available with [] => _ | _ => _ end).
    assert (Ht : tick s1 = S (tick s)) by (subst s1; by destruct (untried _ _)).
    assert (Hst : _states s1 = _states s) by (subst s1; by destruct (untried _ _)).
    apply (select_among_high C s1 stats avail2);
      [done | by rewrite Ht | done | by rewrite Ht, Hst]. }
  assert (Hlocal : I <> [] ->
            forall p s', select ctx s = (Ok (Some p), s') ->
                         p ∈ I /\ type p = "local"%string).
  { intros HI p s' Hp.
    assert (HC : C <> []) by (intros E; apply HI; subst I; by rewrite E).
    destruct (Hsel HC) as [s2 E]. rewrite E in Hp.
    apply choose_member in Hp as [_ Hp]. specialize (Hp p eq_refl).
    unfold ProviderSelector.list_or in Hp.
    destruct I as [|i0 I'] eqn:EI; [done|]. rewrite <- EI in *.
    split; [exact Hp|].
    subst I. apply list_elem_of_In, filter_In in Hp as [HpC Hdi].
    apply list_elem_of_In in HpC.
    unfold ProviderSelector.defn_in in Hdi. apply existsb_exists in Hdi as (q & Hq & Hn).
    apply filter_In in Hq as [Hq Hl]. apply list_elem_of_In in Hq.
    apply String.eqb_eq in Hn. apply String.eqb_eq in Hl.
    assert (HpA : p ∈ available).
    { subst C. unfold ProviderSelector.list_or in HpC.
      destruct (untried ctx available) as [|c cs] eqn:Eu; [done|].
      rewrite <- Eu in HpC. by apply untried_spec in HpC as [? _]. }
    assert (q = p) as <-; [|done].
    apply (same_name_same_definition _definitions); [done | | | done].
    + by apply (available_at_sub _ _ _ _ _ Ha2).
    + by apply (available_at_sub _ _ _ _ _ Ha). }
  split; [exact Hsel|]. split; [exact Hlocal|]. split.
  - intros HI HC. destruct (Hsel HC) as [s2 E]. exists s2.
    rewrite E, HI. reflexivity.
  - intros HI Hsc.
    assert (HC : C <> []) by (intros E; apply HI; subst I; by rewrite E).
    destruct (Hsel HC) as [s2 E].
    assert (Hor : list_or I C = I).
    { unfold ProviderSelector.list_or. by destruct I. }
    destruct (choose_returns I s2 HI Hsc) as (p & s' & Hp).
    assert (Hp' : select ctx s = (Ok (Some p), s')) by (by rewrite E, Hor).
    exists p, s'. split; [exact Hp'|]. by apply (Hlocal HI p s').
Qed.

End SelectorFacts.

(** ** MasonDaemon *)

Lemma attempts_consumed_app l1 l2 :
  attempts_consumed (l1 ++ l2) = attempts_consumed l1 + attempts_consumed l2.
Proof. induction l1 as [|x l1 IH]; cbn; [done|]. rewrite IH. lia. Qed.

Lemma attempts_consumed_count l :
  attempts_consumed l =
    Z.of_nat (count_status "failure" l) + Z.of_nat (count_undocumented l).
Proof.
  unfold count_status, count_undocumented.
  induction l as [|[n b] l IH]; cbn; [done|]. rewrite IH. unfold consumed. cbn.
  destruct (String.eqb_spec (execution_status b) "success") as [E|E];
    [rewrite E; cbn; lia|].
  destruct (String.eqb_spec (execution_status b) "provider_failure") as [E'|E'];
    [rewrite E'; cbn; lia|].
  destruct (String.eqb (execution_status b) "failure"); cbn; lia.
Qed.

Section EngineFacts.

Variable config : Config.
Variable _definitions : list ProviderDefinition.
Variable _providers : gmap string string.
Variable world : World.

Abbreviation select := (ProviderSelector.select config _definitions world).
Abbreviation report_result := (ProviderSelector.report_result config world).
Abbreviation handle_result := (MasonDaemon.handle_result config world).
Abbreviation iteration := (MasonDaemon.iteration config _definitions _providers world).
Abbreviation loop := (MasonDaemon.loop config _definitions _providers world).
Abbreviation _execute_task :=
  (MasonDaemon._execute_task config _definitions _providers world).

(** Reporting a result touches the registry and the clock only. It
    completes, except that reporting a rate limit raises [OverflowError]
    when the end of the cooldown is not a date. *)
Lemma report_result_effect n success rl s :
  exists r s', report_result n success rl s = (r, s') /\
               (r = Ok tt \/
                r = Raise OverflowError /\ success = false /\ rl = true /\
                exists t, datetime_add (datetime_now world t)
                            (Config.rate_limit_cooldown config)
                          = Raise OverflowError) /\
               context s' = context s /\ invocations s' = invocations s /\
               log s' = log s.
Proof.
  unfold ProviderSelector.report_result.
  destruct (_states s !! n) as [st|] eqn:E.
  - destruct success.
    + unfold ProviderRegistry.mark_success. unfold_M. cbn. rewrite E. cbn.
      eexists _, _. split; [reflexivity|]. by split; [left|].
    + destruct rl.
      * rewrite (mark_failure_rate_limited config world n s st E).
        destruct (datetime_add _ _) as [t|e] eqn:Ed.
        -- eexists _, _. split; [reflexivity|]. by split; [left|].
        -- apply datetime_add_Raise in Ed as Ed'. destruct Ed' as [-> _].
           eexists _, _. split; [reflexivity|]. split; [|done]. right.
           repeat split. by eexists.
      * rewrite (mark_failure_plain config world n s st E).
        eexists _, _. split; [reflexivity|]. by split; [left|].
  - destruct (mark_unknown config world n s E) as (_ & Hf & Hs).
    destruct success; [rewrite Hs | rewrite Hf];
      (eexists _, _; split; [reflexivity|]; by split; [left|]).
Qed.

Lemma handle_result_effect n b s :
  exists r s',
    handle_result n b s = (r, s') /\
    invocations s' = invocations s /\
    ctx_max_attempts (context s') = ctx_max_attempts (context s) /\
    attempt (context s') = attempt (context s) + consumed b /\
    (r = Ok Return <-> execution_status b = "success"%string) /\
    (forall ctl, r = Ok ctl -> ctl <> Return ->
       ctl = Continue /\
       providers_tried (context s') = providers_tried (context s) ++ [n]) /\
    (forall e, r = Raise e ->
       e = OverflowError /\
       execution_status b = "provider_failure"%string /\
       is_rate_limit b = true /\ context s' = context s).
Proof.
  unfold MasonDaemon.handle_result, consumed.
  unfold mbind at 1. unfold M_bind at 1. unfold external at 1.
  set (s1 := advance s).
  assert (exists s2, (match complete_run world (tick s) with
                      | Ok _ => mret tt
                      | Raise _ => logger complete_run_failed
                      end) s1 = (Ok tt, s2) /\ context s2 = context s /\
                     invocations s2 = invocations s) as (s2 & E2 & Hc2 & Hi2).
  { destruct (complete_run world (tick s)); eexists; (split; [reflexivity|done]). }
  unfold mbind at 1. unfold M_bind at 1. rewrite E2.
  destruct (String.eqb_spec (execution_status b) "success") as [Es|Es].
  - destruct (report_result_effect n true false s2)
      as (r3 & s3 & E3 & [->|(_ & [=] & _)] & Hc3 & Hi3 & _).
    unfold mbind at 1. unfold M_bind at 1. rewrite E3. unfold_M. cbn.
    eexists _, _. split; [reflexivity|]. cbn.
    rewrite Hc3, Hi3, Hc2, Hi2.
    split; [done|]. split; [done|]. split; [lia|]. split; [done|].
    split; [by intros ctl [= <-] | discriminate].
  - destruct (String.eqb_spec (execution_status b) "provider_failure") as [Ep|Ep].
    + destruct (report_result_effect n false (is_rate_limit b) s2)
        as (r3 & s3 & E3 & [->|(-> & _ & Hrl & _)] & Hc3 & Hi3 & _).
      * unfold mbind at 1. unfold M_bind at 1. rewrite E3.
        unfold MasonDaemon.tried_append, MasonDaemon.get_context. unfold_M. cbn.
        eexists _, _. split; [reflexivity|]. cbn.
        rewrite Hc3, Hi3, Hc2, Hi2.
        split; [done|]. split; [done|]. split; [lia|].
        split; [by split|]. split; [by intros ctl [= <-] | discriminate].
      * unfold mbind at 1. unfold M_bind at 1. rewrite E3.
        eexists _, _. split; [reflexivity|].
        rewrite Hc3, Hi3, Hc2, Hi2.
        split; [done|]. split; [done|]. split; [lia|].
        split; [by split|]. split; [discriminate|]. by intros e [= <-].
    + destruct (report_result_effect n false false s2)
        as (r3 & s3 & E3 & [->|(_ & _ & [=] & _)] & Hc3 & Hi3 & _).
      unfold mbind at 1. unfold M_bind at 1. rewrite E3.
      unfold MasonDaemon.tried_append, MasonDaemon.incr_attempt,
        MasonDaemon.get_context. unfold_M. cbn.
      eexists _, _. split; [reflexivity|]. cbn.
      rewrite Hc3, Hi3, Hc2, Hi2.
      split; [done|]. split; [done|]. split; [lia|].
      split; [by split|]. split; [by intros ctl [= <-] | discriminate].
Qed.

Ltac fin :=
  repeat split;
  solve [ done | auto | eauto | cbn [attempts_consumed]; unfold snd; lia ].

(** One turn of the loop makes at most one provider invocation, and moves
    the attempt counter by what that invocation consumes. *)
Lemma iteration_effect pkt s :
  exists r s' new,
    iteration pkt s = (r, s') /\
    invocations s' = invocations s ++ new /\
    (new = [] \/ exists n b, new = [(n, b)]) /\
    ctx_max_attempts (context s') = ctx_max_attempts (context s) /\
    attempt (context s') = attempt (context s) + attempts_consumed new.
Proof.
  unfold MasonDaemon.iteration.
  unfold mbind at 1. unfold M_bind at 1. unfold MasonDaemon.get_context at 1.
  unfold mbind at 1. unfold M_bind at 1.
  pose proof (quiet_select config _definitions world (context s) s) as (_ & Hc1 & Hi1).
  destruct (select (context s) s) as [[[d|]|e] s1]; cbn [snd] in *.
  - destruct (_providers !! name d) as [cls|].
    + unfold mbind at 1. unfold M_bind at 1. unfold external at 1.
      destruct (start_run world (tick s1)) as [run_id|e].
      * unfold MasonDaemon.get_context.
        destruct pkt as [packet|].
        -- unfold_M. cbn.
           match goal with
           | |- context [handle_result ?n ?b ?s0] =>
               destruct (handle_result_effect n b s0)
                 as (ctl & s' & E & Hi & Hm & Ha & _)
           end.
           fold handle_result. rewrite E. cbn in *.
           eexists _, _, [_]. split; [reflexivity|].
           rewrite Hi, Hm, Ha, Hc1, Hi1. cbn.
           fin.
        -- unfold_M. cbn. eexists _, _, []. split; [reflexivity|]. cbn.
           rewrite Hc1, Hi1, app_nil_r. fin.
      * unfold_M. cbn. eexists _, _, []. split; [reflexivity|]. cbn.
        rewrite Hc1, Hi1, app_nil_r. fin.
    + unfold MasonDaemon.tried_append, MasonDaemon.get_context. unfold_M. cbn.
      eexists _, _, []. split; [reflexivity|]. cbn.
      rewrite Hc1, Hi1, app_nil_r. fin.
  - unfold_M. cbn. eexists _, _, []. split; [reflexivity|]. cbn.
    rewrite Hc1, Hi1, app_nil_r. fin.
  - eexists _, _, []. split; [reflexivity|].
    rewrite Hc1, Hi1, app_nil_r. fin.
Qed.

Lemma exhausted_effect s :
  exists s', MasonDaemon.exhausted s = (Ok Exhausted, s') /\
             invocations s' = invocations s /\ context s' = context s /\
             log s' = log s ++ [task_exhausted (attempt (context s))
                                               (providers_tried (context s))].
Proof. unfold MasonDaemon.exhausted. unfold_M. cbn. eauto. Qed.

Lemma loop_accounting fuel pkt s :
  exists r s' new,
    loop fuel pkt s = (r, s') /\
    invocations s' = invocations s ++ new /\
    ctx_max_attempts (context s') = ctx_max_attempts (context s) /\
    attempt (context s') = attempt (context s) + attempts_consumed new.
Proof.
  revert s. induction fuel as [|fuel IH]; intros s.
  - cbn. unfold mbind, M_bind, MasonDaemon.get_context.
    destruct (attempt (context s) <? ctx_max_attempts (context s)).
    + eexists _, _, []. split; [reflexivity|]. rewrite app_nil_r. cbn.
      repeat split; lia.
    + destruct (exhausted_effect s) as (s' & -> & Hi & Hc & _).
      eexists _, _, []. split; [reflexivity|]. rewrite app_nil_r, Hi, Hc. cbn.
      repeat split; lia.
  - cbn [MasonDaemon.loop]. unfold mbind at 1. unfold M_bind at 1.
    unfold MasonDaemon.get_context at 1.
    destruct (attempt (context s) <? ctx_max_attempts (context s)).
    + unfold mbind at 1. unfold M_bind at 1.
      destruct (iteration_effect pkt s) as (r & s1 & new1 & -> & Hi1 & _ & Hm1 & Ha1).
      destruct r as [[| |]|e].
      * destruct (IH s1) as (r2 & s2 & new2 & -> & Hi2 & Hm2 & Ha2).
        eexists _, _, (new1 ++ new2). split; [reflexivity|].
        rewrite Hi2, Hi1, Hm2, Hm1, Ha2, Ha1, attempts_consumed_app, app_assoc.
        repeat split; lia.
      * destruct (exhausted_effect s1) as (s' & -> & Hi & Hc & _).
        eexists _, _, new1. split; [reflexivity|]. rewrite Hi, Hc.
        repeat split; done.
      * eexists _, _, new1. split; [reflexivity|]. repeat split; done.
      * eexists _, _, new1. split; [reflexivity|]. repeat split; done.
    + destruct (exhausted_effect s) as (s' & -> & Hi & Hc & _).
      eexists _, _, []. split; [reflexivity|]. rewrite app_nil_r, Hi, Hc. cbn.
      repeat split; lia.
Qed.

Lemma _execute_task_accounting fuel ctx pkt retry s :
  exists r s' new,
    _execute_task fuel ctx pkt retry s = (r, s') /\
    invocations s' = invocations s ++ new /\
    attempt (context s') =
      attempt ctx + Z.of_nat (count_status "failure" new)
                  + Z.of_nat (count_undocumented new).
Proof.
  unfold MasonDaemon._execute_task. unfold mbind, M_bind. unfold set_context at 1.
  match goal with
  | |- context [MasonDaemon.loop _ _ _ _ fuel pkt ?s0] =>
      destruct (loop_accounting fuel pkt s0) as (r & s' & new & E & Hi & _ & Ha)
  end.
  fold M_bind in E. fold (@mbind M _) in E.
  exists r, s', new. split; [exact E|]. cbn in Hi, Ha.
  rewrite Hi, Ha, attempts_consumed_count. split; [done | lia].
Qed.

End EngineFacts.

Section Divergence.
Import Scenario.

(** With one provider available, and its score computable, [select]
    returns it and leaves registry, context and history as they were. *)
Lemma select_only config defs world ctx s d :
  ProviderRegistry.available_at defs (_states s) (datetime_now world (tick s))
    = Ok [d] ->
  returns (float_div_int 1 (priority d)) ->
  exists s', ProviderSelector.select config defs world ctx s = (Ok (Some d), s') /\
             _states s' = _states s /\ context s' = context s /\
             invocations s' = invocations s.
Proof.
  intros Ha Hsc.
  destruct (select_returns config defs world ctx s [d] Ha) as (p & s' & E);
    [done | by intros p ->%list_elem_of_singleton |].
  pose proof (select_member config defs world ctx s [d] p s' Ha E)
    as ->%list_elem_of_singleton.
  exists s'. split; [exact E|].
  pose proof (quiet_select config defs world ctx s) as Hq. by rewrite E in Hq.
Qed.

  (** *** A provider without an adapter *)

Lemma unknown_adapter_iteration world pkt s :
  _states s = _states (boot unknown_adapter) ->
  exists s',
    MasonDaemon.iteration unknown_adapter (definitions unknown_adapter)
      (adapters unknown_adapter) world pkt s = (Ok Continue, s') /\
    _states s' = _states s /\
    attempt (context s') = attempt (context s) /\
    ctx_max_attempts (context s') = ctx_max_attempts (context s) /\
    invocations s' = invocations s.
Proof.
  intros Hst.
  unfold MasonDaemon.iteration.
  unfold mbind at 1. unfold M_bind at 1. unfold MasonDaemon.get_context at 1.
  unfold mbind at 1. unfold M_bind at 1.
  destruct (select_only unknown_adapter (definitions unknown_adapter) world
              (context s) s codex) as (s1 & -> & Hs1 & Hc1 & Hi1).
  { rewrite Hst. vm_compute. reflexivity. }
  { vm_compute. by eexists. }
  replace (adapters unknown_adapter !! name codex) with (@None string)
    by (vm_compute; reflexivity).
  unfold MasonDaemon.tried_append, MasonDaemon.get_context. unfold_M. cbn.
  eexists. split; [reflexivity|]. cbn. by rewrite Hs1, Hc1, Hi1.
Qed.

Lemma unknown_adapter_loop world fuel pkt s :
  _states s = _states (boot unknown_adapter) ->
  attempt (context s) < ctx_max_attempts (context s) ->
  exists s',
    MasonDaemon.loop unknown_adapter (definitions unknown_adapter)
      (adapters unknown_adapter) world fuel pkt s = (Ok OutOfFuel, s') /\
    invocations s' = invocations s.
Proof.
  revert s. induction fuel as [|fuel IH]; intros s Hst Hlt;
    cbn [MasonDaemon.loop]; unfold mbind at 1; unfold M_bind at 1;
    unfold MasonDaemon.get_context at 1;
    apply Z.ltb_lt in Hlt as Hlt'; rewrite Hlt'.
  - eexists. by split.
  - unfold mbind at 1. unfold M_bind at 1.
    destruct (unknown_adapter_iteration world pkt s Hst)
      as (s1 & -> & Hs1 & Ha1 & Hm1 & Hi1).
    destruct (IH s1) as (s' & -> & Hi'); [congruence | lia |].
    eexists. split; [reflexivity | congruence].
Qed.

  (** *** A provider that always answers [provider_failure] *)

Lemma handle_provider_failure config world n s :
  ready n s ->
  exists s',
    MasonDaemon.handle_result config world n (bundle "provider_failure" false) s
      = (Ok Continue, s') /\
    ready n s' /\
    attempt (context s') = attempt (context s) /\
    ctx_max_attempts (context s') = ctx_max_attempts (context s) /\
    invocations s' = invocations s.
Proof.
  intros (st & Hst & Hav & Hrl).
  unfold MasonDaemon.handle_result.
  unfold mbind at 1. unfold M_bind at 1. unfold external at 1.
  set (s1 := advance s).
  assert (exists s2, (match complete_run world (tick s) with
                      | Ok _ => mret tt
                      | Raise _ => logger complete_run_failed
                      end) s1 = (Ok tt, s2) /\ context s2 = context s /\
                     invocations s2 = invocations s /\ _states s2 = _states s)
    as (s2 & E2 & Hc2 & Hi2 & Hs2).
  { destruct (complete_run world (tick s)); eexists; (split; [reflexivity|done]). }
  unfold mbind at 1. unfold M_bind at 1. rewrite E2.
  cbn [bundle execution_status is_rate_limit String.eqb Ascii.eqb Bool.eqb].
  unfold ProviderSelector.report_result.
  rewrite <- Hs2 in Hst.
  unfold mbind at 1. unfold M_bind at 1.
  rewrite (mark_failure_plain config world n s2 st Hst).
  unfold MasonDaemon.tried_append, MasonDaemon.get_context. unfold_M. cbn.
  eexists. split; [reflexivity|]. cbn. rewrite Hc2, Hi2.
  split; [|done]. unfold ready. cbn. eexists.
  rewrite lookup_insert_eq. split; [reflexivity|]. by cbn.
Qed.

Lemma only_ollama_iteration clock stats pstats run_ids completions pkt s :
  ready "ollama" s ->
  exists s',
    MasonDaemon.iteration only_ollama (definitions only_ollama)
      (adapters only_ollama)
      (world_provider_failure clock stats pstats run_ids completions)
      (Some pkt) s = (Ok Continue, s') /\
    ready "ollama" s' /\
    attempt (context s') = attempt (context s) /\
    ctx_max_attempts (context s') = ctx_max_attempts (context s) /\
    invocations s' =
      invocations s ++ [("ollama"%string, bundle "provider_failure" false)].
Proof.
  intros Hr. pose proof Hr as (st & Hst & Hav & Hrl).
  set (world := world_provider_failure clock stats pstats run_ids completions).
  unfold MasonDaemon.iteration.
  unfold mbind at 1. unfold M_bind at 1. unfold MasonDaemon.get_context at 1.
  unfold mbind at 1. unfold M_bind at 1.
  destruct (select_only only_ollama (definitions only_ollama) world
              (context s) s ollama) as (s1 & -> & Hs1 & Hc1 & Hi1).
  { unfold ProviderRegistry.available_at.
    replace (ProviderRegistry.get_enabled_providers (definitions only_ollama))
      with [ollama] by (vm_compute; reflexivity).
    cbn. rewrite Hst. cbn. by rewrite Hrl, Hav. }
  { vm_compute. by eexists. }
  replace (adapters only_ollama !! name ollama) with (Some "ollama"%string)
    by (vm_compute; reflexivity).
  unfold mbind at 1. unfold M_bind at 1. unfold external at 1.
  cbn [start_run world world_provider_failure].
  unfold mbind at 1. unfold M_bind at 1. unfold MasonDaemon.get_context at 1.
  unfold mbind at 1. unfold M_bind at 1. unfold logger at 1.
  unfold mbind at 1. unfold M_bind at 1. unfold external at 1.
  cbn [generate world world_provider_failure].
  unfold mbind at 1. unfold M_bind at 1. unfold record_invocation at 1.
  match goal with
  | |- context [MasonDaemon.handle_result _ _ ?n _ ?s0] =>
      destruct (handle_provider_failure only_ollama world n s0)
        as (s' & -> & Hr' & Ha' & Hm' & Hi')
  end.
  { exists st. cbn. by rewrite Hs1. }
  exists s'. split; [reflexivity|]. cbn in *.
  by rewrite Ha', Hm', Hi', Hc1, Hi1.
Qed.

Lemma only_ollama_loop clock stats pstats run_ids completions fuel pkt s :
  ready "ollama" s ->
  attempt (context s) < ctx_max_attempts (context s) ->
  exists s',
    MasonDaemon.loop only_ollama (definitions only_ollama)
      (adapters only_ollama)
      (world_provider_failure clock stats pstats run_ids completions)
      fuel (Some pkt) s = (Ok OutOfFuel, s') /\
    length (invocations s') = (length (invocations s) + fuel)%nat /\
    attempt (context s') = attempt (context s).
Proof.
  revert s. induction fuel as [|fuel IH]; intros s Hr Hlt;
    cbn [MasonDaemon.loop]; unfold mbind at 1; unfold M_bind at 1;
    unfold MasonDaemon.get_context at 1;
    apply Z.ltb_lt in Hlt as Hlt'; rewrite Hlt'.
  - eexists. split; [reflexivity|]. cbn. split; [lia | done].
  - unfold mbind at 1. unfold M_bind at 1.
    destruct (only_ollama_iteration clock stats pstats run_ids completions pkt s Hr)
      as (s1 & -> & Hr1 & Ha1 & Hm1 & Hi1).
    destruct (IH s1) as (s' & -> & Hi' & Ha'); [done | lia |].
    eexists. split; [reflexivity|].
    rewrite Hi', Hi1, length_app, Ha', Ha1. cbn. split; [lia | done].
Qed.

(** C3: the loop of [_execute_task] need not end. With one enabled provider
    whose adapter name is none of the known classes, every iteration selects
    it, finds no adapter, and continues, in every world: no number of
    iterations suffices. The same holds with the Ollama provider alone, when
    its adapter answers [provider_failure] without a rate limit each time:
    after [fuel] iterations there were [fuel] invocations and [attempt] is
    still 0. In both cases [attempt] never moves and the fallback of
    [select] to the full list keeps returning the same provider. *)
Theorem execute_task_can_run_forever :
  (forall world fuel pkt,
     (MasonDaemon._execute_task unknown_adapter (definitions unknown_adapter)
        (adapters unknown_adapter) world fuel (fresh_context 1 []) pkt false
        (boot unknown_adapter)).1 = Ok OutOfFuel) /\
  (forall clock stats pstats run_ids completions fuel,
     let r := MasonDaemon._execute_task only_ollama (definitions only_ollama)
        (adapters only_ollama)
        (world_provider_failure clock stats pstats run_ids completions)
        fuel (fresh_context 1 []) (Some packet) false (boot only_ollama) in
     r.1 = Ok OutOfFuel /\
     length (invocations r.2) = fuel /\
     attempt (context r.2) = 0).
Proof.
  split.
  - intros world fuel pkt. unfold MasonDaemon._execute_task.
    unfold mbind, M_bind. unfold set_context at 1.
    match goal with
    | |- context [MasonDaemon.loop _ _ _ _ fuel pkt ?s0] =>
        destruct (unknown_adapter_loop world fuel pkt s0) as (s' & E & _);
          [reflexivity | cbn; lia |]
    end.
    unfold mbind, M_bind in E. by rewrite E.
  - intros clock stats pstats run_ids completions fuel r.
    assert (exists s', r = (Ok OutOfFuel, s') /\
              length (invocations s') = fuel /\ attempt (context s') = 0)
      as (s' & -> & Hi & Ha); [|done].
    subst r. unfold MasonDaemon._execute_task.
    unfold mbind, M_bind. unfold set_context at 1.
    match goal with
    | |- context [MasonDaemon.loop _ _ _ _ fuel _ ?s0] =>
        destruct (only_ollama_loop clock stats pstats run_ids completions
                    fuel packet s0) as (s' & E & Hi & Ha);
          [ | cbn; lia |]
    end.
    { eexists. split; [vm_compute; reflexivity|]. by split. }
    unfold mbind, M_bind in E. rewrite E. eauto.
Qed.

End Divergence.

(** ** Runs of the engine *)

Section Fuel.

Variable config : Config.
Variable _definitions : list ProviderDefinition.
Variable _providers : gmap string string.
Variable world : World.

Abbreviation loop := (MasonDaemon.loop config _definitions _providers world).


End Fuel.

Section FailingPair.
Import Scenario.

Variable clock : nat -> datetime.

Abbreviation failing := (world_of clock 0 (always "failure")).






End FailingPair.

Section Scenarios.
Import Scenario.

Abbreviation run config world fuel max pkt :=
  (MasonDaemon._execute_task config (definitions config) (adapters config)
     world fuel (fresh_context max []) pkt false (boot config)).




(** C1: one turn of the loop makes at most one provider invocation and
    raises [attempt] by what that invocation consumes: one for a bundle
    whose status is [failure], nothing for [provider_failure] and for
    [success]. Over a whole run of [_execute_task], ended or not, [attempt]
    has grown by the number of invocations that answered [failure] (and of
    those whose status is none of the three documented ones, which the code
    treats as failures). The invocations can outnumber [max_attempts]: with
    one attempt allowed, A rate limited and B failing, two are made. *)
Theorem attempt_accounting :
  (forall config defs providers world pkt s,
     exists r s' new,
       MasonDaemon.iteration config defs providers world pkt s = (r, s') /\
       invocations s' = invocations s ++ new /\
       (new = [] \/ exists n b, new = [(n, b)]) /\
       attempt (context s') = attempt (context s) + attempts_consumed new) /\
  (forall b,
     (execution_status b = "failure"%string -> consumed b = 1) /\
     (execution_status b = "provider_failure"%string -> consumed b = 0) /\
     (execution_status b = "success"%string -> consumed b = 0)) /\
  (forall config defs providers world fuel ctx pkt retry s,
     exists r s' new,
       MasonDaemon._execute_task config defs providers world fuel ctx pkt retry s
         = (r, s') /\
       invocations s' = invocations s ++ new /\
       attempt (context s') =
         attempt ctx + Z.of_nat (count_status "failure" new)
                     + Z.of_nat (count_undocumented new)) /\
  (let r := run two_providers (world_of steady_clock 0 (a_rate_limited "failure"))
              5 1 (Some packet) in
   r.1 = Ok Exhausted /\
   map fst (invocations r.2) = ["A"; "B"]%string /\
   attempt (context r.2) = 1 /\
   ctx_max_attempts (context r.2) < Z.of_nat (length (invocations r.2))).
Proof.
  split; [|split; [|split]].
  - intros config defs providers world pkt s.
    destruct (iteration_effect config defs providers world pkt s)
      as (r & s' & new & E & Hi & Hn & _ & Ha).
    by exists r, s', new.
  - intros b. unfold consumed. repeat split; by intros ->.
  - intros. apply _execute_task_accounting.
  - vm_compute. repeat split; reflexivity.
Qed.

(** C6: on the failing input, [mark_failure(name, is_rate_limit=True)] for a
    known name records the failure time and applies the default cooldown
    from the second clock reading, but leaves [consecutive_failures] two
    higher, not one: [mark_failure] counts the failure and the
    [mark_rate_limited] it calls counts it again. This is so for every
    registry, whenever the end of the cooldown is a date; when it is not,
    the call raises [OverflowError] after the failure was recorded and
    counted once. *)
Theorem mark_failure_rate_limit_counts_twice :
  (forall config world n s,
     match _states s !! n with
     | None => True
     | Some st =>
         exists r s',
           ProviderRegistry.mark_failure config world n true s = (r, s') /\
           last_failure <$> (_states s' !! n)
             = Some (Some (datetime_now world (tick s))) /\
           match datetime_add (datetime_now world (S (tick s)))
                              (Config.rate_limit_cooldown config) with
           | Ok t =>
               r = Ok tt /\
               consecutive_failures <$> (_states s' !! n)
                 = Some (consecutive_failures st + 2) /\
               rate_limited_until <$> (_states s' !! n)
                 = Some (Some (datetime_now world (S (tick s))
                               + timedelta (Config.rate_limit_cooldown config)))
           | Raise _ =>
               r = Raise OverflowError /\
               consecutive_failures <$> (_states s' !! n)
                 = Some (consecutive_failures st + 1) /\
               rate_limited_until <$> (_states s' !! n)
                 = Some (rate_limited_until st)
           end
     end) /\
  (let s' := (ProviderRegistry.mark_failure two_providers
                (world_of steady_clock 0 (always "failure")) "A" true
                (boot two_providers)).2 in
   consecutive_failures <$> (_states (boot two_providers) !! "A") = Some 0 /\
   consecutive_failures <$> (_states s' !! "A") = Some 2).
Proof.
  split.
  - intros config world n s. destruct (_states s !! n) as [st|] eqn:E; [|done].
    rewrite (mark_failure_rate_limited config world n s st E).
    destruct (datetime_add _ _) as [t|e] eqn:Ed.
    + apply datetime_add_Ok in Ed as [-> _].
      eexists _, _. split; [reflexivity|]. cbn. rewrite lookup_insert_eq. cbn.
      repeat split. f_equal. lia.
    + apply datetime_add_Raise in Ed as [-> _].
      eexists _, _. split; [reflexivity|]. cbn. rewrite lookup_insert_eq. cbn.
      by repeat split.
  - vm_compute. by split.
Qed.

(** Witness of C10: provider A of the two-provider registry, right after
    construction, with the default cooldown of 300 seconds. *)
Lemma mark_rate_limited_zero_is_default_witness :
  _states (boot two_providers) !! "A" = Some (ProviderRegistry.initial_state "A") /\
  exists s',
    ProviderRegistry.mark_rate_limited two_providers
      (world_of steady_clock 0 (always "failure")) "A" (Some 0)
      (boot two_providers) = (Ok tt, s') /\
    (_states s' !! "A" ≫= rate_limited_until) = Some (0 + timedelta 300).
Proof.
  split; [vm_compute; reflexivity|].
  destruct (mark_rate_limited_zero_is_default two_providers
              (world_of steady_clock 0 (always "failure")) "A"
              (boot two_providers) (ProviderRegistry.initial_state "A"))
    as (_ & H & _); [vm_compute; reflexivity|].
  destruct (H (0 + timedelta 300)) as (s' & E & Hu & _);
    [vm_compute; reflexivity|].
  exists s'. split; [exact E | exact Hu].
Defined.

(** C10, as stated, fails: with a default cooldown of 10^12 seconds, read on
    the first of January 2026, the end of the cooldown is no date;
    [mark_rate_limited("A", 0)] raises [OverflowError] and
    [rate_limited_until] is not the reading plus the default cooldown, but
    unset as before. *)
Lemma cooldown_end_beyond_year_9999 :
  let r := ProviderRegistry.mark_rate_limited Cases.long_cooldown
             (world_of Cases.clock_2026 0 (always "failure")) "A" (Some 0)
             (boot Cases.long_cooldown) in
  is_Some (_states (boot Cases.long_cooldown) !! "A") /\
  r.1 = Raise OverflowError /\
  (_states r.2 !! "A" ≫= rate_limited_until) = None /\
  ~ ((_states r.2 !! "A" ≫= rate_limited_until)
     = Some (Cases.clock_2026 0
             + timedelta (Config.rate_limit_cooldown Cases.long_cooldown))).
Proof. vm_compute. repeat split; try done. by eexists. Qed.

(** Witness of C5: A and B available, A already tried. *)
Lemma select_excludes_tried_witness :
  ProviderRegistry.available_at (definitions two_providers)
    (_states (boot two_providers)) (steady_clock 0) = Ok [provider_A; provider_B] /\
  forall p s',
    ProviderSelector.select two_providers (definitions two_providers)
      (world_of steady_clock 0 (always "failure")) (fresh_context 3 ["A"%string])
      (boot two_providers) = (Ok (Some p), s') ->
    p = provider_B.
Proof.
  split; [vm_compute; reflexivity|].
  intros p s' Hsel.
  destruct (select_excludes_tried two_providers (definitions two_providers)
              (world_of steady_clock 0 (always "failure"))
              (fresh_context 3 ["A"%string]) (boot two_providers)
              [provider_A; provider_B]) as (H & _); [vm_compute; reflexivity|].
  destruct H as (_ & H).
  { exists provider_B. split; [right; left|].
    cbn. intros Hin. apply list_elem_of_singleton in Hin. discriminate Hin. }
  destruct (H p s' Hsel) as [Hn Hp].
  apply elem_of_cons in Hp as [->|Hp].
  - exfalso. apply Hn. cbn. left.
  - by apply list_elem_of_singleton in Hp.
Defined.

(** Witness of C7: an API provider A ahead of a local provider L, 100 active
    tasks against the default threshold of 50. A has the higher score, 0.5
    against 0.25, and a local provider is returned. *)
Lemma high_load_prefers_local_witness :
  NoDup (map name (definitions api_and_local)) /\
  ProviderRegistry.available_at (definitions api_and_local)
    (_states (boot api_and_local)) (steady_clock 0) = Ok [api_A; local_L] /\
  ProviderSelector.score_loop ∅ [api_A; local_L]
    = Ok [(api_A, 0.5%float); (local_L, 0.25%float)] /\
  exists p s',
    ProviderSelector.select api_and_local (definitions api_and_local)
      (world_of steady_clock 100 (always "success")) (fresh_context 3 [])
      (boot api_and_local) = (Ok (Some p), s') /\
    type p = "local"%string.
Proof.
  assert (Hnd : NoDup (map name (definitions api_and_local))).
  { apply (bool_decide_unpack _). vm_compute. exact I. }
  split; [exact Hnd|]. split; [vm_compute; reflexivity|].
  split; [vm_compute; reflexivity|].
  destruct (high_load_prefers_local api_and_local (definitions api_and_local)
              (world_of steady_clock 100 (always "success")) (fresh_context 3 [])
              (boot api_and_local) [api_A; local_L] {| total_active := 100 |}
              [api_A; local_L] Hnd) as (_ & _ & _ & H);
    try (vm_compute; reflexivity).
  destruct H as (p & s' & Hp & _ & Hl).
  - vm_compute. discriminate.
  - intros p Hp. apply list_elem_of_In in Hp. vm_compute in Hp.
    destruct Hp as [<-|[]]. eexists. vm_compute. reflexivity.
  - by exists p, s'.
Defined.

(** The high-load scenario of the specification, computed: A scores 0.5 and
    L scores 0.25, and L is selected. *)
Example high_load_selects_lower_score :
  ProviderSelector.score_loop ∅ [api_A; local_L]
    = Ok [(api_A, 0.5%float); (local_L, 0.25%float)] /\
  (ProviderSelector.select api_and_local (definitions api_and_local)
     (world_of steady_clock 100 (always "success")) (fresh_context 3 [])
     (boot api_and_local)).1 = Ok (Some local_L).
Proof. split; vm_compute; reflexivity. Qed.

(** The rate-limit scenario of the specification: A is rate limited, B
    succeeds; no attempt is consumed and A is left cooling down. *)
Example rate_limit_failover :
  let r := run two_providers (world_of steady_clock 0 (a_rate_limited "success"))
             5 3 (Some packet) in
  r.1 = Ok Succeeded /\
  attempt (context r.2) = 0 /\
  providers_tried (context r.2) = ["A"%string] /\
  map fst (invocations r.2) = ["A"; "B"]%string /\
  is_Some (_states r.2 !! "A" ≫= rate_limited_until) /\
  consecutive_failures <$> (_states r.2 !! "B") = Some 0.
Proof. vm_compute. repeat split; try reflexivity. by eexists. Qed.

(** C2, as stated, fails: the acceptance criteria of the blank story parse
    to no criterion, and [compile] does not return the empty list. *)
Lemma empty_criteria_still_one_packet :
  ~ (TaskCompiler._parse_acceptance_criteria ascii_isspace ascii_isdigit
       (acceptance_criteria blank_story) = Ok [] ->
     TaskCompiler.compile ascii_isspace ascii_isdigit (config_of [])
       packet_source 0 blank_story = Ok []).
Proof. intros H. specialize (H eq_refl). vm_compute in H. discriminate H. Qed.

(** The decomposition scenario of the specification: seven criteria, a cap
    of ten, three packets with 3, 3 and 1 criteria and the titles T,
    T (Part 2), T (Part 3). *)
Example seven_criteria_three_packets :
  (fun ps => map (fun p => (title (goal p), length (success_criteria (goal p)))) ps)
    <$> (match TaskCompiler.compile ascii_isspace ascii_isdigit (config_of [])
                 packet_source 0
                 {| story_id := 1; story_title := lit "T"; narrative := [];
                    acceptance_criteria :=
                      [49; 10; 50; 10; 51; 10; 52; 10; 53; 10; 54; 10; 55]%N;
                    story_epic_id := None; story_priority := 0;
                    story_est_points := None |} with
         | Ok ps => Some ps
         | Raise _ => None
         end)
  = Some [(lit "T", 3%nat); (lit "T (Part 2)", 3%nat); (lit "T (Part 3)", 1%nat)].
Proof. vm_compute. reflexivity. Qed.

(** Witness of C9: the packet compiled from a story, with one line of
    guidance for attempt 1. *)
Lemma enrich_for_retry_copy_witness :
  PyDict.packet_ok stored.2 stored.1 = true /\
  exists e h',
    PyDict.enrich_for_retry stored.1 (PyDict.VStrs [lit "fix the test"]) 1 stored.2
      = (Ok e, h') /\
    h' !! stored.1 = stored.2 !! stored.1 /\
    PyDict.field h' e "inputs" "retry_guidance"
      = Some (PyDict.VStrs [lit "fix the test"]) /\
    PyDict.field h' e "execution" "current_attempt" = Some (PyDict.VInt 1) /\
    PyDict.field h' e "execution" "max_attempts"
      = PyDict.field stored.2 stored.1 "execution" "max_attempts".
Proof.
  split; [vm_compute; reflexivity|].
  destruct (enrich_for_retry_copy stored.2 stored.1
              (PyDict.VStrs [lit "fix the test"]) 1)
    as (e & h' & E & _ & Hframe & _ & Hg & _ & Ha & Hx); [vm_compute; reflexivity|].
  exists e, h'. split; [exact E|]. split.
  - apply Hframe. vm_compute. eauto.
  - split; [exact Hg|]. split; [exact Ha|]. by apply Hx.
Defined.

End Scenarios.

(** * Further properties *)

(** ** Sorting by an integer key *)

Section SortByKey.

Context {A : Type} (key : A -> Z).

Abbreviation by_key := (fun p q : A => key p <? key q).

Lemma insert_by_key_sorted x l :
  StronglySorted (fun a b => key a <= key b) l ->
  StronglySorted (fun a b => key a <= key b) (insert_by by_key x l).
Proof.
  induction 1 as [|y l Hs IH Hy]; cbn.
  - repeat constructor.
  - destruct (Z.ltb_spec (key y) (key x)) as [Hlt|Hge].
    + constructor; [exact IH|].
      apply Forall_forall. intros z Hz.
      rewrite insert_by_perm in Hz.
      apply elem_of_cons in Hz as [->|Hz]; [lia|].
      rewrite Forall_forall in Hy. by apply Hy.
    + constructor; [by constructor|].
      constructor; [lia|].
      eapply Forall_impl; [exact Hy|]. cbn. intros; lia.
Qed.

Lemma sort_by_key_sorted l :
  StronglySorted (fun a b => key a <= key b) (sort_by by_key l).
Proof.
  induction l as [|x l IH]; [constructor|].
  unfold sort_by in *. cbn. by apply insert_by_key_sorted.
Qed.

(** Elements with the key [k] keep their order. *)
Lemma insert_by_key_stable k x l :
  StronglySorted (fun a b => key a <= key b) l ->
  List.filter (fun a => key a =? k) (insert_by by_key x l)
    = List.filter (fun a => key a =? k) (x :: l).
Proof.
  induction 1 as [|y l Hs IH Hy]; [reflexivity|].
  cbn [insert_by]. destruct (Z.ltb_spec (key y) (key x)) as [Hlt|Hge];
    [|reflexivity].
  cbn [List.filter] in *. rewrite IH.
  destruct (Z.eqb_spec (key x) k) as [Ex|Ex]; [|reflexivity].
  destruct (Z.eqb_spec (key y) k) as [Ey|Ey]; [lia | reflexivity].
Qed.

Lemma sort_by_key_stable k l :
  List.filter (fun a => key a =? k) (sort_by by_key l)
    = List.filter (fun a => key a =? k) l.
Proof.
  induction l as [|x l IH]; [reflexivity|].
  unfold sort_by in *. cbn [foldr].
  rewrite insert_by_key_stable by apply sort_by_key_sorted.
  cbn [List.filter]. unfold sort_by. by rewrite IH.
Qed.

End SortByKey.

(** ** ProviderRegistry, further *)

Section RegistryMore.

Variable config : Config.
Variable world : World.

(** X1: [get_enabled_providers] returns the enabled definitions, each as
    often as it is defined, in ascending order of priority; definitions of
    equal priority keep the order in which they were loaded. *)
Theorem enabled_providers_sorted_stable (defs : list ProviderDefinition) :
  ProviderRegistry.get_enabled_providers defs ≡ₚ List.filter enabled defs /\
  StronglySorted (fun p q => priority p <= priority q)
    (ProviderRegistry.get_enabled_providers defs) /\
  forall k,
    List.filter (fun p => priority p =? k)
      (ProviderRegistry.get_enabled_providers defs)
    = List.filter (fun p => priority p =? k) (List.filter enabled defs).
Proof.
  unfold ProviderRegistry.get_enabled_providers. split; [apply sort_by_perm|].
  split; [apply (sort_by_key_sorted priority)|].
  intros k. apply (sort_by_key_stable priority).
Qed.

Lemma available_among_filter states now (l : list ProviderDefinition) :
  (forall d, d ∈ l -> is_Some (states !! name d)) ->
  ProviderRegistry.available_among states now l
    = Ok (List.filter (eligible states now) l).
Proof.
  induction l as [|d l IH]; intros H; [reflexivity|].
  cbn. unfold eligible at 1.
  destruct (H d) as [st Hst]; [left|]. rewrite Hst.
  rewrite IH by (intros; apply H; by right). cbn.
  destruct (rate_limited_until st) as [t|]; [destruct (now <? t)|];
    cbn; by destruct (available st).
Qed.

Lemma available_among_missing states now (l : list ProviderDefinition) d :
  d ∈ l -> states !! name d = None ->
  ProviderRegistry.available_among states now l = Raise KeyError.
Proof.
  induction l as [|q l IH]; intros Hd Hn; [by apply elem_of_nil in Hd|].
  cbn. apply elem_of_cons in Hd as [<-|Hd]; [by rewrite Hn|].
  destruct (states !! name q); [|reflexivity].
  by rewrite IH.
Qed.

Lemma available_at_filter defs states now :
  states_cover defs states ->
  ProviderRegistry.available_at defs states now
    = Ok (List.filter (eligible states now)
            (ProviderRegistry.get_enabled_providers defs)).
Proof.
  intros H. apply available_among_filter. intros d Hd. apply H.
  by apply elem_of_enabled in Hd as [? _].
Qed.

Lemma filter_sorted {A} (R : A -> A -> Prop) (f : A -> bool) l :
  StronglySorted R l -> StronglySorted R (List.filter f l).
Proof.
  induction 1 as [|x l Hs IH Hx]; cbn; [constructor|].
  destruct (f x); [|exact IH]. constructor; [exact IH|].
  apply Forall_forall. intros y Hy.
  apply list_elem_of_In, filter_In in Hy as [Hy _].
  rewrite Forall_forall in Hx. by apply Hx, list_elem_of_In.
Qed.

(** X2: with a state for every definition, [get_available_providers]
    returns, still in ascending order of priority, exactly the enabled
    definitions whose state is flagged available and whose cooldown is unset
    or not after the clock reading (a cooldown that ends at the reading has
    ended); it raises [KeyError] when an enabled definition has no state. *)
Theorem available_providers_filter (defs : list ProviderDefinition)
    (states : gmap string ProviderState) (now : datetime) :
  (states_cover defs states ->
   exists avail,
     ProviderRegistry.available_at defs states now = Ok avail /\
     avail = List.filter (eligible states now)
               (ProviderRegistry.get_enabled_providers defs) /\
     StronglySorted (fun p q => priority p <= priority q) avail /\
     forall d, d ∈ avail <->
       d ∈ defs /\ enabled d = true /\
       exists st, states !! name d = Some st /\ available st = true /\
                  forall t, rate_limited_until st = Some t -> t <= now) /\
  (forall d, d ∈ defs -> enabled d = true -> states !! name d = None ->
     ProviderRegistry.available_at defs states now = Raise KeyError).
Proof.
  split.
  - intros Hc. eexists. split; [by apply available_at_filter|].
    split; [reflexivity|]. split.
    + apply filter_sorted. apply (sort_by_key_sorted priority).
    + intros d. rewrite list_elem_of_In, filter_In, <- list_elem_of_In.
      unfold ProviderRegistry.get_enabled_providers.
      rewrite elem_of_sort_by, list_elem_of_In, filter_In, <- list_elem_of_In.
      unfold eligible. split.
      * intros [[Hd He] Hel].
        destruct (states !! name d) as [st|]; [|discriminate].
        split; [done|]. split; [done|]. exists st. split; [done|].
        destruct (rate_limited_until st) as [t|].
        -- apply andb_true_iff in Hel as [Ht Ha]. split; [done|].
           intros t' [= <-]. apply negb_true_iff, Z.ltb_ge in Ht. lia.
        -- split; [done|]. discriminate.
      * intros (Hd & He & st & Hst & Ha & Ht). split; [done|].
        rewrite Hst. destruct (rate_limited_until st) as [t|]; [|done].
        rewrite Ha, andb_true_r. apply negb_true_iff, Z.ltb_ge.
        specialize (Ht t eq_refl). lia.
  - intros d Hd He Hn. unfold ProviderRegistry.available_at.
    eapply available_among_missing; [|exact Hn].
    unfold ProviderRegistry.get_enabled_providers.
    rewrite elem_of_sort_by, list_elem_of_In, filter_In, <- list_elem_of_In. done.
Qed.

Abbreviation mark_rate_limited := (ProviderRegistry.mark_rate_limited config world).
Abbreviation mark_failure := (ProviderRegistry.mark_failure config world).
Abbreviation mark_success := (ProviderRegistry.mark_success world).

Lemma eligible_other states n st now d :
  name d <> n -> eligible (<[n := st]> states) now d = eligible states now d.
Proof. intros H. unfold eligible. by rewrite lookup_insert_ne. Qed.

Lemma states_cover_insert defs states n st :
  states_cover defs states -> states_cover defs (<[n := st]> states).
Proof.
  intros H d Hd. destruct (decide (n = name d)) as [->|Hne].
  - rewrite lookup_insert_eq. eauto.
  - rewrite lookup_insert_ne by done. by apply H.
Qed.

Lemma elem_of_available defs states now d :
  states_cover defs states ->
  d ∈ List.filter (eligible states now) (ProviderRegistry.get_enabled_providers defs)
  <-> d ∈ ProviderRegistry.get_enabled_providers defs /\ eligible states now d = true.
Proof. intros _. by rewrite list_elem_of_In, filter_In, <- list_elem_of_In. Qed.

(** X3: let [mark_rate_limited(name, cooldown)] for a known name read the
    clock at [t0]. When [t0 + cooldown] is a date (of the years 1 to 9999),
    the call returns, the provider is left out of the available providers
    at every clock reading before [t0 + cooldown] and, its flag permitting,
    is back from that reading on; the availability of every other provider
    is as before, and the failure count of the provider is one higher. When
    [t0 + cooldown] is not a date, the call raises [OverflowError] and no
    provider state changes: the provider is neither cooled down nor counted
    as failed. *)
Theorem cooldown_excludes_until_expiry (defs : list ProviderDefinition)
    (n : string) (c : option Z) (s : Daemon) (st : ProviderState) :
  _states s !! n = Some st ->
  states_cover defs (_states s) ->
  (forall t,
     datetime_add (datetime_now world (tick s)) (cooldown_used config c) = Ok t ->
     exists s',
       mark_rate_limited n c s = (Ok tt, s') /\
       consecutive_failures <$> (_states s' !! n)
         = Some (consecutive_failures st + 1) /\
       forall now, exists avail avail',
         ProviderRegistry.available_at defs (_states s) now = Ok avail /\
         ProviderRegistry.available_at defs (_states s') now = Ok avail' /\
         (forall d, name d <> n -> (d ∈ avail' <-> d ∈ avail)) /\
         (forall d, name d = n ->
            (d ∈ avail' <->
             d ∈ ProviderRegistry.get_enabled_providers defs /\
             available st = true /\
             datetime_now world (tick s) + timedelta (cooldown_used config c)
               <= now))) /\
  (forall e,
     datetime_add (datetime_now world (tick s)) (cooldown_used config c)
       = Raise e ->
     exists s',
       mark_rate_limited n c s = (Raise OverflowError, s') /\
       _states s' = _states s).
Proof.
  intros Hn Hc.
  rewrite (mark_rate_limited_known config world n c s st Hn). split.
  - intros t Ht. rewrite Ht. apply datetime_add_Ok in Ht as [-> _].
    eexists. split; [reflexivity|]. cbn [_states].
    split; [by rewrite lookup_insert_eq|].
    intros now. eexists _, _.
    split; [by apply available_at_filter|].
    split; [by apply available_at_filter, states_cover_insert|].
    split.
    + intros d Hd.
      rewrite !elem_of_available by (try apply states_cover_insert; done).
      by rewrite eligible_other.
    + intros d Hd. rewrite elem_of_available by (by apply states_cover_insert).
      unfold eligible. rewrite Hd, lookup_insert_eq. cbn.
      rewrite andb_true_iff, negb_true_iff, Z.ltb_ge. tauto.
  - intros e He. rewrite He. apply datetime_add_Raise in He as [-> _].
    eexists. split; reflexivity.
Qed.

(** X4: after [mark_success(name)] for a known name the provider has no
    cooldown, no consecutive failure and the clock reading as its last
    success, so that, its flag permitting, it is available at every clock
    reading; the availability of every other provider is as before. *)
Theorem success_clears_cooldown (defs : list ProviderDefinition)
    (n : string) (s : Daemon) (st : ProviderState) :
  _states s !! n = Some st ->
  states_cover defs (_states s) ->
  exists s',
  mark_success n s = (Ok tt, s') /\
  _states s' !! n =
    Some {| ps_name := ps_name st; available := available st;
            rate_limited_until := None; consecutive_failures := 0;
            last_success := Some (datetime_now world (tick s));
            last_failure := last_failure st |} /\
  forall now, exists avail avail',
    ProviderRegistry.available_at defs (_states s) now = Ok avail /\
    ProviderRegistry.available_at defs (_states s') now = Ok avail' /\
    (forall d, name d <> n -> (d ∈ avail' <-> d ∈ avail)) /\
    (forall d, name d = n ->
       (d ∈ avail' <->
        d ∈ ProviderRegistry.get_enabled_providers defs /\ available st = true)).
Proof.
  intros Hn Hc.
  unfold ProviderRegistry.mark_success. unfold_M. cbn. rewrite Hn. cbn.
  eexists. split; [reflexivity|]. cbn [_states].
  split; [by rewrite lookup_insert_eq|].
  intros now. eexists _, _.
  split; [by apply available_at_filter|].
  split; [by apply available_at_filter, states_cover_insert|].
  split.
  - intros d Hd. rewrite !elem_of_available by (try apply states_cover_insert; done).
    by rewrite eligible_other.
  - intros d Hd. rewrite elem_of_available by (by apply states_cover_insert).
    unfold eligible. rewrite Hd, lookup_insert_eq. cbn. tauto.
Qed.

(** X5: for a name the registry does not know, [mark_success],
    [mark_failure], [mark_rate_limited] and the selector's [report_result]
    return without an error and leave the whole daemon as it was; not even
    the clock is read. *)
Theorem unknown_provider_is_ignored (n : string) (s : Daemon) :
  _states s !! n = None ->
  mark_success n s = (Ok tt, s) /\
  (forall rl, mark_failure n rl s = (Ok tt, s)) /\
  (forall c, mark_rate_limited n c s = (Ok tt, s)) /\
  (forall ok rl, ProviderSelector.report_result config world n ok rl s = (Ok tt, s)).
Proof.
  intros H.
  assert (Hs : mark_success n s = (Ok tt, s))
    by (unfold ProviderRegistry.mark_success; unfold_M; cbn; by rewrite H).
  assert (Hf : forall rl, mark_failure n rl s = (Ok tt, s))
    by (intros; unfold ProviderRegistry.mark_failure; unfold_M; cbn; by rewrite H).
  assert (Hr : forall c, mark_rate_limited n c s = (Ok tt, s))
    by (intros; unfold ProviderRegistry.mark_rate_limited; unfold_M; cbn;
        by rewrite H).
  repeat split; try done.
  intros ok rl. unfold ProviderSelector.report_result. by destruct ok.
Qed.

Lemma same_providers_refl states : same_providers states states.
Proof. intros n. by destruct (states !! n). Qed.

Lemma same_providers_trans s1 s2 s3 :
  same_providers s1 s2 -> same_providers s2 s3 -> same_providers s1 s3.
Proof.
  intros H1 H2 n. specialize (H1 n). specialize (H2 n).
  destruct (s1 !! n), (s2 !! n), (s3 !! n); try done.
  destruct H1, H2. split; congruence.
Qed.

Lemma same_providers_insert states n st st' :
  states !! n = Some st ->
  available st' = available st -> ps_name st' = ps_name st ->
  same_providers states (<[n := st']> states).
Proof.
  intros Hn Ha Hp m. destruct (decide (n = m)) as [<-|Hne].
  - by rewrite lookup_insert_eq, Hn.
  - rewrite lookup_insert_ne by done. by destruct (states !! m).
Qed.

Lemma mark_success_same n s :
  same_providers (_states s) (_states (mark_success n s).2) /\
  forall m, m <> n -> _states (mark_success n s).2 !! m = _states s !! m.
Proof.
  unfold ProviderRegistry.mark_success. unfold_M. cbn.
  destruct (_states s !! n) as [st|] eqn:E; cbn.
  - split; [by eapply same_providers_insert|].
    intros m Hm. by rewrite lookup_insert_ne.
  - split; [apply same_providers_refl | done].
Qed.

Lemma mark_rate_limited_same n c s :
  same_providers (_states s) (_states (mark_rate_limited n c s).2) /\
  forall m, m <> n -> _states (mark_rate_limited n c s).2 !! m = _states s !! m.
Proof.
  destruct (_states s !! n) as [st|] eqn:E.
  - rewrite (mark_rate_limited_known config world n c s st E).
    destruct (datetime_add _ _); cbn.
    + split; [by eapply same_providers_insert|].
      intros m Hm. by rewrite lookup_insert_ne.
    + split; [apply same_providers_refl | done].
  - destruct (mark_unknown config world n s E) as (-> & _).
    split; [apply same_providers_refl | done].
Qed.

Lemma mark_failure_same n rl s :
  same_providers (_states s) (_states (mark_failure n rl s).2) /\
  forall m, m <> n -> _states (mark_failure n rl s).2 !! m = _states s !! m.
Proof.
  destruct (_states s !! n) as [st|] eqn:E.
  - destruct rl.
    + rewrite (mark_failure_rate_limited config world n s st E).
      destruct (datetime_add _ _); cbn;
        (split; [by eapply same_providers_insert|]);
        intros m Hm; by rewrite lookup_insert_ne.
    + rewrite (mark_failure_plain config world n s st E). cbn.
      split; [by eapply same_providers_insert|].
      intros m Hm. by rewrite lookup_insert_ne.
  - destruct (mark_unknown config world n s E) as (_ & -> & _).
    split; [apply same_providers_refl | done].
Qed.

Lemma reset_cooldowns_same s :
  same_providers (_states s) (_states (RegistryOps.reset_cooldowns s).2).
Proof.
  unfold RegistryOps.reset_cooldowns. unfold_M. cbn. intros n.
  rewrite lookup_fmap. by destruct (_states s !! n).
Qed.

(** X6: no operation of the registry adds or drops a provider state,
    renames one or changes its [available] flag, and marking one provider
    leaves the state of every other provider untouched. *)
Theorem registry_keeps_providers_and_flags (n : string) (s : Daemon) :
  (same_providers (_states s) (_states (mark_success n s).2) /\
   forall m, m <> n -> _states (mark_success n s).2 !! m = _states s !! m) /\
  (forall rl,
     same_providers (_states s) (_states (mark_failure n rl s).2) /\
     forall m, m <> n -> _states (mark_failure n rl s).2 !! m = _states s !! m) /\
  (forall c,
     same_providers (_states s) (_states (mark_rate_limited n c s).2) /\
     forall m, m <> n -> _states (mark_rate_limited n c s).2 !! m = _states s !! m) /\
  same_providers (_states s) (_states (RegistryOps.reset_cooldowns s).2).
Proof.
  split; [apply mark_success_same|]. split; [intros; apply mark_failure_same|].
  split; [intros; apply mark_rate_limited_same | apply reset_cooldowns_same].
Qed.

(** X7: [reset_cooldowns] clears the cooldown and the failure count of every
    provider and nothing else; afterwards the available providers are, at
    every clock reading, the enabled ones flagged available. *)
Theorem reset_cooldowns_makes_all_eligible (s : Daemon) :
  exists s',
    RegistryOps.reset_cooldowns s = (Ok tt, s') /\
    (forall n, _states s' !! n = RegistryOps.reset_state <$> (_states s !! n)) /\
    _cached_stats s' = _cached_stats s /\ context s' = context s /\
    invocations s' = invocations s /\ log s' = log s /\ tick s' = tick s /\
    forall defs now,
      states_cover defs (_states s) ->
      ProviderRegistry.available_at defs (_states s') now
      = Ok (List.filter
              (fun d => match _states s !! name d with
                        | Some st => available st
                        | None => false
                        end)
              (ProviderRegistry.get_enabled_providers defs)).
Proof.
  unfold RegistryOps.reset_cooldowns. unfold_M. cbn.
  eexists. split; [reflexivity|]. cbn.
  split; [intros n; apply lookup_fmap|]. repeat split.
  intros defs now Hc. rewrite available_at_filter.
  - f_equal. apply filter_ext. intros d. unfold eligible.
    rewrite lookup_fmap. by destruct (_states s !! name d).
  - intros d Hd. rewrite lookup_fmap. destruct (Hc d Hd) as [st ->]. by eexists.
Qed.

End RegistryMore.

(** ** Loading the providers and their adapters *)

Lemma get_definition_dict_set defn defs n :
  ProviderRegistry.get_definition (ProviderRegistry.dict_set defn defs) n
  = if String.eqb (name defn) n then Some defn
    else ProviderRegistry.get_definition defs n.
Proof.
  unfold ProviderRegistry.get_definition.
  induction defs as [|q defs IH]; cbn.
  - by destruct (String.eqb (name defn) n).
  - destruct (String.eqb_spec (name q) (name defn)) as [E|E]; cbn.
    + rewrite E. by destruct (String.eqb (name defn) n).
    + destruct (String.eqb_spec (name q) n) as [E'|E'].
      * destruct (String.eqb_spec (name defn) n); [congruence | reflexivity].
      * exact IH.
Qed.

Lemma _load_providers_fold (l : list ProviderJson) defs
    (states : gmap string ProviderState) n :
  let r := fold_left
      (fun '(defs, states) p =>
         let defn := ProviderRegistry.definition_of p in
         (ProviderRegistry.dict_set defn defs,
          <[name defn := ProviderRegistry.initial_state (name defn)]> states))
      l (defs, states) in
  ProviderRegistry.get_definition r.1 n
    = match last (List.filter (fun p => String.eqb (pj_name p) n) l) with
      | Some p => Some (ProviderRegistry.definition_of p)
      | None => ProviderRegistry.get_definition defs n
      end /\
  r.2 !! n
    = match last (List.filter (fun p => String.eqb (pj_name p) n) l) with
      | Some p => Some (ProviderRegistry.initial_state n)
      | None => states !! n
      end.
Proof.
  revert defs states. induction l as [|p l IH]; intros defs states; [done|].
  cbn [fold_left List.filter].
  specialize (IH (ProviderRegistry.dict_set (ProviderRegistry.definition_of p) defs)
                 (<[name (ProviderRegistry.definition_of p) :=
                      ProviderRegistry.initial_state
                        (name (ProviderRegistry.definition_of p))]> states)).
  cbv zeta in *. destruct IH as [IH1 IH2]. rewrite IH1, IH2.
  rewrite get_definition_dict_set. cbn [ProviderRegistry.definition_of name].
  destruct (String.eqb_spec (pj_name p) n) as [E|E].
  - rewrite last_cons.
    destruct (last (List.filter _ l)); [done|].
    subst n. by rewrite lookup_insert_eq.
  - destruct (last (List.filter _ l)); [done|].
    by rewrite lookup_insert_ne.
Qed.

(** X8: after [_load_providers], looking a name up gives the definition
    made from the last entry of the providers document with that name, with
    the defaults for the keys the entry leaves out, and a fresh state
    (available, no cooldown, no failure); a name without an entry has
    neither a definition nor a state. *)
Theorem load_then_lookup (config : Config) (n : string) :
  ProviderRegistry.get_definition (ProviderRegistry._load_providers config).1 n
    = ProviderRegistry.definition_of <$> entry_named config n /\
  (ProviderRegistry._load_providers config).2 !! n
    = (fun _ => ProviderRegistry.initial_state n) <$> entry_named config n /\
  NoDup (map name (ProviderRegistry._load_providers config).1).
Proof.
  unfold entry_named, ProviderRegistry._load_providers.
  destruct (_load_providers_fold (Config.providers config) [] ∅ n) as [H1 H2].
  cbv zeta in *. rewrite H1, H2.
  split; [by destruct (last _)|]. split; [by destruct (last _)|].
  pose proof (_load_providers_wf config) as Hwf.
  unfold ProviderRegistry._load_providers in Hwf.
  destruct (fold_left _ _ _). apply Hwf.
Qed.

Lemma _init_providers_fold (l : list ProviderDefinition)
    (acc : gmap string string) n :
  is_Some (fold_left
      (fun providers defn =>
         if bool_decide (adapter defn ∈ MasonDaemon.provider_classes)
         then <[name defn := adapter defn]> providers
         else providers) l acc !! n)
  <-> is_Some (acc !! n) \/
      exists d, d ∈ l /\ name d = n /\ adapter d ∈ MasonDaemon.provider_classes.
Proof.
  revert acc. induction l as [|d l IH]; intros acc; cbn [fold_left].
  - split; [by left|]. intros [?|(d & Hd & _)]; [done|]. by apply elem_of_nil in Hd.
  - rewrite IH. case_bool_decide as Hc.
    + split.
      * intros [H|(q & Hq & Hn & Ha)].
        -- destruct (decide (name d = n)) as [E|E].
           ++ right. exists d. split; [left | done].
           ++ left. by rewrite lookup_insert_ne in H.
        -- right. exists q. split; [by right | done].
      * intros [H|(q & Hq & Hn & Ha)].
        -- left. destruct (decide (name d = n)) as [->|E].
           ++ rewrite lookup_insert_eq. eauto.
           ++ by rewrite lookup_insert_ne.
        -- apply elem_of_cons in Hq as [->|Hq].
           ++ left. rewrite Hn, lookup_insert_eq. eauto.
           ++ right. by exists q.
    + split.
      * intros [H|(q & Hq & Hn & Ha)]; [by left|].
        right. exists q. split; [by right | done].
      * intros [H|(q & Hq & Hn & Ha)]; [by left|].
        apply elem_of_cons in Hq as [->|Hq]; [done|].
        right. by exists q.
Qed.

(** X9: [_init_providers] creates an adapter under a name exactly when some
    enabled definition of that name has [goose], [claude_cli] or [ollama] as
    its adapter; a disabled provider, or one with another adapter name, gets
    none and can never be executed. *)
Theorem adapters_of_enabled_known_classes (defs : list ProviderDefinition)
    (n : string) :
  is_Some (MasonDaemon._init_providers defs !! n) <->
  exists d, d ∈ defs /\ enabled d = true /\ name d = n /\
            (adapter d = "goose" \/ adapter d = "claude_cli" \/
             adapter d = "ollama")%string.
Proof.
  unfold MasonDaemon._init_providers. rewrite _init_providers_fold.
  rewrite lookup_empty. split.
  - intros [[? H]|(d & Hd & Hn & Ha)]; [discriminate|].
    apply elem_of_enabled in Hd as [Hd He].
    exists d. repeat split; try done.
    unfold MasonDaemon.provider_classes in Ha.
    rewrite !elem_of_cons, elem_of_nil in Ha. tauto.
  - intros (d & Hd & He & Hn & Ha). right. exists d.
    split.
    + unfold ProviderRegistry.get_enabled_providers.
      rewrite elem_of_sort_by, list_elem_of_In, filter_In, <- list_elem_of_In. done.
    + split; [done|]. unfold MasonDaemon.provider_classes.
      rewrite !elem_of_cons. tauto.
Qed.

(** ** MasonDaemon, further *)

Lemma context_after_nil c : context_after c [] [] = c.
Proof.
  unfold context_after. destruct c. cbn. rewrite app_nil_r. f_equal. lia.
Qed.

Lemma context_after_app c n1 a1 n2 a2 :
  context_after (context_after c n1 a1) n2 a2 = context_after c (n1 ++ n2) (a1 ++ a2).
Proof.
  unfold context_after. cbn. rewrite attempts_consumed_app, app_assoc.
  f_equal. lia.
Qed.

Lemma consumed_cases b :
  (execution_status b = "success"%string -> consumed b = 0) /\
  (execution_status b = "provider_failure"%string -> consumed b = 0) /\
  (execution_status b <> "success"%string ->
   execution_status b <> "provider_failure"%string -> consumed b = 1).
Proof.
  unfold consumed. repeat split.
  - by intros ->.
  - by intros ->.
  - intros H1 H2.
    destruct (String.eqb_spec (execution_status b) "success"); [done|].
    by destruct (String.eqb_spec (execution_status b) "provider_failure").
Qed.

Lemma context_after_one c n b :
  context_after c [(n, b)] [n]
  = {| ctx_task_id := ctx_task_id c; attempt := attempt c + consumed b;
       ctx_max_attempts := ctx_max_attempts c;
       providers_tried := providers_tried c ++ [n];
       last_failure_reason := last_failure_reason c; is_retry := is_retry c |}.
Proof. unfold context_after. cbn. f_equal. lia. Qed.

Section EngineMore.

Variable config : Config.
Variable _definitions : list ProviderDefinition.
Variable _providers : gmap string string.
Variable world : World.

Abbreviation select := (ProviderSelector.select config _definitions world).
Abbreviation report_result := (ProviderSelector.report_result config world).
Abbreviation handle_result := (MasonDaemon.handle_result config world).
Abbreviation iteration := (MasonDaemon.iteration config _definitions _providers world).
Abbreviation loop := (MasonDaemon.loop config _definitions _providers world).
Abbreviation _execute_task :=
  (MasonDaemon._execute_task config _definitions _providers world).

(** A provider that [select] returns is one of the definitions. *)
Lemma select_in_definitions ctx s d s' :
  select ctx s = (Ok (Some d), s') -> d ∈ _definitions.
Proof.
  intros H.
  destruct (ProviderRegistry.available_at _definitions (_states s)
              (datetime_now world (tick s))) as [avail|e] eqn:Ha.
  - eapply available_at_sub; [exact Ha|]. by eapply select_member.
  - exfalso. revert H. unfold ProviderSelector.select. unfold_M.
    rewrite (get_available_providers_eq _definitions world s), Ha. discriminate.
Qed.

(** What handling a result does to context, history and registry. *)
Lemma handle_result_cases n b s :
  exists r s' s2,
    handle_result n b s = (r, s') /\
    invocations s' = invocations s /\
    _states s2 = _states s /\
    ((execution_status b = "success"%string /\ r = Ok Return /\
      context s' = context s /\
      _states s' = _states (ProviderRegistry.mark_success world n s2).2)
     \/
     (execution_status b = "provider_failure"%string /\ r = Ok Continue /\
      context s' = context_after (context s) [(n, b)] [n] /\
      _states s' =
        _states (ProviderRegistry.mark_failure config world n (is_rate_limit b) s2).2)
     \/
     (execution_status b <> "success"%string /\
      execution_status b <> "provider_failure"%string /\ r = Ok Continue /\
      context s' = context_after (context s) [(n, b)] [n] /\
      _states s' =
        _states (ProviderRegistry.mark_failure config world n false s2).2)
     \/
     (execution_status b = "provider_failure"%string /\
      is_rate_limit b = true /\ r = Raise OverflowError /\
      context s' = context s /\
      _states s' =
        _states (ProviderRegistry.mark_failure config world n true s2).2 /\
      exists t, datetime_add (datetime_now world t)
                  (Config.rate_limit_cooldown config) = Raise OverflowError)).
Proof.
  unfold MasonDaemon.handle_result.
  unfold mbind at 1. unfold M_bind at 1. unfold external at 1.
  set (s1 := advance s).
  assert (exists s2, (match complete_run world (tick s) with
                      | Ok _ => mret tt
                      | Raise _ => logger complete_run_failed
                      end) s1 = (Ok tt, s2) /\ context s2 = context s /\
                     invocations s2 = invocations s /\ _states s2 = _states s)
    as (s2 & E2 & Hc2 & Hi2 & Hs2).
  { destruct (complete_run world (tick s)); eexists; (split; [reflexivity|done]). }
  unfold mbind at 1. unfold M_bind at 1. rewrite E2.
  unfold ProviderSelector.report_result.
  destruct (consumed_cases b) as (Cs & Cp & Co).
  destruct (String.eqb_spec (execution_status b) "success") as [Es|Es].
  - destruct (report_result_effect config world n true false s2)
      as (r3 & s3 & E3 & [->|(_ & [=] & _)] & Hc3 & Hi3 & _).
    unfold ProviderSelector.report_result in E3.
    unfold mbind at 1. unfold M_bind at 1. rewrite E3. unfold_M. cbn.
    eexists _, _, s2. split; [reflexivity|]. cbn.
    rewrite Hc3, Hi3, Hc2, Hi2. split; [done|]. split; [done|]. left.
    by rewrite E3.
  - destruct (String.eqb_spec (execution_status b) "provider_failure") as [Ep|Ep].
    + destruct (report_result_effect config world n false (is_rate_limit b) s2)
        as (r3 & s3 & E3 & [->|(-> & _ & Hrl & Hd)] & Hc3 & Hi3 & _).
      * unfold ProviderSelector.report_result in E3.
        unfold mbind at 1. unfold M_bind at 1. rewrite E3.
        unfold MasonDaemon.tried_append, MasonDaemon.get_context. unfold_M. cbn.
        eexists _, _, s2. split; [reflexivity|]. cbn.
        rewrite Hc3, Hi3, Hc2, Hi2. split; [done|]. split; [done|]. right. left.
        rewrite E3, context_after_one, (Cp Ep). repeat split; try done.
        f_equal. lia.
      * unfold ProviderSelector.report_result in E3.
        unfold mbind at 1. unfold M_bind at 1. rewrite E3.
        eexists _, _, s2. split; [reflexivity|].
        rewrite Hc3, Hi3, Hc2, Hi2. split; [done|]. split; [done|].
        right. right. right. rewrite Hrl in E3. rewrite E3.
        by repeat split.
    + destruct (report_result_effect config world n false false s2)
        as (r3 & s3 & E3 & [->|(_ & _ & [=] & _)] & Hc3 & Hi3 & _).
      unfold ProviderSelector.report_result in E3.
      unfold mbind at 1. unfold M_bind at 1. rewrite E3.
      unfold MasonDaemon.tried_append, MasonDaemon.incr_attempt,
        MasonDaemon.get_context. unfold_M. cbn.
      eexists _, _, s2. split; [reflexivity|]. cbn.
      rewrite Hc3, Hi3, Hc2, Hi2. split; [done|]. split; [done|]. right. right.
      left. rewrite E3, context_after_one, (Co Es Ep). repeat split; done.
Qed.

(** The ways one turn of the loop can go. *)
Lemma iteration_cases pkt s :
  exists r s',
    iteration pkt s = (r, s') /\
    ((* nothing was invoked, nothing recorded *)
     (context s' = context s /\ invocations s' = invocations s /\
      _states s' = _states s /\ r <> Ok Continue /\ r <> Ok Return /\
      forall e, r = Raise e -> select (context s) s = (Raise e, s'))
     \/
     (* the selected provider has no adapter *)
     (exists d s1,
        select (context s) s = (Ok (Some d), s1) /\
        _providers !! name d = None /\ r = Ok Continue /\
        context s' = context_after (context s) [] [name d] /\
        invocations s' = invocations s /\ _states s' = _states s)
     \/
     (* the selected provider was invoked *)
     (exists d s1 p t b s2,
        select (context s) s = (Ok (Some d), s1) /\
        is_Some (_providers !! name d) /\ pkt = Some p /\
        b = generate world (name d) p t /\
        invocations s' = invocations s ++ [(name d, b)] /\
        _states s2 = _states s /\
        ((execution_status b = "success"%string /\ r = Ok Return /\
          context s' = context s /\
          _states s' = _states (ProviderRegistry.mark_success world (name d) s2).2)
         \/
         (execution_status b <> "success"%string /\ r = Ok Continue /\
          context s' = context_after (context s) [(name d, b)] [name d] /\
          exists rl,
            _states s' =
              _states (ProviderRegistry.mark_failure config world (name d) rl s2).2)
         \/
         (* reporting the rate limit raised *)
         (execution_status b = "provider_failure"%string /\
          is_rate_limit b = true /\ r = Raise OverflowError /\
          context s' = context s /\
          _states s' =
            _states (ProviderRegistry.mark_failure config world (name d) true s2).2 /\
          exists t', datetime_add (datetime_now world t')
                       (Config.rate_limit_cooldown config)
                     = Raise OverflowError)))).
Proof.
  unfold MasonDaemon.iteration.
  unfold mbind at 1. unfold M_bind at 1. unfold MasonDaemon.get_context at 1.
  unfold mbind at 1. unfold M_bind at 1.
  pose proof (quiet_select config _definitions world (context s) s) as (Hs1 & Hc1 & Hi1).
  destruct (select (context s) s) as [[[d|]|e] s1] eqn:Esel; cbn [snd] in *.
  - destruct (_providers !! name d) as [cls|] eqn:Ep.
    + unfold mbind at 1. unfold M_bind at 1. unfold external at 1.
      destruct (start_run world (tick s1)) as [run_id|e].
      * unfold MasonDaemon.get_context.
        destruct pkt as [packet|].
        -- unfold_M. cbn.
           match goal with
           | |- context [handle_result ?n ?b ?s0] =>
               destruct (handle_result_cases n b s0)
                 as (ctl & s' & s2 & E & Hi & Hs2 & Hcase)
           end.
           fold handle_result. rewrite E. cbn in *.
           eexists _, _. split; [reflexivity|]. right. right.
           eexists d, s1, packet, _, _, s2.
           split; [reflexivity|]. split; [by eexists|]. split; [reflexivity|].
           split; [reflexivity|]. rewrite Hi, Hi1. split; [done|].
           split; [congruence|].
           destruct Hcase as [(Hst & -> & Hc & Hss)|[(Hst & -> & Hc & Hss)|
                              [(Hst & Hst' & -> & Hc & Hss)|
                               (Hst & Hrl & -> & Hc & Hss & Hd)]]].
           ++ left. rewrite Hc, Hc1. done.
           ++ right. left. rewrite Hc, Hc1. repeat split; try done.
              ** rewrite Hst. discriminate.
              ** eauto.
           ++ right. left. rewrite Hc, Hc1. repeat split; try done. eauto.
           ++ right. right. rewrite Hc, Hc1. by repeat split.
        -- unfold_M. cbn. eexists _, _. split; [reflexivity|]. left. cbn.
           by rewrite Hc1, Hi1, Hs1.
      * unfold_M. cbn. eexists _, _. split; [reflexivity|]. left. cbn.
        by rewrite Hc1, Hi1, Hs1.
    + unfold MasonDaemon.tried_append, MasonDaemon.get_context. unfold_M. cbn.
      eexists _, _. split; [reflexivity|]. right. left.
      exists d, s1. cbn. rewrite Hc1, Hi1, Hs1. repeat split; try done.
      unfold context_after. cbn. f_equal. lia.
  - unfold_M. cbn. eexists _, _. split; [reflexivity|]. left. cbn.
    by rewrite Hc1, Hi1, Hs1.
  - eexists _, _. split; [reflexivity|]. left. rewrite Hc1, Hi1, Hs1.
    repeat split; try done. by intros ? [= <-].
Qed.

Lemma consumed_range b : 0 <= consumed b <= 1.
Proof.
  unfold consumed. destruct (String.eqb _ _); [lia|].
  destruct (String.eqb _ _); lia.
Qed.

(** The state of a provider after [mark_success]. *)
Lemma mark_success_state n s st :
  _states (ProviderRegistry.mark_success world n s).2 !! n = Some st ->
  consecutive_failures st = 0 /\ rate_limited_until st = None /\
  is_Some (last_success st).
Proof.
  unfold ProviderRegistry.mark_success. unfold_M. cbn.
  destruct (_states s !! n) as [st0|] eqn:E; cbn.
  - rewrite lookup_insert_eq. intros [= <-]. cbn. eauto.
  - by rewrite E.
Qed.

(** What a run of the loop leaves behind. The names of the providers
    whose invocation did not succeed are appended to [providers_tried]; the
    one exception is an invocation whose report raised, which ends the run
    before its name is appended. *)
Lemma loop_trace fuel pkt s :
  exists r s' new added,
    loop fuel pkt s = (r, s') /\
    invocations s' = invocations s ++ new /\
    context s' = context_after (context s) new added /\
    (sublist (map fst (List.filter unsuccessful new)) added \/
     exists pre n b,
       new = pre ++ [(n, b)] /\ r = Raise OverflowError /\
       execution_status b = "provider_failure"%string /\
       is_rate_limit b = true /\
       sublist (map fst (List.filter unsuccessful pre)) added) /\
    same_providers (_states s) (_states s') /\
    (r = Ok Succeeded ->
     exists pre n b,
       new = pre ++ [(n, b)] /\ execution_status b = "success"%string /\
       Forall (fun x => unsuccessful x = true) pre /\
       forall st, _states s' !! n = Some st ->
         consecutive_failures st = 0 /\ rate_limited_until st = None /\
         is_Some (last_success st)) /\
    (r <> Ok Succeeded -> Forall (fun x => unsuccessful x = true) new) /\
    attempt (context s') <= Z.max (attempt (context s)) (ctx_max_attempts (context s)) /\
    (pkt = None -> new = [] /\ _states s' = _states s).
Proof.
  assert (Hstop : forall s, exists s',
            MasonDaemon.exhausted s = (Ok Exhausted, s') /\
            invocations s' = invocations s ++ [] /\
            context s' = context_after (context s) [] [] /\
            _states s' = _states s).
  { intros s0. unfold MasonDaemon.exhausted, MasonDaemon.get_context. unfold_M. cbn.
    eexists. split; [reflexivity|]. cbn. by rewrite app_nil_r, context_after_nil. }
  assert (Hidle : forall (r : result outcome) s s',
            r <> Ok Succeeded ->
            invocations s' = invocations s ++ [] ->
            context s' = context_after (context s) [] [] ->
            _states s' = _states s ->
            invocations s' = invocations s ++ [] /\
            context s' = context_after (context s) [] [] /\
            (sublist (map fst (List.filter unsuccessful []))
               ([] : list string) \/
             exists pre n b,
               [] = pre ++ [(n, b)] /\ r = Raise OverflowError /\
               execution_status b = "provider_failure"%string /\
               is_rate_limit b = true /\
               sublist (map fst (List.filter unsuccessful pre)) []) /\
            same_providers (_states s) (_states s') /\
            (r = Ok Succeeded ->
             exists pre n b,
               [] = pre ++ [(n, b)] /\ execution_status b = "success"%string /\
               Forall (fun x => unsuccessful x = true) pre /\
               forall st, _states s' !! n = Some st ->
                 consecutive_failures st = 0 /\ rate_limited_until st = None /\
                 is_Some (last_success st)) /\
            (r <> Ok Succeeded ->
             Forall (fun x : string * ArtifactBundle => unsuccessful x = true) []) /\
            attempt (context s')
              <= Z.max (attempt (context s)) (ctx_max_attempts (context s)) /\
            (pkt = None -> [] = ([] : list (string * ArtifactBundle)) /\
                           _states s' = _states s)).
  { intros r s0 s' Hr Hi Hc Hs. split; [done|]. split; [done|].
    split; [by left|]. split; [rewrite Hs; apply same_providers_refl|].
    split; [done|]. split; [done|]. split; [|done].
    rewrite Hc, context_after_nil. lia. }
  revert s. induction fuel as [|fuel IH]; intros s;
    cbn [MasonDaemon.loop]; unfold mbind at 1; unfold M_bind at 1;
    unfold MasonDaemon.get_context at 1;
    destruct (Z.ltb_spec (attempt (context s)) (ctx_max_attempts (context s)))
      as [Hlt|Hge].
  - exists (Ok OutOfFuel), s, [], []. split; [reflexivity|].
    apply Hidle; [done | by rewrite app_nil_r | by rewrite context_after_nil | done].
  - destruct (Hstop s) as (s' & -> & Hi & Hc & Hs).
    exists (Ok Exhausted), s', [], []. split; [reflexivity|]. by apply Hidle.
  - unfold mbind at 1. unfold M_bind at 1.
    destruct (iteration_cases pkt s) as (r & s1 & -> & Hcase).
    destruct Hcase as [(Hc & Hi & Hs & Hr1 & Hr2 & Hr3)|[(d & sx & _ & Hp & -> & Hc & Hi & Hs)|
      (d & sx & p & t & b & s2 & _ & Hp & -> & Hb & Hi & Hs2 & Hres)]].
    + destruct r as [[| |]|e]; try done.
      * destruct (Hstop s1) as (s' & -> & Hi' & Hc' & Hs').
        exists (Ok Exhausted), s', [], []. split; [reflexivity|].
        apply Hidle; [done | | | congruence].
        -- by rewrite Hi', app_nil_r, Hi, app_nil_r.
        -- by rewrite Hc', !context_after_nil.
      * exists (Raise e), s1, [], []. split; [reflexivity|].
        apply Hidle; [done | by rewrite app_nil_r | by rewrite context_after_nil
                     | done].
    + destruct (IH s1) as (r & s' & new & added & -> & Hi' & Hc' & Hsub & Hsame
                           & Hsucc & Hfail & Hatt & Hnone).
      assert (Hbound : attempt (context s')
                       <= Z.max (attempt (context s)) (ctx_max_attempts (context s))).
      { rewrite Hc in Hatt. cbn in Hatt. lia. }
      exists r, s', new, (name d :: added). split; [reflexivity|].
      rewrite Hi', Hi. rewrite Hc', Hc, context_after_app in Hbound |- *.
      cbn [app] in Hbound |- *. rewrite Hs in *.
      split; [done|]. split; [done|]. split.
      { destruct Hsub as [Hsub|(pre & n & b & -> & -> & Hb & Hrl & Hsub)].
        - left. by apply sublist_cons.
        - right. exists pre, n, b. repeat split; try done. by apply sublist_cons. }
      split; [done|]. split; [done|]. split; [done|].
      split; [exact Hbound | exact Hnone].
    + destruct Hres as [(Hst & -> & Hc & Hss)|[(Hst & -> & Hc & rl & Hss)|
                        (Hst & Hrl & -> & Hc & Hss & _)]].
      * exists (Ok Succeeded), s1, [(name d, b)], []. split; [reflexivity|].
        rewrite Hi, Hc.
        split; [done|]. split.
        { unfold context_after. cbn. rewrite (proj1 (consumed_cases b) Hst).
          destruct (context s). cbn. f_equal; [lia | by rewrite app_nil_r]. }
        split.
        { left. cbn. unfold unsuccessful. cbn. rewrite Hst. cbn. constructor. }
        split.
        { rewrite Hss, <- Hs2. apply mark_success_same. }
        split.
        { intros _. exists [], (name d), b. split; [done|]. split; [done|].
          split; [constructor|]. intros st. rewrite Hss. apply mark_success_state. }
        split; [done|]. split; [lia|]. discriminate.
      * destruct (IH s1) as (r & s' & new & added & -> & Hi' & Hc' & Hsub & Hsame
                             & Hsucc & Hfail & Hatt & Hnone).
        assert (Hu : unsuccessful (name d, b) = true).
        { unfold unsuccessful. cbn.
          by destruct (String.eqb_spec (execution_status b) "success"). }
        assert (Hbound : attempt (context s')
                         <= Z.max (attempt (context s)) (ctx_max_attempts (context s))).
        { rewrite Hc in Hatt. cbn in Hatt. pose proof (consumed_range b). lia. }
        exists r, s', ((name d, b) :: new), (name d :: added).
        split; [reflexivity|].
        rewrite Hi', Hi, <- app_assoc.
        rewrite Hc', Hc, context_after_app in Hbound |- *.
        cbn [app] in Hbound |- *.
        split; [done|]. split; [done|]. split.
        { destruct Hsub as [Hsub|(pre & n & b' & -> & -> & Hb' & Hrl & Hsub)].
          - left. cbn [List.filter]. rewrite Hu. cbn. by apply sublist_skip.
          - right. exists ((name d, b) :: pre), n, b'. repeat split; try done.
            cbn [List.filter]. rewrite Hu. cbn. by apply sublist_skip. }
        split.
        { eapply same_providers_trans; [|exact Hsame].
          rewrite Hss, <- Hs2. apply mark_failure_same. }
        split.
        { intros Hr. destruct (Hsucc Hr) as (pre & n & b' & -> & Hb' & Hpre & Hst').
          exists ((name d, b) :: pre), n, b'. split; [done|]. split; [done|].
          split; [by constructor | done]. }
        split; [intros Hr; constructor; [done | by apply Hfail]|].
        split; [exact Hbound|]. discriminate.
      * assert (Hu : unsuccessful (name d, b) = true).
        { unfold unsuccessful. cbn. by rewrite Hst. }
        exists (Raise OverflowError), s1, [(name d, b)], [].
        split; [reflexivity|]. rewrite Hi, Hc.
        split; [done|]. split.
        { unfold context_after. cbn.
          rewrite (proj1 (proj2 (consumed_cases b)) Hst).
          destruct (context s). cbn. f_equal; [lia | by rewrite app_nil_r]. }
        split.
        { right. exists [], (name d), b. repeat split; try done; try constructor. }
        split.
        { rewrite Hss, <- Hs2. apply mark_failure_same. }
        split; [discriminate|]. split; [by repeat constructor|].
        split; [lia | discriminate].
  - destruct (Hstop s) as (s' & -> & Hi & Hc & Hs).
    exists (Ok Exhausted), s', [], []. split; [reflexivity|]. by apply Hidle.
Qed.

Lemma _execute_task_loop fuel ctx pkt retry s :
  _execute_task fuel ctx pkt retry s = loop fuel pkt (set_context ctx s).2.
Proof. reflexivity. Qed.

(** X10: a context that enters [_execute_task] with its attempts used up
    (as a retry record can) is not dispatched at all: no provider is
    selected, no service is called, no clock is read; the only effect is the
    [task_exhausted] record in the log. *)
Theorem exhausted_on_entry (fuel : nat) (ctx : SelectionContext)
    (pkt : option TaskPacket) (retry : bool) (s : Daemon) :
  ctx_max_attempts ctx <= attempt ctx ->
  _execute_task fuel ctx pkt retry s
  = (Ok Exhausted,
     logged (task_exhausted (attempt ctx) (providers_tried ctx))
            (set_context ctx s).2).
Proof.
  intros H. rewrite _execute_task_loop.
  destruct fuel; cbn [MasonDaemon.loop]; unfold mbind at 1; unfold M_bind at 1;
    unfold MasonDaemon.get_context at 1; cbn [set_context snd context];
    apply Z.ltb_ge in H; rewrite H; reflexivity.
Qed.

(** X11: without a task packet, which is how [_process_retry_queue] calls
    the engine, no provider is ever invoked, no result is reported to the
    registry and [attempt] stays as it was, however long the loop runs; the
    run never ends as a success. *)
Theorem retry_without_packet_invokes_nothing (fuel : nat)
    (ctx : SelectionContext) (retry : bool) (s : Daemon) :
  exists r s',
    _execute_task fuel ctx None retry s = (r, s') /\
    invocations s' = invocations s /\
    _states s' = _states s /\
    attempt (context s') = attempt ctx /\
    ctx_max_attempts (context s') = ctx_max_attempts ctx /\
    r <> Ok Succeeded.
Proof.
  rewrite _execute_task_loop.
  destruct (loop_trace fuel None (set_context ctx s).2)
    as (r & s' & new & added & -> & Hi & Hc & _ & _ & Hsucc & _ & _ & Hnone).
  destruct (Hnone eq_refl) as [-> Hs]. exists r, s'.
  rewrite Hi, Hs, Hc, app_nil_r. cbn. repeat split; try lia.
  intros Hr. destruct (Hsucc Hr) as (pre & n & b & Hn & _). by destruct pre.
Qed.

(** X12: a run ends as a success exactly when its last invocation answered
    [success]; every invocation before the last one, and every invocation of
    a run that ends otherwise, answered something else. After a success the
    provider that answered has, if the registry knows it, no consecutive
    failure, no cooldown and a time of last success. *)
Theorem success_is_the_last_invocation (fuel : nat) (ctx : SelectionContext)
    (pkt : option TaskPacket) (retry : bool) (s : Daemon) :
  exists r s' new,
    _execute_task fuel ctx pkt retry s = (r, s') /\
    invocations s' = invocations s ++ new /\
    (r = Ok Succeeded ->
     exists pre n b,
       new = pre ++ [(n, b)] /\ execution_status b = "success"%string /\
       Forall (fun x => execution_status x.2 <> "success"%string) pre /\
       forall st, _states s' !! n = Some st ->
         consecutive_failures st = 0 /\ rate_limited_until st = None /\
         is_Some (last_success st)) /\
    (r <> Ok Succeeded ->
     Forall (fun x => execution_status x.2 <> "success"%string) new).
Proof.
  rewrite _execute_task_loop.
  destruct (loop_trace fuel pkt (set_context ctx s).2)
    as (r & s' & new & added & -> & Hi & _ & _ & _ & Hsucc & Hfail & _).
  assert (Hu : forall l : list (string * ArtifactBundle),
             Forall (fun x => unsuccessful x = true) l ->
             Forall (fun x => execution_status x.2 <> "success"%string) l).
  { intros l Hl. eapply Forall_impl; [exact Hl|]. intros x. unfold unsuccessful.
    destruct (String.eqb_spec (execution_status x.2) "success"); done. }
  exists r, s', new. split; [reflexivity|]. split; [exact Hi|]. split.
  - intros Hr. destruct (Hsucc Hr) as (pre & n & b & -> & Hb & Hpre & Hst).
    exists pre, n, b. split; [done|]. split; [done|].
    split; [by apply Hu | exact Hst].
  - intros Hr. by apply Hu, Hfail.
Qed.

(** X13: of the context, a run changes [attempt] and [providers_tried]
    only. [providers_tried] keeps what it held and gets names appended. In a
    run that returns, the providers of the invocations that did not answer
    [success] are among the appended names, in the order of the
    invocations. In a run that ends with an exception the same holds, except
    when the exception is the [OverflowError] of reporting a rate limit
    whose cooldown does not end on a date: the report comes before the
    append, so that the last provider invoked, which answered a rate-limited
    [provider_failure], is not appended, while all before it are. *)
Theorem providers_tried_only_grows (fuel : nat) (ctx : SelectionContext)
    (pkt : option TaskPacket) (retry : bool) (s : Daemon) :
  exists r s' new added,
    _execute_task fuel ctx pkt retry s = (r, s') /\
    invocations s' = invocations s ++ new /\
    providers_tried (context s') = providers_tried ctx ++ added /\
    (forall o, r = Ok o ->
       sublist (map fst (List.filter unsuccessful new)) added) /\
    (sublist (map fst (List.filter unsuccessful new)) added \/
     exists pre n b,
       new = pre ++ [(n, b)] /\ r = Raise OverflowError /\
       execution_status b = "provider_failure"%string /\
       is_rate_limit b = true /\
       sublist (map fst (List.filter unsuccessful pre)) added) /\
    ctx_task_id (context s') = ctx_task_id ctx /\
    ctx_max_attempts (context s') = ctx_max_attempts ctx /\
    last_failure_reason (context s') = last_failure_reason ctx /\
    is_retry (context s') = is_retry ctx.
Proof.
  rewrite _execute_task_loop.
  destruct (loop_trace fuel pkt (set_context ctx s).2)
    as (r & s' & new & added & -> & Hi & Hc & Hsub & _).
  exists r, s', new, added. rewrite Hc.
  split; [reflexivity|]. split; [exact Hi|]. split; [reflexivity|].
  split; [|split; [exact Hsub | by repeat split]].
  intros o ->. by destruct Hsub as [Hsub|(pre & n & b & _ & [=] & _)].
Qed.

(** X14: a run never takes [attempt] beyond [max_attempts] (nor moves it
    when it starts at or beyond), so the invocations that answer [failure]
    are at most the attempts that were left. *)
Theorem attempt_stays_within_max (fuel : nat) (ctx : SelectionContext)
    (pkt : option TaskPacket) (retry : bool) (s : Daemon) :
  exists r s' new,
    _execute_task fuel ctx pkt retry s = (r, s') /\
    invocations s' = invocations s ++ new /\
    attempt ctx <= attempt (context s')
      <= Z.max (attempt ctx) (ctx_max_attempts ctx) /\
    Z.of_nat (count_status "failure" new)
      <= Z.max 0 (ctx_max_attempts ctx - attempt ctx).
Proof.
  rewrite _execute_task_loop.
  destruct (loop_trace fuel pkt (set_context ctx s).2)
    as (r & s' & new & added & -> & Hi & Hc & _ & _ & _ & _ & Hatt & _).
  exists r, s', new. split; [reflexivity|]. split; [exact Hi|].
  rewrite Hc in *. cbn in *. rewrite attempts_consumed_count in *. lia.
Qed.

(** X15: whatever a run does, the registry holds the same providers
    afterwards, each under its name and with the [available] flag it had:
    the engine never takes a provider out of service or puts one back other
    than through a cooldown. *)
Theorem engine_keeps_providers_and_flags (fuel : nat) (ctx : SelectionContext)
    (pkt : option TaskPacket) (retry : bool) (s : Daemon) :
  same_providers (_states s) (_states (_execute_task fuel ctx pkt retry s).2).
Proof.
  rewrite _execute_task_loop.
  destruct (loop_trace fuel pkt (set_context ctx s).2)
    as (r & s' & new & added & -> & _ & _ & _ & Hsame & _).
  exact Hsame.
Qed.

Lemma loop_ends_without_provider_failure fuel pkt s :
  (forall d, d ∈ _definitions -> is_Some (_providers !! name d)) ->
  (forall n p t,
     execution_status (generate world n p t) <> "provider_failure"%string) ->
  (Z.to_nat (ctx_max_attempts (context s) - attempt (context s)) <= fuel)%nat ->
  exists r s',
    loop fuel pkt s = (r, s') /\ r <> Ok OutOfFuel /\
    (length (invocations s') <=
     length (invocations s)
     + Z.to_nat (ctx_max_attempts (context s) - attempt (context s)))%nat.
Proof.
  intros Hadapters Hnopf.
  assert (Hstop : forall s, exists s',
            MasonDaemon.exhausted s = (Ok Exhausted, s') /\
            invocations s' = invocations s).
  { intros s0. unfold MasonDaemon.exhausted, MasonDaemon.get_context. unfold_M. cbn.
    eauto. }
  revert s. induction fuel as [|fuel IH]; intros s Hfuel;
    cbn [MasonDaemon.loop]; unfold mbind at 1; unfold M_bind at 1;
    unfold MasonDaemon.get_context at 1;
    destruct (Z.ltb_spec (attempt (context s)) (ctx_max_attempts (context s)))
      as [Hlt|Hge]; try lia.
  - destruct (Hstop s) as (s' & -> & Hi). eexists _, _.
    split; [reflexivity|]. split; [done|]. rewrite Hi. lia.
  - unfold mbind at 1. unfold M_bind at 1.
    destruct (iteration_cases pkt s) as (r & s1 & -> & Hcase).
    destruct Hcase as [(Hc & Hi & Hs & Hr1 & Hr2 & Hr3)|[(d & sx & Hsel & Hp & _)|
      (d & sx & p & t & b & s2 & _ & Hp & -> & Hb & Hi & Hs2 & Hres)]].
    + destruct r as [[| |]|e]; try done.
      * destruct (Hstop s1) as (s' & -> & Hi'). eexists _, _.
        split; [reflexivity|]. split; [done|]. rewrite Hi', Hi. lia.
      * eexists _, _. split; [reflexivity|]. split; [done|]. rewrite Hi. lia.
    + exfalso. apply select_in_definitions in Hsel.
      destruct (Hadapters d Hsel) as [? Hd]. congruence.
    + destruct Hres as [(Hst & -> & Hc & _)|[(Hst & -> & Hc & _)|(Hst & _)]].
      3:{ exfalso. rewrite Hb in Hst. by apply Hnopf in Hst. }
      * eexists _, _. split; [reflexivity|]. split; [done|].
        rewrite Hi, length_app. cbn. lia.
      * assert (Hone : consumed b = 1).
        { apply consumed_cases; [done|]. rewrite Hb. apply Hnopf. }
        destruct (IH s1) as (r & s' & -> & Hr & Hlen).
        { rewrite Hc, context_after_one, Hone. cbn. lia. }
        eexists _, _. split; [reflexivity|]. split; [done|].
        rewrite Hc, context_after_one, Hone, Hi, length_app in Hlen.
        cbn in Hlen. lia.
  - destruct (Hstop s) as (s' & -> & Hi). eexists _, _.
    split; [reflexivity|]. split; [done|]. rewrite Hi. lia.
Qed.

(** X16: when every definition has an adapter and no adapter answers
    [provider_failure], the loop ends within as many iterations as there are
    attempts left, and makes at most that many invocations. *)
Theorem ends_when_no_provider_failure (fuel : nat) (ctx : SelectionContext)
    (pkt : option TaskPacket) (retry : bool) (s : Daemon) :
  (forall d, d ∈ _definitions -> is_Some (_providers !! name d)) ->
  (forall n p t,
     execution_status (generate world n p t) <> "provider_failure"%string) ->
  (Z.to_nat (ctx_max_attempts ctx - attempt ctx) <= fuel)%nat ->
  exists r s',
    _execute_task fuel ctx pkt retry s = (r, s') /\
    r <> Ok OutOfFuel /\
    (length (invocations s') <=
     length (invocations s) + Z.to_nat (ctx_max_attempts ctx - attempt ctx))%nat.
Proof.
  intros Ha Hn Hf. rewrite _execute_task_loop.
  exact (loop_ends_without_provider_failure fuel pkt (set_context ctx s).2 Ha Hn Hf).
Qed.

End EngineMore.

(** ** The order of scores *)

Lemma SFltb_trans a b c :
  SFltb a b = true -> SFltb b c = true -> SFltb a c = true.
Proof.
  unfold SFltb.
  destruct a as [sa|sa| |sa ma ea], b as [sb|sb| |sb mb eb],
    c as [sc|sc| |sc mc ec]; cbn; try discriminate;
    repeat match goal with s : bool |- _ => destruct s end;
    cbn; try discriminate; try reflexivity;
    change (PosDef.Pos.compare_cont Eq ?p ?q) with (Pos.compare p q);
    destruct (Z.compare_spec ea eb), (Z.compare_spec eb ec),
      (Z.compare_spec ea ec); try lia; try discriminate; try reflexivity;
    subst;
    destruct (Pos.compare_spec ma mb), (Pos.compare_spec mb mc),
      (Pos.compare_spec ma mc); cbn; try lia; try discriminate; try reflexivity.
Qed.

Lemma SFltb_cotrans a b c :
  SFcompare b b <> None ->
  SFltb a c = true -> SFltb a b = true \/ SFltb b c = true.
Proof.
  unfold SFltb.
  destruct a as [sa|sa| |sa ma ea], b as [sb|sb| |sb mb eb],
    c as [sc|sc| |sc mc ec]; cbn; intros Hb; try discriminate; try done;
    repeat match goal with s : bool |- _ => destruct s end;
    cbn; try discriminate; try (by left); try (by right);
    change (PosDef.Pos.compare_cont Eq ?p ?q) with (Pos.compare p q);
    destruct (Z.compare_spec ea eb), (Z.compare_spec eb ec),
      (Z.compare_spec ea ec); try lia; try discriminate;
      try (by left); try (by right);
    subst;
    destruct (Pos.compare_spec ma mb), (Pos.compare_spec mb mc),
      (Pos.compare_spec ma mc); cbn; try lia; try discriminate;
      try (by left); try (by right).
Qed.

Lemma float_ltb_trans (x y z : float) :
  (x <? y)%float = true -> (y <? z)%float = true -> (x <? z)%float = true.
Proof. rewrite !ltb_spec. apply SFltb_trans. Qed.

Lemma float_ltb_cotrans (x y z : float) :
  is_nan y = false ->
  (x <? z)%float = true -> (x <? y)%float = true \/ (y <? z)%float = true.
Proof.
  unfold is_nan. rewrite !ltb_spec, FloatAxioms.eqb_spec, negb_false_iff. intros Hy.
  apply SFltb_cotrans. unfold SFeqb in Hy.
  by destruct (SFcompare (Prim2SF y) (Prim2SF y)).
Qed.

(** The first element of a list sorted by falling score: every element
    ahead of it in the input has a lower score, none behind it a higher
    one. *)
Lemma sort_by_score_head {A} (key : A -> float) (l : list A) h rest :
  sort_by (fun y x => (key x <? key y)%float) l = h :: rest ->
  exists pre post,
    l = pre ++ h :: post /\
    ((forall x, x ∈ l -> is_nan (key x) = false) ->
     Forall (fun x => (key x <? key h)%float = true) pre /\
     Forall (fun x => (key h <? key x)%float = false) post).
Proof.
  revert h rest. induction l as [|x l IH]; intros h rest; [discriminate|].
  unfold sort_by. cbn [foldr]. fold (sort_by (fun y x => (key x <? key y)%float) l).
  destruct (sort_by _ l) as [|h' rest'] eqn:Es.
  - assert (l = []) as ->.
    { apply Permutation_nil_r. rewrite <- Es. symmetry. apply sort_by_perm. }
    cbn. intros [= <- <-]. exists [], []. split; [done|]. intros _. by split.
  - destruct (IH h' rest' eq_refl) as (pre & post & -> & Hord).
    cbn [insert_by]. destruct (key x <? key h')%float eqn:Ex.
    + intros [= <- _]. exists (x :: pre), post. split; [done|].
      intros Hnan. destruct Hord as [Hpre Hpost].
      { intros z Hz. apply Hnan. by right. }
      split; [by constructor | done].
    + intros [= <- _]. exists [], (pre ++ h' :: post). split; [done|].
      intros Hnan. destruct Hord as [Hpre Hpost].
      { intros z Hz. apply Hnan. by right. }
      split; [constructor|].
      assert (Hh' : is_nan (key h') = false).
      { apply Hnan. right. apply elem_of_app. right. left. }
      apply Forall_app. split; [|constructor].
      * eapply Forall_impl; [exact Hpre|]. intros z Hz. cbn in Hz.
        destruct (key x <? key z)%float eqn:E; [|done].
        by rewrite (float_ltb_trans _ _ _ E Hz) in Ex.
      * exact Ex.
      * eapply Forall_impl; [exact Hpost|]. intros z Hz. cbn in Hz.
        destruct (key x <? key z)%float eqn:E; [|done].
        destruct (float_ltb_cotrans _ _ _ Hh' E); congruence.
Qed.

(** ** ProviderSelector, further *)

Section SelectorMore.

Variable config : Config.
Variable _definitions : list ProviderDefinition.
Variable world : World.

Abbreviation select := (ProviderSelector.select config _definitions world).
Abbreviation select_among := (ProviderSelector.select_among config _definitions world).
Abbreviation choose := (ProviderSelector.choose world).
Abbreviation _score_providers := (ProviderSelector._score_providers world).

Lemma _score_providers_eq C s :
  exists s1,
    _score_providers C s =
      (ProviderSelector.score_loop (_cached_stats s1) C, s1) /\
    _states s1 = _states s /\
    (forall e, get_provider_stats world (tick s) = Raise e ->
       _cached_stats s1 = _cached_stats s) /\
    (forall stats, get_provider_stats world (tick s) = Ok stats ->
       _cached_stats s1 = stats).
Proof.
  unfold ProviderSelector._score_providers, ProviderSelector._refresh_stats.
  unfold_M. cbn.
  destruct (get_provider_stats world (tick s)) as [stats|e]; cbn.
  - exists {| _states := _states s; _cached_stats := stats;
              context := context s; invocations := invocations s;
              log := log s; tick := S (tick s) |}.
    cbn. split; [reflexivity|]. split; [done|]. split; [done|].
    by intros ? [= <-].
  - exists (logged stats_refresh_failed (advance s)).
    cbn. split; [reflexivity|]. done.
Qed.

(** X17: the end of [select], which scores the candidates, sorts them by
    falling score and returns the first ([choose] here), returns a provider
    whose score no candidate exceeds, and every candidate listed ahead of it
    has a lower score: of the candidates with the best score the first one
    (the one of lowest priority number, the candidates being in that order)
    is returned. The scores are those computed from the statistics cache as
    refreshed by this call; none of them may be a NaN. *)
Theorem select_returns_best_score (C : list ProviderDefinition) (s : Daemon)
    (p : ProviderDefinition) (s' : Daemon) :
  choose C s = (Ok (Some p), s') ->
  exists s1 scored pre sc post,
    _score_providers C s = (Ok scored, s1) /\
    map fst scored = C /\
    scored = pre ++ (p, sc) :: post /\
    ((forall x, x ∈ scored -> is_nan x.2 = false) ->
     Forall (fun x => (x.2 <? sc)%float = true) pre /\
     Forall (fun x => (sc <? x.2)%float = false) post).
Proof.
  unfold ProviderSelector.choose. unfold mbind at 1. unfold M_bind at 1.
  destruct (_score_providers C s) as [[scored|e] s1] eqn:E; [|discriminate].
  cbv zeta.
  destruct (sort_by _ scored) as [|[sel sc] rest] eqn:Es; [discriminate|].
  unfold_M. intros [= <- _].
  destruct (sort_by_score_head snd scored (sel, sc) rest Es)
    as (pre & post & Hl & Hord).
  exists s1, scored, pre, sc, post. split; [reflexivity|]. split.
  - destruct (_score_providers_eq C s) as (s2 & E2 & _). rewrite E2 in E.
    injection E as E _. by apply score_loop_fst in E.
  - split; [exact Hl | exact Hord].
Qed.

Lemma available_among_raises states now (l : list ProviderDefinition) e :
  ProviderRegistry.available_among states now l = Raise e ->
  e = KeyError /\ exists d, d ∈ l /\ states !! name d = None.
Proof.
  induction l as [|d l IH]; cbn; [discriminate|].
  destruct (states !! name d) as [st|] eqn:Ed.
  - destruct (ProviderRegistry.available_among states now l) as [rest|e'];
      cbn.
    + destruct (rate_limited_until st) as [t|]; [destruct (now <? t)|];
        destruct (available st); discriminate.
    + intros [= <-]. destruct (IH eq_refl) as (-> & q & Hq & Hn).
      split; [done|]. exists q. split; [by right | done].
  - intros [= <-]. split; [done|]. exists d. split; [left | done].
Qed.

Lemma float_div_int_raises x n e :
  float_div_int x n = Raise e -> e = ZeroDivisionError \/ e = OverflowError.
Proof.
  unfold float_div_int, float_of_int. cbv zeta.
  match goal with |- context [is_infinity ?f] => destruct (is_infinity f) end;
    cbn; [intros [= <-]; by right|].
  match goal with |- context [if ?c then _ else _] => destruct c end;
    [intros [= <-]; by left | discriminate].
Qed.

Lemma score_loop_raises cached ps e :
  ProviderSelector.score_loop cached ps = Raise e ->
  exists p, p ∈ ps /\ float_div_int 1 (priority p) = Raise e.
Proof.
  induction ps as [|p ps IH]; cbn; [discriminate|].
  destruct (float_div_int 1 (priority p)) as [f|e'] eqn:Ef; cbn.
  - destruct (ProviderSelector.score_loop cached ps) as [rest|e'']; cbn;
      [discriminate|].
    intros [= <-]. destruct (IH eq_refl) as (q & Hq & Hr).
    exists q. split; [by right | done].
  - intros [= <-]. exists p. split; [left | done].
Qed.

Lemma choose_raises C s e s' :
  C <> [] ->
  choose C s = (Raise e, s') ->
  exists p, p ∈ C /\ float_div_int 1 (priority p) = Raise e.
Proof.
  intros Hne. unfold ProviderSelector.choose. unfold mbind at 1. unfold M_bind at 1.
  destruct (_score_providers_eq C s) as (s1 & -> & _).
  destruct (ProviderSelector.score_loop (_cached_stats s1) C) as [scored|e']
    eqn:E.
  - cbv zeta. destruct (sort_by _ scored) as [|[sel sc] rest] eqn:Es.
    + exfalso. apply Hne. apply score_loop_fst in E. rewrite <- E.
      assert (scored = []) as ->; [|done].
      apply Permutation_nil_r. rewrite <- Es. symmetry. apply sort_by_perm.
    + unfold_M. discriminate.
  - intros [= <- _]. by apply score_loop_raises in E.
Qed.

Lemma select_among_raises C s e s' :
  select_among C s = (Raise e, s') ->
  exists p, p ∈ C /\ float_div_int 1 (priority p) = Raise e.
Proof.
  unfold ProviderSelector.select_among. destruct C as [|c C].
  - unfold_M. discriminate.
  - unfold mbind, M_bind.
    destruct (try_except _ _ s) as [r1 s1] eqn:E1.
    apply (prefer_local_sub config _definitions world) in E1
      as (C' & -> & Hsub & Hne).
    intros Hc. apply choose_raises in Hc as (p & Hp & Hr); [|by apply Hne].
    exists p. split; [by apply Hsub | done].
Qed.

Lemma select_raises_only_scoring_errors_aux ctx s e s' :
  select ctx s = (Raise e, s') ->
  (e = KeyError /\
   exists d, d ∈ _definitions /\ enabled d = true /\
             _states s !! name d = None) \/
  ((e = ZeroDivisionError \/ e = OverflowError) /\
   exists p, p ∈ _definitions /\ enabled p = true /\
             float_div_int 1 (priority p) = Raise e).
Proof.
  intros H.
  destruct (ProviderRegistry.available_at _definitions (_states s)
              (datetime_now world (tick s))) as [avail|e'] eqn:Ha.
  - right. rewrite (select_eq config _definitions world ctx s avail Ha) in H.
    apply select_among_raises in H as (p & Hp & Hr).
    split; [by eapply float_div_int_raises|].
    exists p. split; [|split; [|done]].
    + eapply available_at_sub; [exact Ha|].
      unfold ProviderSelector.list_or in Hp.
      destruct (ProviderSelector.untried ctx avail) as [|c cs] eqn:E; [done|].
      rewrite <- E in Hp. by apply untried_spec in Hp as [? _].
    + assert (Hin : p ∈ avail).
      { unfold ProviderSelector.list_or in Hp.
        destruct (ProviderSelector.untried ctx avail) as [|c cs] eqn:E; [done|].
        rewrite <- E in Hp. by apply untried_spec in Hp as [? _]. }
      eapply available_among_sub in Hin; [|exact Ha].
      by apply elem_of_enabled in Hin as [_ ?].
  - left. revert H. unfold ProviderSelector.select. unfold_M.
    rewrite (get_available_providers_eq _definitions world s), Ha.
    intros [= <- _]. apply available_among_raises in Ha as (-> & d & Hd & Hn).
    split; [done|]. apply elem_of_enabled in Hd as [Hd He]. by exists d.
Qed.

(** X18: [select] lets two kinds of error out and no other: a [KeyError]
    when an enabled definition has no state in the registry, and the error
    of the division [1.0 / priority] for an enabled definition, which is a
    [ZeroDivisionError] or an [OverflowError]. The errors of the QA service
    are caught, and the first element of the scored list always exists. *)
Theorem select_raises_only_scoring_errors (ctx : SelectionContext)
    (s : Daemon) (e : exn) (s' : Daemon) :
  select ctx s = (Raise e, s') ->
  (e = KeyError /\
   exists d, d ∈ _definitions /\ enabled d = true /\
             _states s !! name d = None) \/
  ((e = ZeroDivisionError \/ e = OverflowError) /\
   exists p, p ∈ _definitions /\ enabled p = true /\
             float_div_int 1 (priority p) = Raise e).
Proof. apply select_raises_only_scoring_errors_aux. Qed.

(** X19: the load check can only narrow the candidates under a high load
    that it managed to read. When the QA service fails to answer, the
    failure is logged and the candidates are scored as they are; when the
    load is at or below the threshold nothing is logged and the registry is
    not asked for the local providers. *)
Theorem load_check_failure_keeps_candidates (c : ProviderDefinition)
    (cs : list ProviderDefinition) (s : Daemon) :
  (forall e, get_stats world (tick s) = Raise e ->
     select_among (c :: cs) s
     = choose (c :: cs) (logged load_check_failed (advance s))) /\
  (forall stats, get_stats world (tick s) = Ok stats ->
     total_active stats <= Config.high_load_threshold config ->
     select_among (c :: cs) s = choose (c :: cs) (advance s)).
Proof.
  split.
  - intros e He. unfold ProviderSelector.select_among, ProviderSelector.prefer_local,
      ProviderSelector.is_high_load.
    unfold mbind at 1. unfold M_bind at 1. unfold_M. cbn. by rewrite He.
  - intros stats Hs Hle. unfold ProviderSelector.select_among,
      ProviderSelector.prefer_local, ProviderSelector.is_high_load.
    unfold mbind at 1. unfold M_bind at 1. unfold_M. cbn. rewrite Hs. cbn.
    apply Z.ltb_ge in Hle. by rewrite Hle.
Qed.

End SelectorMore.

Lemma same_providers_cover defs states states' :
  same_providers states states' ->
  states_cover defs states -> states_cover defs states'.
Proof.
  intros Hs Hc d Hd. specialize (Hs (name d)). destruct (Hc d Hd) as [st Hst].
  rewrite Hst in Hs. destruct (states' !! name d); [eauto | done].
Qed.

Section EngineSafety.

Variable config : Config.
Variable _definitions : list ProviderDefinition.
Variable _providers : gmap string string.
Variable world : World.

Abbreviation select := (ProviderSelector.select config _definitions world).
Abbreviation iteration :=
  (MasonDaemon.iteration config _definitions _providers world).
Abbreviation loop := (MasonDaemon.loop config _definitions _providers world).
Abbreviation _execute_task :=
  (MasonDaemon._execute_task config _definitions _providers world).

Hypothesis scores_computable :
  forall p, p ∈ _definitions -> returns (float_div_int 1 (priority p)).
Hypothesis cooldown_ends_on_a_date :
  forall t, returns (datetime_add (datetime_now world t)
                                  (Config.rate_limit_cooldown config)).

Lemma select_completes ctx s :
  states_cover _definitions (_states s) ->
  exists r s', select ctx s = (Ok r, s').
Proof.
  intros Hc.
  destruct (select ctx s) as [[r|e] s'] eqn:E; [eauto|]. exfalso.
  apply (select_raises_only_scoring_errors_aux config _definitions world) in E
    as [(_ & d & Hd & _ & Hn)|(_ & p & Hp & _ & Hr)].
  - destruct (Hc d Hd) as [st Hst]. congruence.
  - destruct (scores_computable p Hp) as [f Hf]. congruence.
Qed.

Lemma loop_completes fuel pkt s :
  states_cover _definitions (_states s) ->
  exists o s', loop fuel pkt s = (Ok o, s').
Proof.
  assert (Hstop : forall s, exists s', MasonDaemon.exhausted s = (Ok Exhausted, s')).
  { intros s0. unfold MasonDaemon.exhausted, MasonDaemon.get_context. unfold_M.
    cbn. eauto. }
  revert s. induction fuel as [|fuel IH]; intros s Hc;
    cbn [MasonDaemon.loop]; unfold mbind at 1; unfold M_bind at 1;
    unfold MasonDaemon.get_context at 1;
    destruct (attempt (context s) <? ctx_max_attempts (context s)).
  - unfold_M. eauto.
  - destruct (Hstop s) as (s' & ->). eauto.
  - unfold mbind at 1. unfold M_bind at 1.
    destruct (iteration_cases config _definitions _providers world pkt s)
      as (r & s1 & -> & Hcase).
    destruct Hcase as [(_ & _ & Hs & Hr1 & Hr2 & Hr3)|[(d & sx & _ & _ & -> & _ & _ & Hs)|
      (d & sx & p & t & b & s2 & _ & _ & _ & _ & _ & Hs2 & Hres)]].
    + destruct r as [[| |]|e]; try done.
      * destruct (Hstop s1) as (s' & ->). eauto.
      * exfalso. specialize (Hr3 e eq_refl).
        destruct (select_completes (context s) s Hc) as (x & sx & Hx). congruence.
    + apply IH. by rewrite Hs.
    + destruct Hres as [(_ & -> & _)|[(_ & -> & _ & rl & Hss)|
                        (_ & _ & _ & _ & _ & t' & Hd)]].
      * unfold_M. eauto.
      * apply IH. rewrite Hss.
        eapply same_providers_cover; [apply mark_failure_same|]. by rewrite Hs2.
      * exfalso. destruct (cooldown_ends_on_a_date t') as [u Hu]. congruence.
  - destruct (Hstop s) as (s' & ->). eauto.
Qed.

End EngineSafety.

(** X20: with a state for every definition, priorities that [1.0] can be
    divided by (not zero, not beyond the range of a float) and a default
    cooldown that ends on a date (of the years 1 to 9999) from every clock
    reading, [_execute_task] raises no exception, whatever the QA service
    and the adapters answer and however long it runs: the errors of the
    services are caught where they occur. *)
Theorem execute_task_never_raises (config : Config)
    (_definitions : list ProviderDefinition) (_providers : gmap string string)
    (world : World) (fuel : nat) (ctx : SelectionContext)
    (pkt : option TaskPacket) (retry : bool) (s : Daemon) :
  states_cover _definitions (_states s) ->
  (forall p, p ∈ _definitions -> returns (float_div_int 1 (priority p))) ->
  (forall t, returns (datetime_add (datetime_now world t)
                                   (Config.rate_limit_cooldown config))) ->
  exists o s',
    MasonDaemon._execute_task config _definitions _providers world
      fuel ctx pkt retry s = (Ok o, s').
Proof.
  intros Hc Hs Hd. rewrite _execute_task_loop.
  by apply loop_completes.
Qed.

(** ** Stripping, splitting and joining *)

Section StringFacts.

Variable isspace : codepoint -> bool.

Abbreviation lstrip := (PyStr.lstrip isspace).
Abbreviation rstrip := (PyStr.rstrip isspace).
Abbreviation strip := (PyStr.strip isspace).

Lemma last_rev {A} (l : list A) : last (rev l) = head l.
Proof. destruct l as [|x l]; [done|]. cbn. by rewrite last_snoc. Qed.

Lemma head_rev {A} (l : list A) : head (rev l) = last l.
Proof. by rewrite <- last_rev, rev_involutive. Qed.

Lemma lstrip_head s : tight_head isspace (lstrip s).
Proof.
  induction s as [|c s IH]; cbn; [by intros ?|].
  destruct (isspace c) eqn:E; [exact IH|]. by intros ? [= <-].
Qed.

Lemma lstrip_fixed s : tight_head isspace s -> lstrip s = s.
Proof.
  destruct s as [|c s]; [done|]. intros H. cbn. by rewrite (H c).
Qed.

Lemma lstrip_sub s x : x ∈ lstrip s -> x ∈ s.
Proof.
  induction s as [|c s IH]; cbn; [done|].
  destruct (isspace c); [|done]. intros H. right. by apply IH.
Qed.

Lemma lstrip_suffix s : exists pre, s = pre ++ lstrip s.
Proof.
  induction s as [|c s [pre IH]]; cbn; [by exists []|].
  destruct (isspace c); [|by exists []].
  exists (c :: pre). cbn. by rewrite <- IH.
Qed.

Lemma rstrip_last s : tight_last isspace (rstrip s).
Proof.
  unfold tight_last, PyStr.rstrip. intros c. rewrite last_rev. apply lstrip_head.
Qed.

Lemma rstrip_fixed s : tight_last isspace s -> rstrip s = s.
Proof.
  intros H. unfold PyStr.rstrip. rewrite lstrip_fixed; [apply rev_involutive|].
  intros c. rewrite head_rev. apply H.
Qed.

Lemma rstrip_prefix s : exists post, s = rstrip s ++ post.
Proof.
  unfold PyStr.rstrip. destruct (lstrip_suffix (rev s)) as [pre H].
  exists (rev pre). rewrite <- rev_app_distr, <- H. by rewrite rev_involutive.
Qed.

Lemma rstrip_head s : tight_head isspace s -> tight_head isspace (rstrip s).
Proof.
  intros H c Hc. destruct (rstrip_prefix s) as [post E].
  destruct (rstrip s) as [|c' r]; [done|]. injection Hc as ->.
  apply H. by rewrite E.
Qed.

Lemma rstrip_sub s x : x ∈ rstrip s -> x ∈ s.
Proof.
  unfold PyStr.rstrip. intros H.
  apply list_elem_of_In, in_rev, list_elem_of_In, lstrip_sub in H.
  by apply list_elem_of_In, in_rev, list_elem_of_In in H.
Qed.

Lemma strip_tight s : tight_head isspace (strip s) /\ tight_last isspace (strip s).
Proof.
  unfold PyStr.strip. split; [apply rstrip_head, lstrip_head | apply rstrip_last].
Qed.

(** [s.strip() == s] exactly when [s] neither begins nor ends with white
    space. *)
Lemma strip_fixed s : strip s = s <-> tight_head isspace s /\ tight_last isspace s.
Proof.
  split.
  - intros <-. apply strip_tight.
  - intros [Hh Hl]. unfold PyStr.strip. by rewrite lstrip_fixed, rstrip_fixed.
Qed.

Lemma strip_idemp s : strip (strip s) = strip s.
Proof. apply strip_fixed, strip_tight. Qed.

Lemma strip_sub s x : x ∈ strip s -> x ∈ s.
Proof. unfold PyStr.strip. intros H. by apply lstrip_sub, rstrip_sub. Qed.

Lemma split_no_sep sep s w : w ∈ PyStr.split sep s -> sep ∉ w.
Proof.
  revert w. induction s as [|c s IH]; intros w; cbn.
  - intros ->%list_elem_of_singleton. apply not_elem_of_nil.
  - destruct (N.eqb_spec c sep) as [->|Hc].
    + intros [->|H]%elem_of_cons; [apply not_elem_of_nil | by apply IH].
    + destruct (PyStr.split sep s) as [|w0 ws] eqn:E.
      * intros ->%list_elem_of_singleton. rewrite list_elem_of_singleton. congruence.
      * intros [->|H]%elem_of_cons.
        -- rewrite not_elem_of_cons. split; [congruence|]. apply IH. left.
        -- apply IH. by right.
Qed.

Lemma split_length sep s : (1 <= length (PyStr.split sep s))%nat.
Proof.
  induction s as [|c s IH]; cbn; [lia|].
  destruct (N.eqb c sep); cbn; [lia|].
  destruct (PyStr.split sep s); cbn in *; lia.
Qed.

Lemma split1_sub sep s parts w x :
  PyStr.split1 sep s = parts -> w ∈ parts -> x ∈ w -> x ∈ s.
Proof.
  revert parts w. induction s as [|c s IH]; intros parts w; cbn.
  - intros <- ->%list_elem_of_singleton. done.
  - destruct (N.eqb c sep).
    + intros <-. rewrite !elem_of_cons, elem_of_nil.
      intros [->|[->|[]]]; [by intros ?%elem_of_nil|]. by right.
    + destruct (PyStr.split1 sep s) as [|w0 ws] eqn:E.
      * intros <- ->%list_elem_of_singleton. rewrite list_elem_of_singleton.
        intros ->. left.
      * intros <- [->|H]%elem_of_cons.
        -- intros [->|Hx]%elem_of_cons; [left|]. right.
           eapply (IH _ w0); [reflexivity | left | done].
        -- intros Hx. right. eapply (IH _ w); [reflexivity | by right | done].
Qed.

Lemma split_no_sep_whole sep s :
  sep ∉ s -> PyStr.split sep s = [s].
Proof.
  induction s as [|c s IH]; [done|]. rewrite not_elem_of_cons. intros [Hc Hs].
  cbn. destruct (N.eqb_spec c sep); [congruence|]. by rewrite IH.
Qed.

Lemma split_app sep a b :
  sep ∉ a ->
  PyStr.split sep (a ++ sep :: b) = a :: PyStr.split sep b.
Proof.
  induction a as [|c a IH]; cbn.
  - intros _. by rewrite N.eqb_refl.
  - rewrite not_elem_of_cons. intros [Hc Ha].
    destruct (N.eqb_spec c sep); [congruence|]. by rewrite IH.
Qed.

(** Splitting at the separator undoes joining with it. *)
Lemma split_join sep (l : list pystr) :
  l <> [] -> Forall (fun w => sep ∉ w) l ->
  PyStr.split sep (join [sep] l) = l.
Proof.
  induction l as [|w l IH]; [done|]. intros _ Hl.
  apply Forall_cons in Hl as [Hw Hl]. cbn [join].
  destruct l as [|w' l]; [by apply split_no_sep_whole|].
  cbn [app]. rewrite split_app by done. f_equal. by apply IH.
Qed.

End StringFacts.

Lemma last_app_ne {A} (a b : list A) : b <> [] -> last (a ++ b) = last b.
Proof.
  intros Hb. induction a as [|x a IH]; [done|]. cbn [app].
  destruct (a ++ b) as [|y l] eqn:E; [|exact IH].
  apply app_eq_nil in E as [_ ?]. done.
Qed.

Lemma join_nonempty sep w (l : list pystr) : w <> [] -> join sep (w :: l) <> [].
Proof. destruct w; [done|]. intros _. by destruct l. Qed.

Lemma join_tight_last isspace sep (l : list pystr) :
  Forall (fun w => w <> [] /\ tight_last isspace w) l ->
  tight_last isspace (join [sep] l).
Proof.
  induction l as [|w l IH]; [by intros _ ?|].
  intros [[Hw Ht] Hl]%Forall_cons. cbn [join].
  destruct l as [|w' l]; [exact Ht|].
  intros c. change (w ++ [sep] ++ join [sep] (w' :: l))
    with (w ++ sep :: join [sep] (w' :: l)).
  rewrite (last_app_ne w) by done.
  apply Forall_cons in Hl as Hl'. destruct Hl' as [[Hw' _] _].
  change (sep :: join [sep] (w' :: l)) with ([sep] ++ join [sep] (w' :: l)).
  rewrite last_app_ne by (by apply join_nonempty).
  by apply IH.
Qed.

(** ** TaskCompiler, further *)

Section CompilerMore.

Variable isspace : codepoint -> bool.
Variable isdigit : codepoint -> bool.
Variable config : Config.
Variable src : PacketSource.

Abbreviation strip := (PyStr.strip isspace).
Abbreviation clean_line := (TaskCompiler.clean_line isspace isdigit).
Abbreviation parse_lines := (TaskCompiler.parse_lines isspace isdigit).
Abbreviation parse := (TaskCompiler._parse_acceptance_criteria isspace isdigit).
Abbreviation compile := (TaskCompiler.compile isspace isdigit config src).

Lemma clean_line_clean line c :
  clean_line line = Ok c ->
  strip c = c /\ forall x, x ∈ c -> x ∈ line.
Proof.
  unfold TaskCompiler.clean_line.
  set (l1 := strip line).
  set (l2 := if PyStr.startswith_any l1 TaskCompiler.bullets
             then strip (drop 1 l1) else l1).
  assert (H2 : strip l2 = l2 /\ forall x, x ∈ l2 -> x ∈ line).
  { subst l2. destruct (PyStr.startswith_any l1 TaskCompiler.bullets).
    - split; [apply strip_idemp|]. intros x Hx%strip_sub.
      apply (strip_sub isspace). fold l1.
      by apply (subseteq_drop 1 l1).
    - subst l1. split; [apply strip_idemp | apply strip_sub]. }
  destruct H2 as [Hs Hsub]. cbv zeta.
  destruct l2 as [|ch l2'] eqn:E2; [by intros [= <-]|].
  destruct (isdigit ch && PyStr.contains FULL_STOP (take 3 (ch :: l2'))).
  - unfold PyStr.index.
    destruct (PyStr.split1 FULL_STOP (ch :: l2') !! 1%nat) as [rest|] eqn:Er;
      cbn; [|discriminate].
    intros [= <-]. split; [apply strip_idemp|]. intros x Hx%strip_sub.
    apply Hsub. eapply split1_sub; [reflexivity| |exact Hx].
    by eapply list_elem_of_lookup_2.
  - by intros [= <-].
Qed.

Lemma parse_lines_clean lines acc cs :
  parse_lines lines acc = Ok cs ->
  Forall (fun c => c <> [] /\ strip c = c /\ LF ∉ c) acc ->
  Forall (fun w => LF ∉ w) lines ->
  Forall (fun c => c <> [] /\ strip c = c /\ LF ∉ c) cs /\
  (length cs <= length acc + length lines)%nat.
Proof.
  revert acc. induction lines as [|line lines IH]; intros acc; cbn.
  - intros [= <-] Ha _. split; [done | lia].
  - destruct (clean_line line) as [c|e] eqn:Ec; cbn; [|discriminate].
    apply clean_line_clean in Ec as [Hs Hsub].
    intros Hp Ha [Hline Hl]%Forall_cons.
    destruct c as [|ch c'].
    + destruct (IH acc Hp Ha Hl) as [? ?]. split; [done | lia].
    + destruct (IH _ Hp) as [? Hlen]; [|done|].
      * apply Forall_app. split; [done|]. constructor; [|done].
        split; [done|]. split; [done|]. intros Hin. by apply Hline, Hsub.
      * split; [done|]. rewrite length_app in Hlen. cbn in Hlen. lia.
Qed.

Lemma parse_clean text cs :
  parse text = Ok cs ->
  Forall (fun c => c <> [] /\ strip c = c /\ LF ∉ c) cs /\
  (length cs <= length (PyStr.split LF (strip text)))%nat.
Proof.
  unfold TaskCompiler._parse_acceptance_criteria.
  destruct text as [|ch text'].
  - intros [= <-]. split; [done|]. cbn. lia.
  - intros H. apply parse_lines_clean in H; [done|done|].
    apply Forall_forall. intros w. apply split_no_sep.
Qed.

(** X21: every criterion [_parse_acceptance_criteria] returns is non-empty,
    neither begins nor ends with white space ([c.strip() == c]) and holds no
    line feed; there is at most one criterion per line of the stripped
    text. *)
Theorem parsed_criteria_are_clean (text : pystr) :
  exists cs,
    parse text = Ok cs /\
    Forall (fun c => c <> [] /\ strip c = c /\ LF ∉ c) cs /\
    (length cs <= length (PyStr.split LF (strip text)))%nat.
Proof.
  destruct (parse_returns isspace isdigit text) as [cs H].
  exists cs. split; [exact H|]. by apply parse_clean.
Qed.

Section Bullets.

Hypothesis space_is_space : isspace SPACE = true.
Hypothesis hyphen_is_not : isspace HYPHEN_MINUS = false.

Lemma clean_line_bullet c :
  c <> [] -> strip c = c -> numbered isdigit c = false ->
  clean_line (lit "- " ++ c) = Ok c.
Proof.
  intros Hne Hs Hnum. apply strip_fixed in Hs as Hs'. destruct Hs' as [Hh Hl].
  change (lit "- " ++ c) with (HYPHEN_MINUS :: SPACE :: c).
  unfold TaskCompiler.clean_line.
  assert (E1 : strip (HYPHEN_MINUS :: SPACE :: c) = HYPHEN_MINUS :: SPACE :: c).
  { apply strip_fixed. split.
    - by intros ? [= <-].
    - intros x. change (HYPHEN_MINUS :: SPACE :: c) with ([HYPHEN_MINUS; SPACE] ++ c).
      rewrite last_app_ne by done. apply Hl. }
  rewrite E1. cbv zeta.
  change (PyStr.startswith_any (HYPHEN_MINUS :: SPACE :: c) TaskCompiler.bullets)
    with true.
  cbn [drop].
  assert (E2 : strip (SPACE :: c) = c).
  { unfold PyStr.strip. cbn [PyStr.lstrip]. rewrite space_is_space. exact Hs. }
  rewrite E2. unfold numbered in Hnum. destruct c as [|ch c']; [done|].
  by rewrite Hnum.
Qed.

Lemma parse_lines_bullets cs acc :
  Forall (fun c => c <> [] /\ strip c = c /\ (LF ∉ c) /\
                   numbered isdigit c = false) cs ->
  parse_lines (map (fun c => lit "- " ++ c) cs) acc = Ok (acc ++ cs).
Proof.
  revert acc. induction cs as [|c cs IH]; intros acc.
  - intros _. cbn. by rewrite app_nil_r.
  - intros [(Hne & Hs & _ & Hn) Hcs]%Forall_cons. cbn [map TaskCompiler.parse_lines].
    rewrite clean_line_bullet by done. cbn.
    destruct c as [|ch c']; [done|]. rewrite IH by done.
    by rewrite <- app_assoc.
Qed.

Lemma parse_bullet_list cs :
  Forall (fun c => c <> [] /\ strip c = c /\ (LF ∉ c) /\
                   numbered isdigit c = false) cs ->
  parse (bullet_list cs) = Ok cs.
Proof.
  intros Hcs. destruct cs as [|c cs]; [reflexivity|].
  unfold bullet_list.
  set (lines := map (fun c => lit "- " ++ c) (c :: cs)).
  assert (Hlines : Forall (fun w => w <> [] /\ tight_last isspace w /\ LF ∉ w) lines).
  { subst lines. apply Forall_fmap. eapply Forall_impl; [exact Hcs|].
    intros x (Hne & Hs & Hlf & _). change (lit "- " ++ x) with ([HYPHEN_MINUS; SPACE] ++ x).
    split; [done|]. split.
    - intros y. rewrite last_app_ne by done. apply strip_fixed in Hs as [_ Hl].
      apply Hl.
    - rewrite elem_of_app. intros [H|H]; [|done].
      apply list_elem_of_In in H. cbn in H. by destruct H as [H|[H|[]]]. }
  assert (Hstrip : strip (join [LF] lines) = join [LF] lines).
  { apply strip_fixed. split.
    - subst lines. cbn [map join].
      change (lit "- " ++ c) with (HYPHEN_MINUS :: SPACE :: c).
      destruct (map _ cs); by intros ? [= <-].
    - apply join_tight_last. eapply Forall_impl; [exact Hlines|].
      by intros x (? & ? & _). }
  unfold TaskCompiler._parse_acceptance_criteria.
  destruct (join [LF] lines) as [|ch t] eqn:Ej.
  { exfalso. subst lines. cbn [map] in Ej.
    eapply join_nonempty; [|exact Ej]. done. }
  rewrite Hstrip, <- Ej, split_join.
  - by apply (parse_lines_bullets (c :: cs) []).
  - done.
  - eapply Forall_impl; [exact Hlines|]. by intros x (_ & _ & ?).
Qed.

End Bullets.

(** X22: the bullet lines the adapters write into their prompts for the
    success criteria of a packet are read back by
    [_parse_acceptance_criteria] as the same criteria, when the criteria
    are clean (as parsed criteria are) and none of them begins like a
    numbered marker; so criteria that were parsed once survive a second
    parse unless one still begins with such a marker. The prompt of the
    Claude adapter ends with these lines. White space is only required to
    include the space and to exclude the hyphen. *)
Theorem prompt_bullets_parse_back (cs : list pystr) :
  isspace SPACE = true ->
  isspace HYPHEN_MINUS = false ->
  (Forall (fun c => c <> [] /\ strip c = c /\ (LF ∉ c) /\
                    numbered isdigit c = false) cs ->
   parse (bullet_list cs) = Ok cs) /\
  (forall text,
     parse text = Ok cs ->
     Forall (fun c => numbered isdigit c = false) cs ->
     parse (bullet_list cs) = Ok cs) /\
  (forall p, success_criteria (goal p) = cs ->
     exists head,
       ClaudeCLIProvider._build_prompt p = head ++ bullet_list cs ++ [LF]).
Proof.
  intros Hsp Hhy. split; [by apply parse_bullet_list|]. split.
  2:{ intros p <-. unfold ClaudeCLIProvider._build_prompt.
      eexists. rewrite !app_assoc. reflexivity. }
  intros text Hp Hn. apply parse_bullet_list; [done..|].
  apply parse_clean in Hp as [Hc _].
  apply Forall_forall. intros c Hin.
  rewrite Forall_forall in Hc, Hn.
  destruct (Hc c Hin) as (? & ? & ?). repeat split; try done. by apply Hn.
Qed.

End CompilerMore.

Section CompileMore.

Variable isspace : codepoint -> bool.
Variable isdigit : codepoint -> bool.
Variable config : Config.
Variable src : PacketSource.

Abbreviation parse := (TaskCompiler._parse_acceptance_criteria isspace isdigit).
Abbreviation compile := (TaskCompiler.compile isspace isdigit config src).

(** The position of a packet in the result of [compile] decides which
    identifier and which time stamp it gets; the rest comes from the story
    and the configuration. *)
Lemma compile_packet_fields k story packets i p :
  compile k story = Ok packets ->
  packets !! i = Some p ->
  identity p = {| task_id := uuid4 src (k + i);
                  id_story_id := story_id story;
                  epic_id := story_epic_id story |} /\
  description (goal p) = narrative story /\
  constraints p = {| file_scope := []; style_rules := []; forbidden := [] |} /\
  inputs p = {| context_files := []; dependencies := [];
                retry_guidance := [] |} /\
  execution p = {| max_attempts := Config.default_max_attempts config;
                   current_attempt := 0; timeout_seconds := 300 |} /\
  provider_context p =
    {| preferred_model := None;
       complexity_hint := TaskCompiler._estimate_complexity story |} /\
  metadata p = {| created_at := utcnow_iso src (k + i) ++ lit "Z";
                  source_domain := "devbacklog";
                  md_priority := story_priority story;
                  est_points := story_est_points story |}.
Proof.
  destruct (parse_returns isspace isdigit (acceptance_criteria story))
    as [criteria Hp].
  rewrite (compile_unfold isspace isdigit config src k story criteria Hp).
  intros [= <-]. destruct (length criteria <=? 3)%nat.
  - destruct i as [|i]; [|by destruct i]. intros [= <-].
    rewrite Nat.add_0_r. done.
  - intros H. apply list_lookup_fmap_Some in H as (j & -> & Hj).
    apply lookup_seq in Hj as [-> _]. done.
Qed.

(** X23: all packets [compile] makes of a story carry the story's id, epic
    and narrative, empty constraints and inputs, the configured number of
    attempts with none used, and the complexity estimated from the story;
    packet [i] has the [i]-th identifier and time stamp drawn, so that
    identifiers are pairwise distinct when the identifier source never
    repeats. [compile] returns no packet at all exactly when the story has
    more than three criteria and [max_tasks_per_story] is not positive. *)
Theorem compile_packets_share_story_fields (k : nat) (story : Story) :
  exists criteria packets,
    parse (acceptance_criteria story) = Ok criteria /\
    compile k story = Ok packets /\
    (packets = [] <->
     (3 < length criteria)%nat /\ Config.max_tasks_per_story config <= 0) /\
    (forall i p, packets !! i = Some p ->
       identity p = {| task_id := uuid4 src (k + i);
                       id_story_id := story_id story;
                       epic_id := story_epic_id story |} /\
       description (goal p) = narrative story /\
       constraints p = {| file_scope := []; style_rules := [];
                          forbidden := [] |} /\
       inputs p = {| context_files := []; dependencies := [];
                     retry_guidance := [] |} /\
       execution p = {| max_attempts := Config.default_max_attempts config;
                        current_attempt := 0; timeout_seconds := 300 |} /\
       complexity_hint (provider_context p)
         = TaskCompiler._estimate_complexity story) /\
    ((forall a b, uuid4 src a = uuid4 src b -> a = b) ->
     NoDup (map (fun p => task_id (identity p)) packets)).
Proof.
  destruct (parse_returns isspace isdigit (acceptance_criteria story))
    as [criteria Hp].
  pose proof (compile_unfold isspace isdigit config src k story criteria Hp) as Hc.
  exists criteria. eexists. split; [exact Hp|]. split; [exact Hc|].
  split; [|split].
  - destruct (Nat.leb_spec (length criteria) 3) as [Hle|Hgt].
    + split; [discriminate | lia].
    + unfold TaskCompiler.max_tasks. split.
      * intros E. apply (f_equal length) in E.
        rewrite length_map, length_seq in E. cbn [length] in E. split; [done|].
        pose proof (Nat.div_mod_eq (length criteria + 2) 3).
        pose proof (Nat.mod_upper_bound (length criteria + 2) 3). lia.
      * intros [_ Hm]. replace (Z.to_nat _) with 0%nat by lia.
        by rewrite Nat.min_0_r.
  - intros i p Hi.
    destruct (compile_packet_fields k story _ i p Hc Hi)
      as (? & ? & ? & ? & ? & Hpc & ?).
    repeat split; try done. by rewrite Hpc.
  - intros Hinj. apply NoDup_alt. intros i j x.
    rewrite !list_lookup_fmap.
    destruct (_ !! i) as [p|] eqn:Ei; [|discriminate].
    destruct (_ !! j) as [q|] eqn:Ej; [|discriminate]. cbn.
    destruct (compile_packet_fields k story _ i p Hc Ei) as (-> & _).
    destruct (compile_packet_fields k story _ j q Hc Ej) as (-> & _).
    cbn. intros [= <-] [= E]. apply Hinj in E. lia.
Qed.

Variable _definitions : list ProviderDefinition.
Variable _providers : gmap string string.
Variable world : World.

(** X24: a packet that [compile] made, run as [_process_new_stories] runs
    it (a context with no attempt used, no provider tried and the packet's
    [max_attempts]), starts from attempt 0 under the task's identifier and
    sees at most [default_max_attempts] invocations answer [failure],
    however many providers fail in other ways. *)
Theorem compiled_task_fails_at_most_max_attempts (k : nat) (story : Story)
    (packets : list TaskPacket) (p : TaskPacket) (fuel : nat) (s : Daemon) :
  compile k story = Ok packets ->
  p ∈ packets ->
  exists r s' new,
    MasonDaemon._execute_task config _definitions _providers world fuel
      (new_task_context p) (Some p) false s = (r, s') /\
    invocations s' = invocations s ++ new /\
    ctx_task_id (context s') = task_id (identity p) /\
    0 <= attempt (context s') <= Z.max 0 (Config.default_max_attempts config) /\
    Z.of_nat (count_status "failure" new)
      <= Z.max 0 (Config.default_max_attempts config).
Proof.
  intros Hc Hp. apply list_elem_of_lookup in Hp as [i Hi].
  destruct (compile_packet_fields k story packets i p Hc Hi)
    as (_ & _ & _ & _ & He & _).
  rewrite _execute_task_loop.
  destruct (loop_trace config _definitions _providers world fuel (Some p)
              (set_context (new_task_context p) s).2)
    as (r & s' & new & added & -> & Hi' & Hctx & _ & _ & _ & _ & Hatt & _).
  exists r, s', new. split; [reflexivity|]. split; [exact Hi'|].
  rewrite Hctx in *. cbn in *. rewrite He in *. cbn in *.
  rewrite attempts_consumed_count in *.
  repeat split; lia.
Qed.

End CompileMore.

(** ** Provider adapters *)

(** X25: the two local adapters never report a rate limit. Goose never
    answers [provider_failure] at all (its [detect_rate_limit] is constantly
    false, so that branch of [generate] is dead) and answers [success]
    exactly for exit code 0 with the working directory listed; Ollama
    answers [provider_failure] exactly when its client package is missing,
    whatever else happens, and [success] exactly when the package is there
    and the client answered. *)
Theorem local_adapters_never_rate_limited :
  (forall r,
     is_rate_limit (GooseProvider.generate r) = false /\
     execution_status (GooseProvider.generate r) <> "provider_failure"%string /\
     (execution_status (GooseProvider.generate r) = "success"%string <->
      exists out err, r = Completed 0 out err Listed)) /\
  (forall has r,
     is_rate_limit (OllamaProvider.generate has r) = false /\
     (execution_status (OllamaProvider.generate has r)
        = "provider_failure"%string <-> has = false) /\
     (execution_status (OllamaProvider.generate has r) = "success"%string <->
      has = true /\ r = OllamaProvider.Answered)).
Proof.
  split.
  - intros [rc out err [|m]| |m]; cbn;
      try destruct (Z.eqb_spec rc 0) as [->|Hrc]; cbn;
      (split; [done|]); (split; [done|]);
      (split; [try done | intros (o & e & [=]); try done]).
    intros _. by exists out, err.
  - intros [|] [|m]; cbn; (split; [done|]); split; split; try done;
      by intros [? ?].
Qed.

Section Claude.

Variable lower : pystr -> pystr.
Variable patterns : list pystr.

Abbreviation claude := (ClaudeCLIProvider.generate lower patterns).
Abbreviation rate_limited := (ClaudeCLIProvider._is_rate_limited lower patterns).
Abbreviation rate_limit_error := (ClaudeCLIProvider.detect_rate_limit lower patterns).

(** X26: the Claude adapter looks for a rate-limit pattern in the output
    before it looks at the exit code: a command that ended with exit code 0
    is reported as a rate-limited [provider_failure] when its output
    mentions a pattern anywhere. The adapter answers [provider_failure]
    exactly when it flags a rate limit, answers one of the three documented
    statuses, and answers [success] exactly for exit code 0, output free of
    patterns and the working directory listed. Exceptions and output are
    searched with the same patterns. *)
Theorem claude_checks_rate_limit_before_exit_code (r : run_result) :
  (forall rc out err files,
     rate_limited (out ++ err) = true ->
     claude (Completed rc out err files) = bundle_of "provider_failure" true) /\
  (execution_status (claude r) = "provider_failure"%string <->
   is_rate_limit (claude r) = true) /\
  (execution_status (claude r) = "success"%string \/
   execution_status (claude r) = "failure"%string \/
   execution_status (claude r) = "provider_failure"%string) /\
  (execution_status (claude r) = "success"%string <->
   exists out err, r = Completed 0 out err Listed /\
                   rate_limited (out ++ err) = false) /\
  (forall text, rate_limit_error text = rate_limited text).
Proof.
  split; [|split; [|split; [|split]]].
  - intros rc out err files H. cbn. by rewrite H.
  - destruct r as [rc out err [|m]| |m]; cbn;
      unfold ClaudeCLIProvider.on_exception;
      repeat match goal with
             | |- context [if ?c then _ else _] => destruct c; cbn
             end; done.
  - destruct r as [rc out err [|m]| |m]; cbn;
      unfold ClaudeCLIProvider.on_exception;
      repeat match goal with
             | |- context [if ?c then _ else _] => destruct c; cbn
             end; tauto.
  - destruct r as [rc out err [|m]| |m]; cbn;
      unfold ClaudeCLIProvider.on_exception;
      try destruct (rate_limited (out ++ err)) eqn:El; cbn;
      try destruct (Z.eqb_spec rc 0) as [->|Hrc]; cbn;
      try destruct (rate_limit_error m); cbn;
      (split; [try done | intros (o & e & [=] & Hf); subst; try congruence]).
    intros _. by exists out, err.
  - reflexivity.
Qed.

End Claude.

(** X27: when every definition has an adapter and every adapter is a Goose
    adapter or an Ollama adapter whose client package is installed, a run
    ends within as many iterations as there are attempts left and makes at
    most that many invocations, whatever the commands and the services
    do. *)
Theorem local_fleet_run_ends (config : Config)
    (_definitions : list ProviderDefinition) (_providers : gmap string string)
    (world : World) (fuel : nat) (ctx : SelectionContext)
    (pkt : option TaskPacket) (retry : bool) (s : Daemon) :
  (forall d, d ∈ _definitions -> is_Some (_providers !! name d)) ->
  (forall n p t,
     (exists r, generate world n p t = GooseProvider.generate r) \/
     (exists r, generate world n p t = OllamaProvider.generate true r)) ->
  (Z.to_nat (ctx_max_attempts ctx - attempt ctx) <= fuel)%nat ->
  exists r s',
    MasonDaemon._execute_task config _definitions _providers world
      fuel ctx pkt retry s = (r, s') /\
    r <> Ok OutOfFuel /\
    (length (invocations s') <=
     length (invocations s) + Z.to_nat (ctx_max_attempts ctx - attempt ctx))%nat.
Proof.
  intros Ha Hg Hf. rewrite _execute_task_loop.
  apply loop_ends_without_provider_failure; [exact Ha| |exact Hf].
  intros n p t. destruct (Hg n p t) as [[r ->]|[r ->]].
  - destruct r as [rc out err [|m]| |m]; cbn; try destruct (rc =? 0); done.
  - by destruct r.
Qed.

(** ** Further scenarios *)

Section FurtherScenarios.
Import Scenario.
Import Cases.

Lemma two_providers_covered :
  states_cover (definitions two_providers) (_states (boot two_providers)).
Proof.
  intros d Hd. apply list_elem_of_In in Hd. vm_compute in Hd.
  destruct Hd as [<-|[<-|[]]]; vm_compute; eauto.
Qed.

(** Witness of X3: provider A of the two-provider registry is cooled down
    for 60 seconds right after construction. *)
Lemma cooldown_excludes_until_expiry_witness :
  exists s',
    ProviderRegistry.mark_rate_limited two_providers
      (world_of steady_clock 0 (always "failure")) "A" (Some 60)
      (boot two_providers) = (Ok tt, s') /\
    consecutive_failures <$> (_states s' !! "A") = Some 1.
Proof.
  destruct (cooldown_excludes_until_expiry two_providers
              (world_of steady_clock 0 (always "failure"))
              (definitions two_providers) "A" (Some 60) (boot two_providers)
              (ProviderRegistry.initial_state "A"))
    as (H & _);
    [vm_compute; reflexivity | exact two_providers_covered |].
  destruct (H (0 + timedelta 60)) as (s' & E & Hc & _);
    [vm_compute; reflexivity|].
  exists s'. split; [exact E | exact Hc].
Defined.

(** Witness of X4: provider A of the two-provider registry succeeds right
    after construction. *)
Lemma success_clears_cooldown_witness :
  exists s',
    ProviderRegistry.mark_success
      (world_of steady_clock 0 (always "success")) "A"
      (boot two_providers) = (Ok tt, s') /\
    (_states s' !! "A" ≫= last_success) = Some (steady_clock 0).
Proof.
  destruct (success_clears_cooldown
              (world_of steady_clock 0 (always "success"))
              (definitions two_providers) "A" (boot two_providers)
              (ProviderRegistry.initial_state "A"))
    as (s' & E & H & _);
    [vm_compute; reflexivity | exact two_providers_covered |].
  exists s'. split; [exact E|]. rewrite H. reflexivity.
Defined.

(** Witness of X5: the two-provider registry is told about a provider C. *)
Lemma unknown_provider_is_ignored_witness :
  ProviderRegistry.mark_failure two_providers
    (world_of steady_clock 0 (always "failure")) "C" true (boot two_providers)
  = (Ok tt, boot two_providers).
Proof.
  destruct (unknown_provider_is_ignored two_providers
              (world_of steady_clock 0 (always "failure")) "C"
              (boot two_providers)) as (_ & H & _);
    [vm_compute; reflexivity|].
  exact (H true).
Defined.

(** Witness of X10: a retry record with three of three attempts used. *)
Lemma exhausted_on_entry_witness :
  (MasonDaemon._execute_task two_providers (definitions two_providers)
     (adapters two_providers) (world_of steady_clock 0 (always "failure"))
     5 {| ctx_task_id := lit "task"; attempt := 3; ctx_max_attempts := 3;
          providers_tried := ["A"; "B"; "A"]%string;
          last_failure_reason := None; is_retry := true |}
     None true (boot two_providers)).1 = Ok Exhausted.
Proof.
  rewrite (exhausted_on_entry two_providers (definitions two_providers)
             (adapters two_providers)
             (world_of steady_clock 0 (always "failure"))); [reflexivity|].
  cbn. lia.
Defined.

(** Witness of X16: two providers with adapters, every answer a failure,
    three attempts. *)
Lemma ends_when_no_provider_failure_witness :
  exists r s',
    MasonDaemon._execute_task two_providers (definitions two_providers)
      (adapters two_providers) (world_of steady_clock 0 (always "failure"))
      3 (fresh_context 3 []) (Some packet) false (boot two_providers) = (r, s') /\
    r <> Ok OutOfFuel /\
    (length (invocations s') <= 3)%nat.
Proof.
  apply (ends_when_no_provider_failure two_providers
           (definitions two_providers) (adapters two_providers)
           (world_of steady_clock 0 (always "failure"))
           3 (fresh_context 3 []) (Some packet) false (boot two_providers)).
  - intros d Hd. apply list_elem_of_In in Hd. vm_compute in Hd.
    destruct Hd as [<-|[<-|[]]]; vm_compute; eauto.
  - intros n p t. cbn. discriminate.
  - vm_compute. lia.
Defined.

(** Witness of X17: an API provider A (score 0.5) ahead of a local provider
    L (score 0.25). *)
Lemma select_returns_best_score_witness :
  exists s1 scored pre sc post,
    ProviderSelector._score_providers (world_of steady_clock 0 (always "failure"))
      [api_A; local_L] (boot api_and_local) = (Ok scored, s1) /\
    map fst scored = [api_A; local_L] /\
    scored = pre ++ (api_A, sc) :: post.
Proof.
  assert (H : ProviderSelector.choose (world_of steady_clock 0 (always "failure"))
                [api_A; local_L] (boot api_and_local)
              = (Ok (Some api_A),
                 (ProviderSelector.choose (world_of steady_clock 0 (always "failure"))
                    [api_A; local_L] (boot api_and_local)).2))
    by (vm_compute; reflexivity).
  destruct (select_returns_best_score _ _ _ _ _ H)
    as (s1 & scored & pre & sc & post & E & Hm & Hl & _).
  by exists s1, scored, pre, sc, post.
Defined.

(** Witness of X18: the only provider has priority 0. *)
Lemma select_raises_only_scoring_errors_witness :
  exists p, p ∈ definitions zero_priority /\
            float_div_int 1 (priority p) = Raise ZeroDivisionError.
Proof.
  assert (H : ProviderSelector.select zero_priority (definitions zero_priority)
                (world_of steady_clock 0 (always "failure"))
                (fresh_context 3 []) (boot zero_priority)
              = (Raise ZeroDivisionError,
                 (ProviderSelector.select zero_priority (definitions zero_priority)
                    (world_of steady_clock 0 (always "failure"))
                    (fresh_context 3 []) (boot zero_priority)).2))
    by (vm_compute; reflexivity).
  destruct (select_raises_only_scoring_errors _ _ _ _ _ _ _ H)
    as [(Hk & _)|(_ & p & Hp & _ & Hr)]; [discriminate|].
  by exists p.
Defined.

(** Witness of X20: the two providers, A rate limited and B failing, on a
    clock that stands at the first of January 2026. *)
Lemma execute_task_never_raises_witness :
  exists o s',
    MasonDaemon._execute_task two_providers (definitions two_providers)
      (adapters two_providers)
      (world_of frozen_clock 0 (a_rate_limited "failure"))
      5 (fresh_context 3 []) (Some packet) false (boot two_providers)
    = (Ok o, s').
Proof.
  apply execute_task_never_raises.
  - exact two_providers_covered.
  - intros p Hp. apply list_elem_of_In in Hp. vm_compute in Hp.
    destruct Hp as [<-|[<-|[]]]; eexists; vm_compute; reflexivity.
  - intros t. eexists. vm_compute. reflexivity.
Defined.

(** Witness of X22: two criteria, in ASCII. *)
Lemma prompt_bullets_parse_back_witness :
  TaskCompiler._parse_acceptance_criteria ascii_isspace ascii_isdigit
    (bullet_list [lit "works"; lit "is fast"])
  = Ok [lit "works"; lit "is fast"].
Proof.
  apply (prompt_bullets_parse_back ascii_isspace ascii_isdigit
           [lit "works"; lit "is fast"]); [reflexivity | reflexivity |].
  repeat constructor; try discriminate;
    intros H; apply list_elem_of_In in H; vm_compute in H; intuition discriminate.
Defined.

(** Witness of X24: the story "works" and its only packet, with the two
    providers failing. *)
Lemma compiled_task_fails_at_most_max_attempts_witness :
  exists r s' new,
    MasonDaemon._execute_task two_providers (definitions two_providers)
      (adapters two_providers) (world_of steady_clock 0 (always "failure"))
      5 (new_task_context works_packet) (Some works_packet) false
      (boot two_providers) = (r, s') /\
    invocations s' = new /\
    Z.of_nat (count_status "failure" new) <= 3.
Proof.
  destruct (compiled_task_fails_at_most_max_attempts ascii_isspace ascii_isdigit
              two_providers packet_source (definitions two_providers)
              (adapters two_providers)
              (world_of steady_clock 0 (always "failure"))
              0 (story "works") [works_packet] works_packet 5
              (boot two_providers))
    as (r & s' & new & E & Hi & _ & _ & Hf);
    [vm_compute; reflexivity | left |].
  exists r, s', new. split; [exact E|]. split; [exact Hi | exact Hf].
Defined.

(** Witness of X27: two Goose adapters whose command ends with exit code
    1. *)
Lemma local_fleet_run_ends_witness :
  exists r s',
    MasonDaemon._execute_task goose_pair (definitions goose_pair)
      (adapters goose_pair) (world_of steady_clock 0 goose_exit_1)
      3 (fresh_context 3 []) (Some packet) false (boot goose_pair) = (r, s') /\
    r <> Ok OutOfFuel /\
    (length (invocations s') <= 3)%nat.
Proof.
  apply (local_fleet_run_ends goose_pair (definitions goose_pair)
           (adapters goose_pair) (world_of steady_clock 0 goose_exit_1)
           3 (fresh_context 3 []) (Some packet) false (boot goose_pair)).
  - intros d Hd. apply list_elem_of_In in Hd. vm_compute in Hd.
    destruct Hd as [<-|[<-|[]]]; vm_compute; eauto.
  - intros n p t. left. by eexists.
  - vm_compute. lia.
Defined.

End FurtherScenarios.
